(** * DocuDash: instruction-record lifecycle, verified against [app.py]

    A shallow embedding of the record-management core of the dashboard
    ([is_outdated], [add_history_entry], [add_instruction],
    [edit_instruction] with its update and delete branches, [load_data],
    [save_data]) together with the properties its specification states,
    and of the passes over the collection made by the overview, the
    reminders and the statistics pages ([show_instructions_overview],
    [send_reminders], [send_email], [show_statistics]).

    Conventions.
    - A Python [str] is a [string] holding its UTF-8 bytes; uploaded file
      contents are [list Byte.byte].
    - The flat [uploads/] directory is a [gmap string (list Byte.byte)]
      keyed by file name; [os.path.join(UPLOADS_DIR, f)] is injective on
      the names the program builds, so the directory prefix is left out.
    - [datetime.now()], [uuid.uuid4()] and the outcome of each storage
      call ([shutil.copy2], [os.remove], writing an upload) are inputs of
      the operation that reads them.  In the properties of the pages
      [save_data] is taken to succeed and [json.dump] is a parameter; the
      properties of the data file use the model of the [json] module
      given with them.
      So are the reading of the clock by each call of [is_outdated] in a
      pass over the collection, and whether the SMTP session of each
      call of [send_email] goes through.
    - An instruction is the dict [add_instruction] builds, as a record:
      every key is present, so the [.get] defaults and the
      initialisation of a missing ['history'] or ['file_versions'] in
      [edit_instruction] never apply. *)

From Stdlib Require Import ZArith Lia Ascii String List.
From Stdlib Require Import DecimalString DecimalN DecimalFacts.
From stdpp Require Import gmap strings list fin_maps pretty sorting.

Local Open Scope string_scope.
Local Open Scope list_scope.
Local Open Scope Z_scope.

(** ** Strings *)

Module Str.

(** Python truthiness of a [str]: the empty string is falsy. *)
Definition truthy (s : string) : bool :=
  match s with
  | EmptyString => false
  | String _ _ => true
  end.

Definition underscore : ascii := "_"%char.

(** [s.split('_', 1)[-1]]: what follows the first underscore, or all of
    [s] when it has none. *)
Fixpoint after_first_underscore (s : string) : option string :=
  match s with
  | EmptyString => None
  | String c rest =>
      if Ascii.eqb c underscore then Some rest
      else after_first_underscore rest
  end.

Definition split_last (s : string) : string :=
  match after_first_underscore s with
  | Some rest => rest
  | None => s
  end.

Fixpoint has_underscore (s : string) : bool :=
  match s with
  | EmptyString => false
  | String c rest => Ascii.eqb c underscore || has_underscore rest
  end.

(** [sep.join(parts)] *)
Fixpoint join (sep : string) (parts : list string) : string :=
  match parts with
  | [] => ""
  | [p] => p
  | p :: rest => p +:+ sep +:+ join sep rest
  end.

(** [str(n)] for a non-negative [int]. *)
Definition of_nat (n : nat) : string := pretty n.

(** [s.count('_')] *)
Fixpoint count_underscores (s : string) : nat :=
  match s with
  | EmptyString => 0
  | String c rest =>
      ((if Ascii.eqb c underscore then 1 else 0) + count_underscores rest)%nat
  end.

(** [needle in hay] *)
Definition occurs_in (needle hay : string) : Prop :=
  exists pre post, hay = pre +:+ needle +:+ post.

End Str.

(** ** Calendar: the part of [datetime] that [is_outdated] uses *)

Module Calendar.

(** A naive [datetime]: proleptic Gregorian ordinal of the day (1 is
    0001-01-01) and microseconds since midnight. *)
Record datetime := { ordinal : Z; usec : Z }.

Definition MINYEAR : Z := 1.
Definition MAXYEAR : Z := 9999.
Definition MAXORDINAL : Z := 3652059.
Definition USEC_PER_DAY : Z := 86400000000.
Definition MAX_DELTA_DAYS : Z := 999999999.

Definition valid (t : datetime) : Prop :=
  1 <= ordinal t <= MAXORDINAL /\ 0 <= usec t < USEC_PER_DAY.

(** Microseconds since the start of day 0: the instant on the time line. *)
Definition instant (t : datetime) : Z := ordinal t * USEC_PER_DAY + usec t.

Definition is_leap (y : Z) : bool :=
  (y mod 4 =? 0) && (negb (y mod 100 =? 0) || (y mod 400 =? 0)).

Definition days_in_month (y m : Z) : Z :=
  if m =? 2 then (if is_leap y then 29 else 28)
  else if (m =? 4) || (m =? 6) || (m =? 9) || (m =? 11) then 30
  else 31.

Definition days_before_year (y : Z) : Z :=
  let p := y - 1 in p * 365 + p / 4 - p / 100 + p / 400.

Fixpoint days_before_month_upto (y : Z) (k : nat) : Z :=
  match k with
  | O => 0
  | S k' => days_before_month_upto y k' + days_in_month y (Z.of_nat k)
  end.

Definition days_before_month (y m : Z) : Z :=
  days_before_month_upto y (Z.to_nat (m - 1)).

Definition ymd2ord (y m d : Z) : Z :=
  days_before_year y + days_before_month y m + d.

(** The [datetime(y, m, d)] constructor: [None] is its [ValueError]. *)
Definition make_date (y m d : Z) : option datetime :=
  if (MINYEAR <=? y) && (y <=? MAXYEAR) && (1 <=? m) && (m <=? 12)
     && (1 <=? d) && (d <=? days_in_month y m)
  then Some {| ordinal := ymd2ord y m d; usec := 0 |}
  else None.

Definition digit (c : ascii) : option Z :=
  let n := Z.of_nat (nat_of_ascii c) in
  if (48 <=? n) && (n <=? 57) then Some (n - 48) else None.

Definition digit_in (lo hi : Z) (c : ascii) : option Z :=
  match digit c with
  | Some v => if (lo <=? v) && (v <=? hi) then Some v else None
  | None => None
  end.

(** The [%d] group, which ends the pattern: the alternatives
    [3[0-1]|[1-2]\d|0[1-9]|[1-9]| [1-9]] against all that is left
    (anything unconsumed is "unconverted data remains"). *)
Definition parse_day (s : list ascii) : option Z :=
  match s with
  | [c] => digit_in 1 9 c
  | [a; c] =>
      if Ascii.eqb a "3" then digit_in 0 1 c ≫= λ v, Some (30 + v)
      else if Ascii.eqb a "1" || Ascii.eqb a "2" then
        digit_in 1 2 a ≫= λ t, digit c ≫= λ v, Some (10 * t + v)
      else if Ascii.eqb a "0" || Ascii.eqb a " " then digit_in 1 9 c
      else None
  | _ => None
  end.

(** The [%m] group followed by the literal dash: [1[0-2]|0[1-9]|[1-9]]. *)
Definition parse_month (s : list ascii) : option (Z * list ascii) :=
  match s with
  | a :: b :: c :: rest =>
      if Ascii.eqb b "-" then digit_in 1 9 a ≫= λ v, Some (v, c :: rest)
      else if Ascii.eqb c "-" then
        if Ascii.eqb a "1" then digit_in 0 2 b ≫= λ v, Some (10 + v, rest)
        else if Ascii.eqb a "0" then digit_in 1 9 b ≫= λ v, Some (v, rest)
        else None
      else None
  | [a; b] =>
      if Ascii.eqb b "-" then digit_in 1 9 a ≫= λ v, Some (v, [])
      else None
  | _ => None
  end.

(** [datetime.strptime(s, "%Y-%m-%d")]; [None] is its [ValueError].
    The pattern is [(\d\d\d\d)-(1[0-2]|0[1-9]|[1-9])-(3[01]|[12]\d|0[1-9]|[1-9]| [1-9])]
    matched from the start, all of [s] being consumed; digits are the
    ASCII ones. *)
Definition strptime (s : string) : option datetime :=
  match list_ascii_of_string s with
  | y1 :: y2 :: y3 :: y4 :: dash :: rest =>
      if Ascii.eqb dash "-" then
        a ← digit y1; b ← digit y2; c ← digit y3; d ← digit y4;
        '(m, rest') ← parse_month rest;
        dd ← parse_day rest';
        make_date (1000 * a + 100 * b + 10 * c + d) m dd
      else None
  | _ => None
  end.

(** [timedelta(days=n)]: [None] is its [OverflowError]. *)
Definition timedelta_days (n : Z) : option Z :=
  if (- MAX_DELTA_DAYS <=? n) && (n <=? MAX_DELTA_DAYS) then Some n else None.

(** [t - timedelta(days=n)]: [None] is "date value out of range". *)
Definition sub_days (t : datetime) (n : Z) : option datetime :=
  let o := ordinal t - n in
  if (1 <=? o) && (o <=? MAXORDINAL)
  then Some {| ordinal := o; usec := usec t |}
  else None.

(** [a < b] on naive datetimes. *)
Definition lt (a b : datetime) : bool :=
  (ordinal a <? ordinal b)
  || ((ordinal a =? ordinal b) && (usec a <? usec b)).

End Calendar.

(** ** StalenessPolicy *)

Definition DEFAULT_MONTHS_THRESHOLD : Z := 12.

(** [is_outdated(last_update_date, months_threshold)], with the reading
    of [datetime.now()] as [now].  [None] is Python's [None]; the bare
    [except:] turns every exception of the [try] block into [True]. *)
Definition is_outdated (now : Calendar.datetime)
    (last_update_date : option string) (months_threshold : Z) : bool :=
  match last_update_date with
  | None => true
  | Some s =>
      if negb (Str.truthy s) then true
      else
        match Calendar.strptime s with
        | None => true
        | Some update_date =>
            match Calendar.timedelta_days (months_threshold * 30) with
            | None => true
            | Some days =>
                match Calendar.sub_days now days with
                | None => true
                | Some threshold_date => Calendar.lt update_date threshold_date
                end
            end
        end
  end.

(** ** Data model *)

Abbreviation bytes := (list Byte.byte).
Abbreviation Files := (gmap string bytes).

(** An entry of [instruction['history']]. *)
Record HistoryEntry := {
  timestamp : string;
  change_type : string;
  details : string;
  user : string
}.

(** An entry of [instruction['file_versions']]; [v_filename] and
    [v_timestamp] are its keys ['filename'] and ['timestamp']. *)
Record FileVersion := {
  version : nat;
  v_filename : string;
  original_name : string;
  v_timestamp : string
}.

(** The dict built by [add_instruction]; [filename = None] is JSON null. *)
Record Instruction := {
  id : string;
  title : string;
  department : string;
  registration_date : string;
  last_update : string;
  responsible : string;
  email : string;
  has_file : bool;
  filename : option string;
  history : list HistoryEntry;
  file_versions : list FileVersion
}.

#[global] Instance HistoryEntry_eq_dec : EqDecision HistoryEntry.
Proof. solve_decision. Defined.
#[global] Instance FileVersion_eq_dec : EqDecision FileVersion.
Proof. solve_decision. Defined.
#[global] Instance Instruction_eq_dec : EqDecision Instruction.
Proof. solve_decision. Defined.

(** A [datetime.date] as the widgets return it.  The code reads it only
    through [strftime("%Y-%m-%d")], so it is held as that rendering; as a
    Python object it is always truthy. *)
Record date := { strftime_ymd : string }.

(** Streamlit's [UploadedFile]: [name] and what [read()] returns. *)
Record UploadedFile := { name : string; content : bytes }.

(** The values of the form's widgets at submission. *)
Record Form := {
  form_title : string;
  form_department : string;
  form_registration_date : date;
  form_last_update : date;
  form_responsible : string;
  form_email : string;
  uploaded_file : option UploadedFile
}.

(** The readings of [datetime.now().strftime("%Y-%m-%d %H:%M:%S")], one
    per place that takes one. *)
Record Clock := {
  ts_create : string;  (* the 'Создание' entry *)
  ts_edit : string;    (* the 'Редактирование' entry *)
  ts_version : string; (* the file_versions entry *)
  ts_file : string     (* the 'Файл' entry *)
}.

(** The storage calls that can raise [OSError], and which of them do in
    the run at hand. A call that raises leaves the directory as it was. *)
Inductive StorageCall := CallCopy | CallRemove | CallWrite.

Abbreviation Faults := (StorageCall -> bool).

Definition no_faults : Faults := fun _ => false.

(** How a handler run ends. [S] is what the run was mutating. *)
Inductive Result (S : Type) :=
  | Skipped                      (* nothing selected: the body was not entered *)
  | Rejected (message : string)  (* a message was shown and the handler
                                    returned with nothing touched *)
  | Raised (at_raise : S)        (* an exception left the handler *)
  | Done (final : S).            (* ran to the end *)
Arguments Skipped {S}.
Arguments Rejected {S} message.
Arguments Raised {S} at_raise.
Arguments Done {S} final.

(** ** HistoryLog *)

Definition DEFAULT_USER : string := "Система".
Definition CREATE : string := "Создание".
Definition EDIT : string := "Редактирование".
Definition FILE : string := "Файл".

Definition with_history (i : Instruction) (h : list HistoryEntry) : Instruction :=
  {| id := id i; title := title i; department := department i;
     registration_date := registration_date i; last_update := last_update i;
     responsible := responsible i; email := email i; has_file := has_file i;
     filename := filename i; history := h; file_versions := file_versions i |}.

Definition with_file_versions (i : Instruction) (v : list FileVersion) : Instruction :=
  {| id := id i; title := title i; department := department i;
     registration_date := registration_date i; last_update := last_update i;
     responsible := responsible i; email := email i; has_file := has_file i;
     filename := filename i; history := history i; file_versions := v |}.

Definition with_filename (i : Instruction) (f : option string) : Instruction :=
  {| id := id i; title := title i; department := department i;
     registration_date := registration_date i; last_update := last_update i;
     responsible := responsible i; email := email i; has_file := has_file i;
     filename := f; history := history i; file_versions := file_versions i |}.

Definition with_has_file (i : Instruction) (b : bool) : Instruction :=
  {| id := id i; title := title i; department := department i;
     registration_date := registration_date i; last_update := last_update i;
     responsible := responsible i; email := email i; has_file := b;
     filename := filename i; history := history i; file_versions := file_versions i |}.

(** [instruction.update({...})] with the six form fields. *)
Definition update_fields (i : Instruction) (f : Form) : Instruction :=
  {| id := id i; title := form_title f; department := form_department f;
     registration_date := strftime_ymd (form_registration_date f);
     last_update := strftime_ymd (form_last_update f);
     responsible := form_responsible f; email := form_email f;
     has_file := has_file i; filename := filename i;
     history := history i; file_versions := file_versions i |}.

(** [add_history_entry(instruction, change_type, details)] with the
    default [user]; [now] is the formatted clock reading. *)
Definition add_history_entry (now : string) (instruction : Instruction)
    (change_type details : string) : Instruction :=
  let history_entry :=
    {| timestamp := now; change_type := change_type;
       details := details; user := DEFAULT_USER |} in
  with_history instruction (history instruction ++ [history_entry]).

(** ** InstructionRecord: creation *)

Definition dquote : string := String (ascii_of_nat 34) "".

Definition ADD_ERROR : string :=
  "❌ Заполните все обязательные поля (отмечены *)".
Definition EDIT_ERROR : string := "❌ Заполните все поля".

(** [all([title, department, registration_date, last_update,
    responsible, email])]: the two dates are [date] objects, so truthy. *)
Definition all_filled (f : Form) : bool :=
  Str.truthy (form_title f) && Str.truthy (form_department f)
  && true && true
  && Str.truthy (form_responsible f) && Str.truthy (form_email f).

(** The stored name of a current file: [f"{id}_{uploaded_file.name}"]. *)
Definition current_name (record_id upload_name : string) : string :=
  record_id +:+ "_" +:+ upload_name.

(** The stored name of an archived file:
    [f"{id}_v{version_num}_{original}"]. *)
Definition version_name (record_id : string) (version_num : nat)
    (original : string) : string :=
  record_id +:+ "_v" +:+ Str.of_nat version_num +:+ "_" +:+ original.

(** [add_instruction(data)] once the form is submitted. [uuid] is
    [str(uuid.uuid4())]. [Done] means [save_data(data)] was reached with
    the collection it carries. *)
Definition add_instruction (uuid : string) (clock : Clock) (faults : Faults)
    (form : Form) (data : list Instruction) (files : Files)
    : Result (list Instruction * Files) :=
  if negb (all_filled form) then Rejected ADD_ERROR
  else
    let new_instruction :=
      {| id := uuid;
         title := form_title form;
         department := form_department form;
         registration_date := strftime_ymd (form_registration_date form);
         last_update := strftime_ymd (form_last_update form);
         responsible := form_responsible form;
         email := form_email form;
         has_file := bool_decide (uploaded_file form <> None);
         filename := None;
         history := [];
         file_versions := [] |} in
    let new_instruction :=
      add_history_entry (ts_create clock) new_instruction CREATE
        ("Создана новая инструкция " +:+ dquote +:+ form_title form +:+ dquote) in
    match uploaded_file form with
    | Some up =>
        let filename := current_name (id new_instruction) (name up) in
        if faults CallWrite then Raised (data, files)
        else
          let files := <[filename := content up]> files in
          let new_instruction := with_filename new_instruction (Some filename) in
          let new_instruction :=
            add_history_entry (ts_file clock) new_instruction FILE
              ("Загружен файл: " +:+ name up) in
          Done (data ++ [new_instruction], files)
    | None => Done (data ++ [new_instruction], files)
    end.

(** ** InstructionRecord: edit *)

(** The [changes] list of the update branch. *)
Definition changes (instruction : Instruction) (form : Form) : list string :=
  (if bool_decide (title instruction <> form_title form)
   then ["Название: '" +:+ title instruction +:+ "' → '" +:+ form_title form +:+ "'"]
   else [])
  ++ (if bool_decide (department instruction <> form_department form)
      then ["Подразделение: '" +:+ department instruction +:+ "' → '"
            +:+ form_department form +:+ "'"]
      else [])
  ++ (if bool_decide (registration_date instruction
                      <> strftime_ymd (form_registration_date form))
      then ["Дата регистрации изменена"] else [])
  ++ (if bool_decide (last_update instruction
                      <> strftime_ymd (form_last_update form))
      then ["Дата актуализации обновлена"] else [])
  ++ (if bool_decide (responsible instruction <> form_responsible form)
      then ["Ответственный: '" +:+ responsible instruction +:+ "' → '"
            +:+ form_responsible form +:+ "'"]
      else [])
  ++ (if bool_decide (email instruction <> form_email form)
      then ["Email изменен"] else []).

(** The block under [if instruction.get('filename'):], which archives
    the current file before a new one replaces it. *)
Definition archive_current (clock : Clock) (faults : Faults)
    (instruction : Instruction) (files : Files)
    : Result (Instruction * Files) :=
  match filename instruction with
  | None => Done (instruction, files)
  | Some old_filename =>
      if negb (Str.truthy old_filename) then Done (instruction, files)
      else
        match files !! old_filename with
        | None => Done (instruction, files)
        | Some old_bytes =>
            let version_num := (length (file_versions instruction) + 1)%nat in
            let version_filename :=
              version_name (id instruction) version_num
                (Str.split_last old_filename) in
            if faults CallCopy then Raised (instruction, files)
            else
              let files := <[version_filename := old_bytes]> files in
              let instruction :=
                with_file_versions instruction
                  (file_versions instruction ++
                   [{| version := version_num;
                       v_filename := version_filename;
                       original_name := Str.split_last old_filename;
                       v_timestamp := ts_version clock |}]) in
              if faults CallRemove then Raised (instruction, files)
              else Done (instruction, delete old_filename files)
        end
  end.

(** The block under [if uploaded_file:]. *)
Definition replace_file (clock : Clock) (faults : Faults) (up : UploadedFile)
    (instruction : Instruction) (files : Files)
    : Result (Instruction * Files) :=
  match archive_current clock faults instruction files with
  | Skipped => Skipped
  | Rejected m => Rejected m
  | Raised s => Raised s
  | Done (instruction, files) =>
      let filename := current_name (id instruction) (name up) in
      if faults CallWrite then Raised (instruction, files)
      else
        let files := <[filename := content up]> files in
        let instruction := with_filename instruction (Some filename) in
        let instruction := with_has_file instruction true in
        let instruction :=
          add_history_entry (ts_file clock) instruction FILE
            ("Загружена новая версия файла: " +:+ name up) in
        Done (instruction, files)
  end.

(** The update branch of [edit_instruction] on the selected record, up
    to (not including) [save_data(data)]. *)
Definition update_instruction (clock : Clock) (faults : Faults) (form : Form)
    (instruction : Instruction) (files : Files)
    : Result (Instruction * Files) :=
  if negb (all_filled form) then Rejected EDIT_ERROR
  else
    let changes := changes instruction form in
    let instruction := update_fields instruction form in
    let instruction :=
      match changes with
      | [] => instruction
      | _ :: _ =>
          add_history_entry (ts_edit clock) instruction EDIT
            (Str.join "; " changes)
      end in
    match uploaded_file form with
    | Some up => replace_file clock faults up instruction files
    | None => Done (instruction, files)
    end.

(** ** RecordRepository: selection, update and delete in the collection *)

Definition NO_DATA_INFO : string :=
  "📝 Нет инструкций для редактирования. Добавьте сначала инструкцию.".
Definition CONFIRM_WARNING : string :=
  "⚠️ Нажмите 'Удалить' еще раз для подтверждения".

(** [{item['title']: item['id'] for item in data}]: a later record with
    the same title takes the key. *)
Definition instruction_options (data : list Instruction) : gmap string string :=
  foldl (fun m item => <[title item := id item]> m) ∅ data.

(** [next(item for item in data if item['id'] == selected_id)], with the
    position of the record found. *)
Definition find_by_id (selected_id : string) (data : list Instruction)
    : option (nat * Instruction) :=
  list_find (fun item => id item = selected_id) data.

(** The record the page works on, from the title picked in the selectbox. *)
Definition selected (selected_title : string) (data : list Instruction)
    : option (nat * Instruction) :=
  if negb (Str.truthy selected_title) then None
  else
    match instruction_options data !! selected_title with
    | None => None
    | Some selected_id => find_by_id selected_id data
    end.

(** [data.remove(x)]: drops the first element equal to [x]. *)
Fixpoint list_remove (x : Instruction) (data : list Instruction)
    : list Instruction :=
  match data with
  | [] => []
  | y :: rest => if decide (y = x) then rest else y :: list_remove x rest
  end.

(** The delete branch once the confirmation flag is set. *)
Definition delete_instruction (faults : Faults) (instruction : Instruction)
    (data : list Instruction) (files : Files)
    : Result (list Instruction * Files) :=
  match filename instruction with
  | None => Done (list_remove instruction data, files)
  | Some f =>
      if negb (Str.truthy f) then Done (list_remove instruction data, files)
      else
        match files !! f with
        | None => Done (list_remove instruction data, files)
        | Some _ =>
            if faults CallRemove then Raised (data, files)
            else Done (list_remove instruction data, delete f files)
        end
  end.

Inductive Button := UpdateButton | DeleteButton.

(** Drawing the form parses the record's two stored dates with
    [datetime.strptime(..., "%Y-%m-%d")] to preset the date widgets; a
    date that does not parse raises [ValueError] there, before either
    button is looked at. *)
Definition form_renders (instruction : Instruction) : bool :=
  bool_decide (is_Some (Calendar.strptime (registration_date instruction)))
  && bool_decide (is_Some (Calendar.strptime (last_update instruction))).

(** [edit_instruction(data)] with one of the form's two buttons pressed.
    [confirm_delete] is [st.session_state.get(f'confirm_delete_{id}')].
    [Done] means [save_data(data)] was reached with the collection it
    carries; on [Raised] it was not. *)
Definition edit_instruction (clock : Clock) (faults : Faults)
    (selected_title : string) (button : Button) (confirm_delete : bool)
    (form : Form) (data : list Instruction) (files : Files)
    : Result (list Instruction * Files) :=
  match data with
  | [] => Rejected NO_DATA_INFO
  | _ :: _ =>
      match selected selected_title data with
      | None => Skipped
      | Some (i, instruction) =>
          if negb (form_renders instruction) then Raised (data, files)
          else
            match button with
            | UpdateButton =>
                match update_instruction clock faults form instruction files with
                | Skipped => Skipped
                | Rejected m => Rejected m
                | Raised (instruction', files') =>
                    Raised (<[i := instruction']> data, files')
                | Done (instruction', files') =>
                    Done (<[i := instruction']> data, files')
                end
            | DeleteButton =>
                if confirm_delete
                then delete_instruction faults instruction data files
                else Rejected CONFIRM_WARNING
            end
      end
  end.

(** ** Persistence: [load_data] and [save_data] *)

(** The values [json.load] returns and [json.dump] takes. The program
    stores no float itself; one read from a file is held as its [repr]. *)
#[warnings="-register-all"]
Inductive json :=
  | JNull
  | JBool (b : bool)
  | JInt (n : Z)
  | JFloat (repr : string)
  | JStr (s : string)
  | JArr (items : list json)
  | JObj (members : list (string * json)).

Definition history_entry_to_json (e : HistoryEntry) : json :=
  JObj [("timestamp", JStr (timestamp e));
        ("change_type", JStr (change_type e));
        ("details", JStr (details e));
        ("user", JStr (user e))].

Definition file_version_to_json (v : FileVersion) : json :=
  JObj [("version", JInt (Z.of_nat (version v)));
        ("filename", JStr (v_filename v));
        ("original_name", JStr (original_name v));
        ("timestamp", JStr (v_timestamp v))].

(** The instruction dict, keys in the order [add_instruction] sets them. *)
Definition instruction_to_json (i : Instruction) : json :=
  JObj [("id", JStr (id i));
        ("title", JStr (title i));
        ("department", JStr (department i));
        ("registration_date", JStr (registration_date i));
        ("last_update", JStr (last_update i));
        ("responsible", JStr (responsible i));
        ("email", JStr (email i));
        ("has_file", JBool (has_file i));
        ("filename", match filename i with Some f => JStr f | None => JNull end);
        ("history", JArr (map history_entry_to_json (history i)));
        ("file_versions", JArr (map file_version_to_json (file_versions i)))].

Definition collection_to_json (data : list Instruction) : json :=
  JArr (map instruction_to_json data).

Section Persistence.

(** The [json] module is not part of the program: its encoder, as
    [json.dump(v, f, ensure_ascii=False, indent=2)] writes [v] to a
    UTF-8 file, and its decoder, [None] standing for any exception that
    reading and parsing the file's text raises. *)
Variable json_dump : json -> string.
Variable json_load : string -> option json.

(** [DATA_FILE] is an [option string]: [None] when no such file exists.
    [load_data()] with the bare [except:] around the read. *)
Definition load_data (data_file : option string) : json :=
  match data_file with
  | Some text =>
      match json_load text with
      | Some v => v
      | None => JArr []
      end
  | None => JArr []
  end.

(** [save_data(data)]: what [DATA_FILE] holds afterwards. *)
Definition save_data (data : json) : option string :=
  Some (json_dump data).

(** What [DATA_FILE] holds after a handler run that found it as
    [data_file]: only a run that ends in [Done] has called
    [save_data]. *)
Definition data_file_after (r : Result (list Instruction * Files))
    (data_file : option string) : option string :=
  match r with
  | Done (data, _) => save_data (collection_to_json data)
  | _ => data_file
  end.

End Persistence.

(** ** Vocabulary of the specification *)

(** "Strictly earlier than now minus thresholdMonths*30 days", for an
    absent, empty or unparsable date: outdated. *)
Definition stale (now : Calendar.datetime) (last_update_date : option string)
    (months_threshold : Z) : Prop :=
  match last_update_date with
  | None => True
  | Some s =>
      s = "" \/
      match Calendar.strptime s with
      | None => True
      | Some update_date =>
          Calendar.instant update_date
          < Calendar.instant now - months_threshold * 30 * Calendar.USEC_PER_DAY
      end
  end.

(** [now - timedelta(days=n)] is a date Python can hold. *)
Definition representable (now : Calendar.datetime) (n : Z) : Prop :=
  1 <= Calendar.ordinal now - n <= Calendar.MAXORDINAL.

(** [hasFile == (currentFileRef != null)] *)
Definition file_flag_consistent (i : Instruction) : Prop :=
  has_file i = true <-> filename i <> None.

(** The version numbers of a record are 1, 2, ... in the order of the
    list. *)
Definition versions_contiguous (i : Instruction) : Prop :=
  map version (file_versions i) = seq 1 (length (file_versions i)).

(** What the caller holds once a handler run is over, whether it ran to
    its end or an exception cut it short. *)
Definition ends_in {S : Type} (r : Result S) (s : S) : Prop :=
  r = Done s \/ r = Raised s.

(** The collections and upload directories that runs of the add and
    edit pages lead to from an empty collection; a run that an exception
    cut short counts with what it had built by then. *)
Inductive reachable : list Instruction * Files -> Prop :=
  | reach_empty files : reachable ([], files)
  | reach_add uuid clock faults form data files s' :
      reachable (data, files) ->
      ends_in (add_instruction uuid clock faults form data files) s' ->
      reachable s'
  | reach_edit clock faults selected_title button confirm_delete form
      data files s' :
      reachable (data, files) ->
      ends_in (edit_instruction clock faults selected_title button
                 confirm_delete form data files) s' ->
      reachable s'.

(** The editable fields of a record. *)
Inductive Field :=
  FTitle | FDepartment | FRegistrationDate | FLastUpdate | FResponsible | FEmail.

#[global] Instance Field_eq_dec : EqDecision Field.
Proof. solve_decision. Defined.

Definition stored (f : Field) (i : Instruction) : string :=
  match f with
  | FTitle => title i
  | FDepartment => department i
  | FRegistrationDate => registration_date i
  | FLastUpdate => last_update i
  | FResponsible => responsible i
  | FEmail => email i
  end.

Definition submitted (f : Field) (form : Form) : string :=
  match f with
  | FTitle => form_title form
  | FDepartment => form_department form
  | FRegistrationDate => strftime_ymd (form_registration_date form)
  | FLastUpdate => strftime_ymd (form_last_update form)
  | FResponsible => form_responsible form
  | FEmail => form_email form
  end.

(** How the [changes] list names a field. *)
Definition label (f : Field) : string :=
  match f with
  | FTitle => "Название"
  | FDepartment => "Подразделение"
  | FRegistrationDate => "Дата регистрации"
  | FLastUpdate => "Дата актуализации"
  | FResponsible => "Ответственный"
  | FEmail => "Email"
  end.

(** The required fields left empty. The two dates come from date
    widgets, which always hold a date. *)
Definition missing_fields (form : Form) : list Field :=
  filter (fun f => submitted f form = "")
    [FTitle; FDepartment; FResponsible; FEmail].

(** What a run leaves in the caller's hands; a run that touched nothing
    leaves nothing new. *)
Definition final_state (r : Result (list Instruction * Files))
    : list Instruction * Files :=
  match r with
  | Done s | Raised s => s
  | _ => ([], ∅)
  end.

(** The entries of kind 'Редактирование' among [entries]. *)
Definition edit_entries (entries : list HistoryEntry) : list HistoryEntry :=
  filter (fun e => change_type e = EDIT) entries.

(** The entries of kind 'Файл' among [entries]. *)
Definition file_entries (entries : list HistoryEntry) : list HistoryEntry :=
  filter (fun e => change_type e = FILE) entries.

(** Successive file replacements on one record: the update branch run
    once per request, each with a complete form, with every storage call
    succeeding; it stops at the first run that does not complete. *)
Fixpoint replace_files (requests : list (Clock * Form))
    (instruction : Instruction) (files : Files)
    : Result (Instruction * Files) :=
  match requests with
  | [] => Done (instruction, files)
  | (clock, form) :: rest =>
      match update_instruction clock no_faults form instruction files with
      | Done (instruction', files') => replace_files rest instruction' files'
      | r => r
      end
  end.

(** The record has a current artifact: it names a file, and the file
    is in the upload directory. *)
Definition has_current_artifact (i : Instruction) (files : Files) : Prop :=
  exists f, filename i = Some f /\ Str.truthy f = true /\ is_Some (files !! f).

(** "The caller sees either full success or the exact pre-operation
    state": a run that an exception cut short left everything as it
    found it. *)
Definition atomic (before : list Instruction * Files)
    (r : Result (list Instruction * Files)) : Prop :=
  match r with
  | Raised s => s = before
  | _ => True
  end.

(** ** Dates as the widgets store them *)

(** The character of the decimal digit [n]. *)
Definition digit_char (n : Z) : ascii := ascii_of_nat (Z.to_nat (48 + n)).

(** [datetime.date(y, m, d).strftime("%Y-%m-%d")] for a year of four
    digits: the year, then month and day each padded to two digits.
    (Below year 1000 the padding of [%Y] is the C library's choice.) *)
Definition strftime_date (y m d : Z) : string :=
  string_of_list_ascii
    [digit_char (y / 1000); digit_char (y / 100 mod 10);
     digit_char (y / 10 mod 10); digit_char (y mod 10); "-"%char;
     digit_char (m / 10); digit_char (m mod 10); "-"%char;
     digit_char (d / 10); digit_char (d mod 10)].

(** What [st.date_input] returns when it holds the day [y]-[m]-[d]. *)
Definition date_input (y m d : Z) : date :=
  {| strftime_ymd := strftime_date y m d |}.

(** The day [y]-[m]-[d] exists and is one [strftime_date] renders with
    four year digits. *)
Definition calendar_day (y m d : Z) : Prop :=
  1000 <= y /\ is_Some (Calendar.make_date y m d).

(** Both date widgets of the form hold such a day. *)
Definition calendar_dates (form : Form) : Prop :=
  (exists y m d, calendar_day y m d
                 /\ form_registration_date form = date_input y m d)
  /\ (exists y m d, calendar_day y m d
                    /\ form_last_update form = date_input y m d).

(** ** Stored names and the record they belong to *)

(** The stored name [stored_name] carries the id [record_id]: it starts
    with [f"{record_id}_"], as the names built by [current_name] and
    [version_name] do. *)
Definition names_record (record_id stored_name : string) : bool :=
  String.prefix (record_id +:+ "_") stored_name.

(** The file a record points at is one stored under its own id. *)
Definition own_file (i : Instruction) : Prop :=
  forall f, filename i = Some f -> names_record (id i) f = true.

(** ** Passes over the collection that ask [is_outdated] *)

(** Every call of [is_outdated] reads [datetime.now()] anew.  For a pass
    over a list, [now k] is the reading of the call made for the element
    at position [k]. *)
Abbreviation Readings := (nat -> Calendar.datetime).

(** The elements of [data] paired with the answer of the call of
    [is_outdated(item.get('last_update'))] made for them, the first call
    reading [now k]. *)
Fixpoint judged_from (now : Readings) (k : nat) (data : list Instruction)
    : list (Instruction * bool) :=
  match data with
  | [] => []
  | item :: rest =>
      (item, is_outdated (now k) (Some (last_update item))
               DEFAULT_MONTHS_THRESHOLD)
      :: judged_from now (S k) rest
  end.

Definition judged (now : Readings) (data : list Instruction)
    : list (Instruction * bool) :=
  judged_from now 0 data.

(** ** Statistics page: the table by responsible person *)

(** A value of [responsible_stats]: the keys ['total'], ['outdated'] and
    ['without_file']. *)
Record Stats := { total : nat; outdated : nat; without_file : nat }.

Definition NO_STATS : Stats :=
  {| total := 0; outdated := 0; without_file := 0 |}.

(** [responsible_stats] is a dict, which keeps its keys in the order
    they were added: a list of rows.  [bump resp f stats] is the dict
    after [resp] is added with zero counts if it is not a key yet and the
    counts under [resp] are changed by [f]. *)
Fixpoint bump (resp : string) (f : Stats -> Stats)
    (stats : list (string * Stats)) : list (string * Stats) :=
  match stats with
  | [] => [(resp, f NO_STATS)]
  | (r, s) :: rest =>
      if decide (r = resp) then (r, f s) :: rest
      else (r, s) :: bump resp f rest
  end.

(** The three updates of the loop body for one record. *)
Definition count_item (item : Instruction) (is_out : bool) (s : Stats)
    : Stats :=
  {| total := S (total s);
     outdated := if is_out then S (outdated s) else outdated s;
     without_file :=
       if negb (has_file item) then S (without_file s) else without_file s |}.

(** The loop [for item in data:] that fills [responsible_stats], from
    the dict [stats] on; the call of [is_outdated] for the first record
    reads [now k]. *)
Fixpoint responsible_stats_from (now : Readings) (k : nat)
    (stats : list (string * Stats)) (data : list Instruction)
    : list (string * Stats) :=
  match data with
  | [] => stats
  | item :: rest =>
      let resp := responsible item in
      let is_out :=
        is_outdated (now k) (Some (last_update item))
          DEFAULT_MONTHS_THRESHOLD in
      responsible_stats_from now (S k) (bump resp (count_item item is_out) stats)
        rest
  end.

(** [responsible_stats] after the loop, which is also [resp_table] row
    by row. *)
Definition responsible_stats (now : Readings) (data : list Instruction)
    : list (string * Stats) :=
  responsible_stats_from now 0 [] data.

(** The counts under [resp] in the dict, zero when it is not a key. *)
Fixpoint stats_of (resp : string) (stats : list (string * Stats)) : Stats :=
  match stats with
  | [] => NO_STATS
  | (r, s) :: rest => if decide (r = resp) then s else stats_of resp rest
  end.

(** ** Statistics page: the latest changes *)

(** A row of [all_changes]: the keys ['Время'], ['Инструкция'], ['Тип']
    and ['Детали']. *)
Record Change := {
  change_time : string;
  change_instruction : string;
  change_kind : string;
  change_details : string
}.

(** The rows of [all_changes]: every history entry of every record,
    record by record. *)
Definition all_changes (data : list Instruction) : list Change :=
  flat_map
    (fun item =>
       map (fun entry =>
              {| change_time := timestamp entry;
                 change_instruction := title item;
                 change_kind := change_type entry;
                 change_details := details entry |})
         (history item))
    data.

(** Where [sorted(..., key=lambda x: x['Время'], reverse=True)] puts a
    row: before the first row whose time is not later than its own. *)
Fixpoint insert_desc (x : Change) (l : list Change) : list Change :=
  match l with
  | [] => [x]
  | y :: rest =>
      if String.leb (change_time y) (change_time x) then x :: y :: rest
      else y :: insert_desc x rest
  end.

(** [sorted(l, key=lambda x: x['Время'], reverse=True)]: latest first,
    rows of equal time in the order they have in [l].  [str] is compared
    character by character, which on the UTF-8 bytes is byte by byte. *)
Definition sorted_desc (l : list Change) : list Change :=
  foldr insert_desc [] l.

(** [all_changes_sorted]: the first 20 rows of the sorted list. *)
Definition all_changes_sorted (data : list Instruction) : list Change :=
  take 20 (sorted_desc (all_changes data)).

(** Row [a] is not older than row [b]. *)
Definition not_older (a b : Change) : Prop :=
  String.leb (change_time b) (change_time a) = true.

(** ** Overview page: filters and table *)

(** The option of the selectboxes that stands for "no filter". *)
Definition ALL : string := "Все".

(** [needle in hay] on [str]. *)
Fixpoint contains (needle hay : string) : bool :=
  String.prefix needle hay
  || match hay with
     | EmptyString => false
     | String _ rest => contains needle rest
     end.

(** The options of the status selectbox: "Все", "Требует актуализации"
    and "Актуальные". *)
Inductive StatusFilter := AnyStatus | NeedsUpdate | UpToDate.

Definition OUTDATED_STATUS : string := "🔴 Требует актуализации".
Definition CURRENT_STATUS : string := "🟢 Актуальная".
Definition FILE_PRESENT : string := "✅ Есть".
Definition FILE_ABSENT : string := "❌ Нет".

(** A row of [table_data], column by column. *)
Record TableRow := {
  row_title : string;
  row_department : string;
  row_registration_date : string;
  row_last_update : string;
  row_responsible : string;
  row_email : string;
  row_file : string;
  row_status : string
}.

Section Overview.

(** [str.lower] *)
Variable lower : string -> string.

(** [filtered_data] after the four filters.  The status filter asks
    [is_outdated] once for each record the other filters have kept, with
    the readings [now]. *)
Definition filtered_data (now : Readings)
    (search_term department_filter responsible_filter : string)
    (status_filter : StatusFilter) (data : list Instruction)
    : list Instruction :=
  let filtered_data := data in
  let filtered_data :=
    if Str.truthy search_term
    then filter (fun item =>
                   contains (lower search_term) (lower (title item)) = true)
           filtered_data
    else filtered_data in
  let filtered_data :=
    if bool_decide (department_filter <> ALL)
    then filter (fun item => department item = department_filter)
           filtered_data
    else filtered_data in
  let filtered_data :=
    if bool_decide (responsible_filter <> ALL)
    then filter (fun item => responsible item = responsible_filter)
           filtered_data
    else filtered_data in
  match status_filter with
  | AnyStatus => filtered_data
  | NeedsUpdate => (filter (fun p => p.2 = true) (judged now filtered_data)).*1
  | UpToDate => (filter (fun p => p.2 = false) (judged now filtered_data)).*1
  end.

(** What the three text filters ask of a record. *)
Definition matches (search_term department_filter responsible_filter : string)
    (item : Instruction) : Prop :=
  (search_term = ""
   \/ Str.occurs_in (lower search_term) (lower (title item)))
  /\ (department_filter = ALL \/ department item = department_filter)
  /\ (responsible_filter = ALL \/ responsible item = responsible_filter).

End Overview.

(** [table_data]: one row for each record of [filtered_data], the
    status column from a call of [is_outdated] of its own, with the
    readings [now]. *)
Definition table_data (now : Readings) (filtered_data : list Instruction)
    : list TableRow :=
  map (fun p : Instruction * bool =>
         {| row_title := title p.1;
            row_department := department p.1;
            row_registration_date := registration_date p.1;
            row_last_update := last_update p.1;
            row_responsible := responsible p.1;
            row_email := email p.1;
            row_file := if has_file p.1 then FILE_PRESENT else FILE_ABSENT;
            row_status := if p.2 then OUTDATED_STATUS else CURRENT_STATUS |})
    (judged now filtered_data).

(** All the readings [now] are taken between [t0] and [t1], a stretch
    of time that starts after the first 360 days of year 1. *)
Definition within (t0 t1 : Calendar.datetime) (now : Readings) : Prop :=
  Calendar.valid t0 /\ Calendar.valid t1 /\ 360 < Calendar.ordinal t0
  /\ forall k, Calendar.valid (now k)
               /\ Calendar.instant t0 <= Calendar.instant (now k)
                  <= Calendar.instant t1.

(** ** Reminders page: sending to all *)

(** What [send_email] hands to the SMTP server. *)
Record Mail := {
  mail_from : string;
  mail_to : string;
  mail_subject : string;
  mail_body : string
}.

Definition newline : string := String (ascii_of_nat 10) "".

(** The reminder that a record needs an update. *)
Definition update_reminder (yandex_email : string) (item : Instruction)
    : Mail :=
  {| mail_from := yandex_email;
     mail_to := email item;
     mail_subject :=
       "Напоминание об актуализации должностной инструкции: " +:+ title item;
     mail_body :=
       "Уважаемый " +:+ responsible item +:+ "!" +:+ newline
       +:+ newline
       +:+ "Напоминаем, что должностная инструкция " +:+ dquote
       +:+ title item +:+ dquote +:+ " требует актуализации." +:+ newline
       +:+ newline
       +:+ "Дата последней актуализации: " +:+ last_update item +:+ newline
       +:+ "Дата регистрации: " +:+ registration_date item +:+ newline
       +:+ newline
       +:+ "Просьба обновить инструкцию в ближайшее время." +:+ newline
       +:+ newline
       +:+ "С уважением," +:+ newline
       +:+ "Система управления должностными инструкциями" |}.

(** The reminder that a record has no file. *)
Definition file_reminder (yandex_email : string) (item : Instruction)
    : Mail :=
  {| mail_from := yandex_email;
     mail_to := email item;
     mail_subject :=
       "Необходимо загрузить файл должностной инструкции: " +:+ title item;
     mail_body :=
       "Уважаемый " +:+ responsible item +:+ "!" +:+ newline
       +:+ newline
       +:+ "Для должностной инструкции " +:+ dquote +:+ title item
       +:+ dquote +:+ " не загружен файл." +:+ newline
       +:+ newline
       +:+ "Дата регистрации: " +:+ registration_date item +:+ newline
       +:+ newline
       +:+ "Просьба загрузить файл инструкции в систему." +:+ newline
       +:+ newline
       +:+ "С уважением," +:+ newline
       +:+ "Система управления должностными инструкциями" |}.

(** The calls of [send_email] of one loop, each mail with what the call
    returned: [smtp k] says whether the SMTP session of the call at
    position [k] went through ([send_email] catches every exception of
    the session and returns [False]). *)
Fixpoint send_each (smtp : nat -> bool) (k : nat) (mails : list Mail)
    : list (Mail * bool) :=
  match mails with
  | [] => []
  | m :: rest => (m, smtp k) :: send_each smtp (S k) rest
  end.

Definition NO_CREDENTIALS : string := "❌ Заполните email и пароль".

(** How a run of [send_reminders] with a "send to all" button ends. *)
Inductive Sent :=
  | NoButton       (* the page does not draw the button: its list is empty *)
  | KeyClash       (* [DuplicateWidgetID]: two of the per-record buttons
                      drawn above have the same key *)
  | NoCredentials  (* [st.error(NO_CREDENTIALS)] *)
  | SentAll (calls : list (Mail * bool)) (notice : string).
                   (* the loop ran; [st.success(notice)] *)

(** The body of a "send to all" button, for the list [recipients]. *)
Definition send_to_all (smtp : nat -> bool)
    (yandex_email yandex_password : string)
    (reminder : string -> Instruction -> Mail)
    (recipients : list Instruction) : Sent :=
  if Str.truthy yandex_email && Str.truthy yandex_password then
    let calls := send_each smtp 0 (map (reminder yandex_email) recipients) in
    let success_count := length (filter (fun c => c.2 = true) calls) in
    SentAll calls
      ("✅ Отправлено " +:+ Str.of_nat success_count +:+ " из "
       +:+ Str.of_nat (length recipients) +:+ " напоминаний")
  else NoCredentials.

(** [outdated_instructions] and [instructions_without_files]. *)
Definition outdated_instructions (now : Readings) (data : list Instruction)
    : list Instruction :=
  (filter (fun p => p.2 = true) (judged now data)).*1.

Definition instructions_without_files (data : list Instruction)
    : list Instruction :=
  filter (fun item => has_file item = false) data.

(** The two "send to all" buttons of [send_reminders]. *)
Inductive BulkButton := AllUpdateReminders | AllFileReminders.

(** [send_reminders(data)] in a run where [button] was pressed.  Before
    the "send to all" buttons the page draws one button for each record
    of either list, keyed [f"send_update_{id}"] and [f"send_file_{id}"];
    Streamlit refuses a key used twice. *)
Definition send_reminders (now : Readings) (smtp : nat -> bool)
    (yandex_email yandex_password : string) (button : BulkButton)
    (data : list Instruction) : Sent :=
  let outdated_instructions := outdated_instructions now data in
  let instructions_without_files := instructions_without_files data in
  if bool_decide (NoDup (map id outdated_instructions)
                  /\ NoDup (map id instructions_without_files))
  then
    match button with
    | AllUpdateReminders =>
        match outdated_instructions with
        | [] => NoButton
        | _ :: _ =>
            send_to_all smtp yandex_email yandex_password update_reminder
              outdated_instructions
        end
    | AllFileReminders =>
        match instructions_without_files with
        | [] => NoButton
        | _ :: _ =>
            send_to_all smtp yandex_email yandex_password file_reminder
              instructions_without_files
        end
    end
  else KeyClash.

(** The calls of [send_email] made in the run. *)
Definition calls_of (run : Sent) : list (Mail * bool) :=
  match run with
  | SentAll calls _ => calls
  | _ => []
  end.

(** The record's history begins with the entry written at its creation. *)
Definition starts_with_creation (i : Instruction) : Prop :=
  exists entry later,
    history i = entry :: later
    /\ change_type entry = CREATE /\ user entry = DEFAULT_USER.

(** ** The [json] module, as far as the data file needs it *)

(** [json.dump(data, f, ensure_ascii=False, indent=2)] and
    [json.load(f)] on a file opened with [encoding='utf-8'], after
    CPython's [json.encoder], [json.decoder] and [json.scanner].

    - A [str] is held as its UTF-8 bytes; a lone surrogate, which only
      an escape of a JSON text can bring in and which UTF-8 has no bytes
      for, is held as the three bytes its code point would take.
    - A float read from a file is held as the text [json.dump] writes
      for it, [float_repr literal]: how Python rounds and prints floats
      is not modelled, and no property below depends on it.
    - The interpreter's limits are not modelled: integers and the
      nesting of lists and dicts are not bounded, where CPython bounds
      the digits of an [int] it reads or writes and the depth of its
      recursion.  What the program writes is four levels deep.
    - Newlines are written as they are (as on POSIX systems), and read
      as they are: the text layer turns [\r] and [\r\n] into [\n] on
      reading, but all three are whitespace between tokens and all
      three are refused inside a string. *)
Module Json.

Definition quote : ascii := ascii_of_nat 34.
Definition backslash : ascii := ascii_of_nat 92.
Definition code (c : ascii) : N := N_of_ascii c.

(** *** Text files: the UTF-8 codec *)

(** Where the decoder stands inside a code point: at its start, before
    its last 1, 2 or 3 bytes, or before the second byte of a sequence
    whose range that byte restricts. *)
Inductive Utf8 := U0 | U1 | U2 | U3 | UE0 | UED | UF0 | UF4 | UBad.

Definition between (lo hi : N) (c : ascii) : bool :=
  ((lo <=? code c) && (code c <=? hi))%N.

Definition utf8_step (q : Utf8) (c : ascii) : Utf8 :=
  match q with
  | U0 =>
      if between 0 127 c then U0
      else if between 194 223 c then U1
      else if between 224 224 c then UE0
      else if between 225 236 c || between 238 239 c then U2
      else if between 237 237 c then UED
      else if between 240 240 c then UF0
      else if between 241 243 c then U3
      else if between 244 244 c then UF4
      else UBad
  | U1 => if between 128 191 c then U0 else UBad
  | U2 => if between 128 191 c then U1 else UBad
  | U3 => if between 128 191 c then U2 else UBad
  | UE0 => if between 160 191 c then U1 else UBad
  | UED => if between 128 159 c then U1 else UBad
  | UF0 => if between 144 191 c then U2 else UBad
  | UF4 => if between 128 143 c then U2 else UBad
  | UBad => UBad
  end.

Fixpoint utf8_run (q : Utf8) (s : string) : Utf8 :=
  match s with
  | EmptyString => q
  | String c rest => utf8_run (utf8_step q c) rest
  end.

(** The bytes are well-formed UTF-8: they decode as a [str], and they
    are what a [str] without surrogates encodes to. *)
Definition utf8 (s : string) : bool :=
  match utf8_run U0 s with
  | U0 => true
  | _ => false
  end.

(** The UTF-8 bytes of a code point, a surrogate included. *)
Definition utf8_encode (cp : N) : string :=
  (if cp <? 128 then String (ascii_of_N cp) ""
   else if cp <? 2048 then
     String (ascii_of_N (192 + cp / 64))
       (String (ascii_of_N (128 + cp mod 64)) "")
   else if cp <? 65536 then
     String (ascii_of_N (224 + cp / 4096))
       (String (ascii_of_N (128 + (cp / 64) mod 64))
          (String (ascii_of_N (128 + cp mod 64)) ""))
   else
     String (ascii_of_N (240 + cp / 262144))
       (String (ascii_of_N (128 + (cp / 4096) mod 64))
          (String (ascii_of_N (128 + (cp / 64) mod 64))
             (String (ascii_of_N (128 + cp mod 64)) ""))))%N.

(** *** The encoder *)

Definition hex_digit (n : N) : ascii :=
  (if n <? 10 then ascii_of_N (48 + n) else ascii_of_N (87 + n))%N.

(** [ESCAPE_DCT]: what [encode_basestring] puts for a character that
    [ESCAPE] matches, and the character itself otherwise. *)
Definition escape_char (c : ascii) : string :=
  if Ascii.eqb c quote then String backslash (String quote "")
  else if Ascii.eqb c backslash then String backslash (String backslash "")
  else if Ascii.eqb c (ascii_of_nat 8) then "\b"
  else if Ascii.eqb c (ascii_of_nat 12) then "\f"
  else if Ascii.eqb c (ascii_of_nat 10) then "\n"
  else if Ascii.eqb c (ascii_of_nat 13) then "\r"
  else if Ascii.eqb c (ascii_of_nat 9) then "\t"
  else if (code c <? 32)%N then
    "\u00" +:+ String (hex_digit (code c / 16))
                 (String (hex_digit (code c mod 16)) "")
  else String c "".

Fixpoint escape (s : string) : string :=
  match s with
  | EmptyString => ""
  | String c rest => escape_char c +:+ escape rest
  end.

(** [encode_basestring(s)] *)
Definition encode_basestring (s : string) : string :=
  String quote (escape s +:+ String quote "").

(** [int.__repr__] *)
Definition digits (n : N) : string := NilEmpty.string_of_uint (N.to_uint n).

Definition intstr (n : Z) : string :=
  if n <? 0 then String "-" (digits (Z.abs_N n)) else digits (Z.abs_N n).

Fixpoint spaces (n : nat) : string :=
  match n with
  | O => ""
  | S n' => String " " (spaces n')
  end.

(** ['\n' + _indent * _current_indent_level] with [indent=2]. *)
Definition newline_indent (level : nat) : string :=
  String (ascii_of_nat 10) (spaces (2 * level)).

(** The text of a value that is neither a list nor a dict. *)
Definition atom (v : json) : option string :=
  match v with
  | JNull => Some "null"
  | JBool true => Some "true"
  | JBool false => Some "false"
  | JInt n => Some (intstr n)
  | JFloat repr => Some repr
  | JStr s => Some (encode_basestring s)
  | JArr _ | JObj _ => None
  end.

(** [_iterencode(o, _current_indent_level)]: the chunks the encoder
    yields, in order.  In a list, the bracket or the separator comes in
    one chunk with an item that is not a list or dict; in a dict, every
    piece is a chunk of its own. *)
Fixpoint iterencode (v : json) (level : nat) : list string :=
  match v with
  | JArr [] => ["[]"]
  | JArr (first :: others) =>
      (match atom first with
       | Some text => [("[" +:+ newline_indent (S level)) +:+ text]
       | None =>
           ("[" +:+ newline_indent (S level)) :: iterencode first (S level)
       end)
      ++ flat_map
           (fun value =>
              match atom value with
              | Some text => [("," +:+ newline_indent (S level)) +:+ text]
              | None =>
                  ("," +:+ newline_indent (S level))
                  :: iterencode value (S level)
              end)
           others
      ++ [newline_indent level; "]"]
  | JObj [] => ["{}"]
  | JObj ((key, first) :: others) =>
      ["{"; newline_indent (S level); encode_basestring key; ": "]
      ++ (match atom first with
          | Some text => [text]
          | None => iterencode first (S level)
          end)
      ++ flat_map
           (fun member : string * json =>
              ["," +:+ newline_indent (S level);
               encode_basestring member.1; ": "]
              ++ match atom member.2 with
                 | Some text => [text]
                 | None => iterencode member.2 (S level)
                 end)
           others
      ++ [newline_indent level; "}"]
  | JNull => ["null"]
  | JBool true => ["true"]
  | JBool false => ["false"]
  | JInt n => [intstr n]
  | JFloat repr => [repr]
  | JStr s => [encode_basestring s]
  end.

Fixpoint join_chunks (chunks : list string) : string :=
  match chunks with
  | [] => ""
  | chunk :: rest => chunk +:+ join_chunks rest
  end.

(** The text the chunks of [v] make up. *)
Definition encode (v : json) (level : nat) : string :=
  join_chunks (iterencode v level).

(** [json.dumps(v, ensure_ascii=False, indent=2)] *)
Definition dumps (v : json) : string := encode v 0.

(** The text of the items of a list after the first, and of the members
    of a dict after the first. *)
Fixpoint encode_items (level : nat) (items : list json) : string :=
  match items with
  | [] => ""
  | value :: rest =>
      ("," +:+ newline_indent level) +:+ encode value level
      +:+ encode_items level rest
  end.

Fixpoint encode_members (level : nat) (members : list (string * json))
    : string :=
  match members with
  | [] => ""
  | member :: rest =>
      ("," +:+ newline_indent level) +:+ encode_basestring member.1
      +:+ ": " +:+ encode member.2 level +:+ encode_members level rest
  end.

(** What follows a value in the text the encoder writes: nothing, a
    comma or a newline. *)
Definition value_end (rest : string) : bool :=
  match rest with
  | EmptyString => true
  | String c _ => Ascii.eqb c "," || Ascii.eqb c (ascii_of_nat 10)
  end.

(** *** The decoder *)

Definition is_whitespace (c : ascii) : bool :=
  Ascii.eqb c " " || Ascii.eqb c (ascii_of_nat 9)
  || Ascii.eqb c (ascii_of_nat 10) || Ascii.eqb c (ascii_of_nat 13).

Fixpoint skip_whitespace (s : string) : string :=
  match s with
  | EmptyString => ""
  | String c rest => if is_whitespace c then skip_whitespace rest else s
  end.

Definition hex_value (c : ascii) : option N :=
  (if between 48 57 c then Some (code c - 48)
   else if between 97 102 c then Some (code c - 87)
   else if between 65 70 c then Some (code c - 55)
   else None)%N.

Definition hex4 (a b c d : ascii) : option N :=
  x ← hex_value a; y ← hex_value b; z ← hex_value c; w ← hex_value d;
  Some (((x * 16 + y) * 16 + z) * 16 + w)%N.

(** [BACKSLASH]: the one-character escapes. *)
Definition unescape (c : ascii) : option ascii :=
  if Ascii.eqb c quote then Some quote
  else if Ascii.eqb c backslash then Some backslash
  else if Ascii.eqb c "/" then Some "/"%char
  else if Ascii.eqb c "b" then Some (ascii_of_nat 8)
  else if Ascii.eqb c "f" then Some (ascii_of_nat 12)
  else if Ascii.eqb c "n" then Some (ascii_of_nat 10)
  else if Ascii.eqb c "r" then Some (ascii_of_nat 13)
  else if Ascii.eqb c "t" then Some (ascii_of_nat 9)
  else None.

Definition is_high_surrogate (cp : N) : bool := ((55296 <=? cp) && (cp <=? 56319))%N.
Definition is_low_surrogate (cp : N) : bool := ((56320 <=? cp) && (cp <=? 57343))%N.
Definition join_surrogates (high low : N) : N :=
  (65536 + ((high - 55296) * 1024 + (low - 56320)))%N.

(** [scanstring(s, end, strict=True)] from just after the opening quote:
    the string's content and what follows the closing quote.  A high
    surrogate escape joins with a low surrogate escape right after it
    when at least one character follows the two. *)
Fixpoint scanstring (s : string) : option (string * string) :=
  match s with
  | EmptyString => None
  | String c rest =>
      if Ascii.eqb c quote then Some ("", rest)
      else if Ascii.eqb c backslash then
        match rest with
        | EmptyString => None
        | String esc rest1 =>
            if Ascii.eqb esc "u" then
              match rest1 with
              | String h1 (String h2 (String h3 (String h4 rest2))) =>
                  match hex4 h1 h2 h3 h4 with
                  | None => None
                  | Some cp =>
                      let alone :=
                        match scanstring rest2 with
                        | Some (text, after) =>
                            Some (utf8_encode cp +:+ text, after)
                        | None => None
                        end in
                      if is_high_surrogate cp then
                        match rest2 with
                        | String b (String u (String l1 (String l2
                            (String l3 (String l4
                               ((String _ _) as rest3)))))) =>
                            if Ascii.eqb b backslash && Ascii.eqb u "u" then
                              match hex4 l1 l2 l3 l4 with
                              | None => None
                              | Some cp2 =>
                                  if is_low_surrogate cp2 then
                                    match scanstring rest3 with
                                    | Some (text, after) =>
                                        Some (utf8_encode
                                                (join_surrogates cp cp2)
                                              +:+ text, after)
                                    | None => None
                                    end
                                  else alone
                              end
                            else alone
                        | _ => alone
                        end
                      else alone
                  end
              | _ => None
              end
            else
              match unescape esc with
              | None => None
              | Some ch =>
                  match scanstring rest1 with
                  | Some (text, after) => Some (String ch text, after)
                  | None => None
                  end
              end
        end
      else if (code c <? 32)%N then None
      else
        match scanstring rest with
        | Some (text, after) => Some (String c text, after)
        | None => None
        end
  end.

Definition is_digit (c : ascii) : bool := between 48 57 c.

Definition push_digit (c : ascii) (u : Decimal.uint) : Decimal.uint :=
  match (code c - 48)%N with
  | 0%N => Decimal.D0 u | 1%N => Decimal.D1 u | 2%N => Decimal.D2 u
  | 3%N => Decimal.D3 u | 4%N => Decimal.D4 u | 5%N => Decimal.D5 u
  | 6%N => Decimal.D6 u | 7%N => Decimal.D7 u | 8%N => Decimal.D8 u
  | _ => Decimal.D9 u
  end.

(** The digits at the head of [s], and what follows them. *)
Fixpoint scan_digits (s : string) : Decimal.uint * string :=
  match s with
  | EmptyString => (Decimal.Nil, "")
  | String c rest =>
      if is_digit c then
        let '(u, after) := scan_digits rest in (push_digit c u, after)
      else (Decimal.Nil, s)
  end.

(** The parts of [_match_number]: a sign; an integer part, [0] or a
    run of digits that starts with a digit other than 0; a fraction and
    an exponent, each taken only if complete. *)
Definition sign_part (s : string) : string * string :=
  match s with
  | String c rest => if Ascii.eqb c "-" then ("-", rest) else ("", s)
  | EmptyString => ("", s)
  end.

Definition integer_part (s : string) : option (Decimal.uint * string) :=
  match s with
  | EmptyString => None
  | String c rest =>
      if Ascii.eqb c "0" then Some (Decimal.D0 Decimal.Nil, rest)
      else if is_digit c then Some (scan_digits s)
      else None
  end.

Definition fraction_part (s : string) : string * string :=
  match s with
  | String dot (String d after) =>
      if Ascii.eqb dot "." && is_digit d then
        let '(f, after') := scan_digits (String d after) in
        ("." +:+ NilEmpty.string_of_uint f, after')
      else ("", s)
  | _ => ("", s)
  end.

Definition exponent_part (s : string) : string * string :=
  match s with
  | String e after =>
      if Ascii.eqb e "e" || Ascii.eqb e "E" then
        let '(esign, after1) :=
          match after with
          | String sg after1 =>
              if Ascii.eqb sg "+" || Ascii.eqb sg "-"
              then (String sg "", after1) else ("", after)
          | EmptyString => ("", after)
          end in
        match scan_digits after1 with
        | (Decimal.Nil, _) => ("", s)
        | (x, after2) =>
            (String e (esign +:+ NilEmpty.string_of_uint x), after2)
        end
      else ("", s)
  | EmptyString => ("", s)
  end.

Section Decoder.

(** [float_repr literal]: the text [json.dump] writes for
    [float(literal)]. *)
Variable float_repr : string -> string.

(** [_match_number]: with a fraction or an exponent the number is a
    float, otherwise an [int]. *)
Definition match_number (s : string) : option (json * string) :=
  let '(sign, s1) := sign_part s in
  match integer_part s1 with
  | None => None
  | Some (u, after) =>
      let '(frac, after1) := fraction_part after in
      let '(exp, after2) := exponent_part after1 in
      if Str.truthy frac || Str.truthy exp then
        Some (JFloat (float_repr
                        (sign +:+ NilEmpty.string_of_uint u +:+ frac +:+ exp)),
              after2)
      else
        Some (JInt (if Str.truthy sign then - Z.of_N (N.of_uint u)
                    else Z.of_N (N.of_uint u)),
              after2)
  end.

(** [s] without its first [n] characters. *)
Fixpoint skip (n : nat) (s : string) : string :=
  match n, s with
  | S n', String _ rest => skip n' rest
  | _, _ => s
  end.

(** [dct[key] = value]: a key already there keeps its place. *)
Fixpoint dict_set (key : string) (value : json)
    (members : list (string * json)) : list (string * json) :=
  match members with
  | [] => [(key, value)]
  | (k, v) :: rest =>
      if String.eqb k key then (k, value) :: rest
      else (k, v) :: dict_set key value rest
  end.

(** [scan_once(s, idx)], with [JSONArray] from the first item on and
    [JSONObject] from the first key on; [fuel] bounds the calls in
    progress, which the length of the text always covers. *)
Fixpoint scan_once (fuel : nat) (s : string) : option (json * string) :=
  match fuel with
  | O => None
  | S fuel' =>
      match s with
      | EmptyString => None
      | String c rest =>
          if Ascii.eqb c quote then
            match scanstring rest with
            | Some (text, after) => Some (JStr text, after)
            | None => None
            end
          else if Ascii.eqb c "{" then
            match skip_whitespace rest with
            | String d after =>
                if Ascii.eqb d "}" then Some (JObj [], after)
                else
                  match parse_members fuel' [] (String d after) with
                  | Some (members, after') => Some (JObj members, after')
                  | None => None
                  end
            | EmptyString => None
            end
          else if Ascii.eqb c "[" then
            match skip_whitespace rest with
            | String d after =>
                if Ascii.eqb d "]" then Some (JArr [], after)
                else
                  match parse_items fuel' (String d after) with
                  | Some (items, after') => Some (JArr items, after')
                  | None => None
                  end
            | EmptyString => None
            end
          else if String.prefix "null" s then Some (JNull, skip 4 s)
          else if String.prefix "true" s then Some (JBool true, skip 4 s)
          else if String.prefix "false" s then Some (JBool false, skip 5 s)
          else if String.prefix "NaN" s then Some (JFloat "NaN", skip 3 s)
          else if String.prefix "Infinity" s
          then Some (JFloat "Infinity", skip 8 s)
          else if String.prefix "-Infinity" s
          then Some (JFloat "-Infinity", skip 9 s)
          else match_number s
      end
  end
with parse_items (fuel : nat) (s : string) : option (list json * string) :=
  match fuel with
  | O => None
  | S fuel' =>
      match scan_once fuel' s with
      | None => None
      | Some (value, after) =>
          match skip_whitespace after with
          | String d after1 =>
              if Ascii.eqb d "]" then Some ([value], after1)
              else if Ascii.eqb d "," then
                match parse_items fuel' (skip_whitespace after1) with
                | Some (items, after2) => Some (value :: items, after2)
                | None => None
                end
              else None
          | EmptyString => None
          end
      end
  end
with parse_members (fuel : nat) (members : list (string * json)) (s : string)
    : option (list (string * json) * string) :=
  match fuel with
  | O => None
  | S fuel' =>
      match s with
      | EmptyString => None
      | String c rest =>
          if Ascii.eqb c quote then
            match scanstring rest with
            | None => None
            | Some (key, after) =>
                match skip_whitespace after with
                | String colon after1 =>
                    if Ascii.eqb colon ":" then
                      match scan_once fuel' (skip_whitespace after1) with
                      | None => None
                      | Some (value, after2) =>
                          let members := dict_set key value members in
                          match skip_whitespace after2 with
                          | String d after3 =>
                              if Ascii.eqb d "}" then Some (members, after3)
                              else if Ascii.eqb d "," then
                                parse_members fuel' members
                                  (skip_whitespace after3)
                              else None
                          | EmptyString => None
                          end
                      end
                    else None
                | EmptyString => None
                end
            end
          else None
      end
  end.

(** [json.loads(s)]: one value, with nothing but whitespace around it. *)
Definition loads (s : string) : option json :=
  match scan_once (S (String.length s)) (skip_whitespace s) with
  | Some (v, after) =>
      match skip_whitespace after with
      | EmptyString => Some v
      | String _ _ => None
      end
  | None => None
  end.

(** [json.load(f)], [f] opened with [encoding='utf-8'] on a file that
    holds the bytes [text]: [None] is any exception of reading, decoding
    or parsing. *)
Definition load (text : string) : option json :=
  if utf8 text then loads text else None.

End Decoder.

End Json.

(** ** The data file on disk *)

Module DataFile.

(** What a run of [save_data] leaves: the bytes of [DATA_FILE] and
    whether the run raised. *)
Record Saved := { file_text : string; save_raised : bool }.

(** [f.write(chunk)] for each chunk in turn, on a file opened with
    [encoding='utf-8']: a chunk with a surrogate cannot be encoded, the
    write raises [UnicodeEncodeError], and closing the file leaves it
    with the chunks written before. *)
Fixpoint write_chunks (written : string) (chunks : list string) : Saved :=
  match chunks with
  | [] => {| file_text := written; save_raised := false |}
  | chunk :: rest =>
      if Json.utf8 chunk then write_chunks (written +:+ chunk) rest
      else {| file_text := written; save_raised := true |}
  end.

(** [save_data(data)]: [open(DATA_FILE, 'w')] empties the file, then
    [json.dump] writes its chunks. *)
Definition save_data (data : json) : Saved :=
  write_chunks "" (Json.iterencode data 0).

Section Resave.

Variable float_repr : string -> string.

(** [load_data()] with the [json] module above. *)
Definition load_data (data_file : option string) : json :=
  load_data (Json.load float_repr) data_file.

(** [save_data(load_data())] on a data file found as [data_file]. *)
Definition resave (data_file : option string) : Saved :=
  save_data (load_data data_file).

End Resave.

End DataFile.

(** ** What [save_data] can write and [load_data] reads back *)

(** The fuel a value asks of [Json.scan_once]: one call for the value,
    and for each item of a list or member of a dict one more. *)
Fixpoint weight (v : json) : nat :=
  match v with
  | JArr items =>
      S ((fix sum (l : list json) : nat :=
            match l with
            | [] => O
            | x :: rest => (S (weight x) + sum rest)%nat
            end) items)
  | JObj members =>
      S ((fix sum (l : list (string * json)) : nat :=
            match l with
            | [] => O
            | m :: rest => (S (weight m.2) + sum rest)%nat
            end) members)
  | _ => 1%nat
  end.

(** A value with no float in it, whose strings and keys are well-formed
    UTF-8 (no lone surrogate) and whose dicts repeat no key. *)
Fixpoint plain (v : json) : bool :=
  match v with
  | JFloat _ => false
  | JStr s => Json.utf8 s
  | JArr items =>
      (fix all (l : list json) : bool :=
         match l with
         | [] => true
         | x :: rest => plain x && all rest
         end) items
  | JObj members =>
      bool_decide (NoDup members.*1)
      && (fix all (l : list (string * json)) : bool :=
            match l with
            | [] => true
            | m :: rest => Json.utf8 m.1 && plain m.2 && all rest
            end) members
  | _ => true
  end.

(** Every text value of the record is well-formed UTF-8. *)
Definition encodable (i : Instruction) : bool :=
  Json.utf8 (id i) && Json.utf8 (title i) && Json.utf8 (department i)
  && Json.utf8 (registration_date i) && Json.utf8 (last_update i)
  && Json.utf8 (responsible i) && Json.utf8 (email i)
  && match filename i with Some f => Json.utf8 f | None => true end
  && forallb (fun e => Json.utf8 (timestamp e) && Json.utf8 (change_type e)
                       && Json.utf8 (details e) && Json.utf8 (user e))
       (history i)
  && forallb (fun v => Json.utf8 (v_filename v) && Json.utf8 (original_name v)
                       && Json.utf8 (v_timestamp v))
       (file_versions i).

(** The members of a dict are plain, keys and values. *)
Definition plain_members (members : list (string * json)) : bool :=
  forallb (fun m => Json.utf8 m.1 && plain m.2) members.

(** What a value's text starts with: not whitespace, and not a closing
    bracket or brace. *)
Definition value_start (s : string) : Prop :=
  exists c tail,
    s = String c tail /\ Json.is_whitespace c = false
    /\ Ascii.eqb c "]" = false /\ Ascii.eqb c "}" = false.

(** A value [save_data] can write: no float in it, and strings and keys
    that are well-formed UTF-8 (no lone surrogate). *)
Fixpoint writable (v : json) : bool :=
  match v with
  | JFloat _ => false
  | JStr s => Json.utf8 s
  | JArr items =>
      (fix all (l : list json) : bool :=
         match l with
         | [] => true
         | x :: rest => writable x && all rest
         end) items
  | JObj members =>
      (fix all (l : list (string * json)) : bool :=
         match l with
         | [] => true
         | m :: rest => Json.utf8 m.1 && writable m.2 && all rest
         end) members
  | _ => true
  end.

(** Of the values the decoder returns the writable ones are plain: a
    dict it builds repeats no key. *)
Definition reads_plain (v : json) : Prop :=
  writable v = true -> plain v = true.

(** ** Sample data *)

Module Sample.

(** 2024-06-01 12:00:00 *)
Definition noon : Calendar.datetime :=
  {| Calendar.ordinal := 739038; Calendar.usec := 43200000000 |}.

Definition clock : Clock :=
  {| ts_create := "2024-06-01 12:00:00"; ts_edit := "2024-06-01 12:05:00";
     ts_version := "2024-06-01 12:05:01"; ts_file := "2024-06-01 12:05:02" |}.

Definition uuid : string := "123e4567-e89b-42d3-a456-426614174000".

Definition day (s : string) : date := {| strftime_ymd := s |}.

Definition policy_pdf : UploadedFile :=
  {| name := "policy.pdf"; content := [Byte.x25; Byte.x50; Byte.x44; Byte.x46] |}.

(** The spec's scenario record, without and with a file. *)
Definition hr_form (up : option UploadedFile) : Form :=
  {| form_title := "HR Policy"; form_department := "HR";
     form_registration_date := day "2023-01-01";
     form_last_update := day "2023-01-01";
     form_responsible := "A. Ivanov"; form_email := "a@x.com";
     uploaded_file := up |}.

(** The scenario record once created with "policy.pdf". *)
Definition hr_record : Instruction :=
  {| id := uuid; title := "HR Policy"; department := "HR";
     registration_date := "2023-01-01"; last_update := "2023-01-01";
     responsible := "A. Ivanov"; email := "a@x.com";
     has_file := true;
     filename := Some "123e4567-e89b-42d3-a456-426614174000_policy.pdf";
     history :=
       [{| timestamp := "2024-06-01 12:00:00"; change_type := CREATE;
           details := "Создана новая инструкция " +:+ dquote +:+ "HR Policy"
                      +:+ dquote;
           user := DEFAULT_USER |};
        {| timestamp := "2024-06-01 12:05:02"; change_type := FILE;
           details := "Загружен файл: policy.pdf"; user := DEFAULT_USER |}];
     file_versions := [] |}.

Definition policy_files : Files :=
  {[ "123e4567-e89b-42d3-a456-426614174000_policy.pdf" := content policy_pdf ]}.

Definition policy_v2_pdf : UploadedFile :=
  {| name := "policy_v2.pdf"; content := [Byte.x25; Byte.x50; Byte.x32] |}.

(** An upload whose name has the form of an archive suffix. *)
Definition v1_policy_pdf : UploadedFile :=
  {| name := "v1_policy.pdf"; content := [Byte.x25; Byte.x50; Byte.x31] |}.

(** Two replacements in a row: "policy_v2.pdf", then "policy.pdf" again. *)
Definition two_requests : list (Clock * Form) :=
  [(clock, hr_form (Some policy_v2_pdf)); (clock, hr_form (Some policy_pdf))].

(** The scenario form with another department and email. *)
Definition moved_form : Form :=
  {| form_title := "HR Policy"; form_department := "Legal";
     form_registration_date := day "2023-01-01";
     form_last_update := day "2023-01-01";
     form_responsible := "A. Ivanov"; form_email := "legal@x.com";
     uploaded_file := None |}.

(** The record and directory after "policy.pdf" is replaced by an
    upload named "v1_policy.pdf". *)
Definition collided : Instruction * Files :=
  match
    update_instruction clock no_faults (hr_form (Some v1_policy_pdf))
      hr_record policy_files
  with
  | Done s => s
  | _ => (hr_record, policy_files)
  end.

(** [os.remove] fails; the other storage calls succeed. *)
Definition remove_fails : Faults :=
  fun c => match c with CallRemove => true | _ => false end.

(** The record and directory after the two replacements. *)
Definition twice_replaced : Instruction * Files :=
  match replace_files two_requests hr_record policy_files with
  | Done s => s
  | _ => (hr_record, policy_files)
  end.

(** The collection and directory after the scenario record is created
    with "policy.pdf". *)
Definition created : list Instruction * Files :=
  final_state
    (add_instruction uuid clock no_faults (hr_form (Some policy_pdf)) [] ∅).

Definition no_title : Form :=
  {| form_title := ""; form_department := "HR";
     form_registration_date := day "2023-01-01";
     form_last_update := day "2023-01-01";
     form_responsible := "A. Ivanov"; form_email := "a@x.com";
     uploaded_file := None |}.

Definition no_email : Form :=
  {| form_title := "HR Policy"; form_department := "HR";
     form_registration_date := day "2023-01-01";
     form_last_update := day "2023-01-01";
     form_responsible := "A. Ivanov"; form_email := "";
     uploaded_file := None |}.

(** The sample files hold no float, so what [json.dump] would write for
    one is never asked; a float literal stands for itself. *)
Definition as_written : string -> string := fun literal => literal.

(** A data file with one JSON string, the escape of the lone surrogate
    U+D800: the nine bytes [["\ud800"]]. *)
Definition lone_surrogate : string :=
  "[" +:+ dquote +:+ "\ud800" +:+ dquote +:+ "]".

(** [text] with a double quote for every apostrophe. *)
Fixpoint quoted (text : string) : string :=
  match text with
  | EmptyString => ""
  | String c rest =>
      String (if Ascii.eqb c "'" then Json.quote else c) (quoted rest)
  end.

(** The lines, each but the last with a newline after it. *)
Fixpoint lines (l : list string) : string :=
  match l with
  | [] => ""
  | [line] => line
  | line :: rest => line +:+ newline +:+ lines rest
  end.

(** A data file written by hand on one line, with a key given twice and
    with escapes in its strings. *)
Definition by_hand : string :=
  quoted ("[{'title': 'caf\u00e9', 'n': -20, 'title': 'HR'}, [true, null], "
          +:+ "{'k': '\u00e9\n\u0001\'\\/'}, {}, []]").

(** What CPython 3.11 leaves in the data file when [save_data(load_data())]
    finds [by_hand] there. *)
Definition by_hand_resaved : string :=
  quoted (lines
    ["[";
     "  {";
     "    'title': 'HR',";
     "    'n': -20";
     "  },";
     "  [";
     "    true,";
     "    null";
     "  ],";
     "  {";
     "    'k': 'é\n\u0001\'\\/'";
     "  },";
     "  {},";
     "  []";
     "]"]).

(** A value with lists and dicts in one another, and the chunks CPython
    3.11 yields for it under [ensure_ascii=False, indent=2]. *)
Definition nested : json :=
  JArr [JInt 1;
        JArr [JInt 2; JObj [("a", JArr [])]];
        JObj [("b", JStr "x"); ("c", JObj [])]].

Definition nested_chunks : list string :=
  map quoted
    ["[" +:+ newline +:+ "  1"; "," +:+ newline +:+ "  ";
     "[" +:+ newline +:+ "    2"; "," +:+ newline +:+ "    ";
     "{"; newline +:+ "      "; "'a'"; ": "; "[]"; newline +:+ "    "; "}";
     newline +:+ "  "; "]"; "," +:+ newline +:+ "  ";
     "{"; newline +:+ "    "; "'b'"; ": "; "'x'"; "," +:+ newline +:+ "    ";
     "'c'"; ": "; "{}"; newline +:+ "  "; "}"; newline; "]"].

End Sample.

(** ** More sample data *)

Module Demo.

(** A second record with the scenario record's title, created later
    under another id, without a file. *)
Definition twin_uuid : string := "9f1c2d3e-4b5a-4c6d-8e7f-0a1b2c3d4e5f".

Definition twin : Instruction :=
  {| id := twin_uuid; title := "HR Policy"; department := "Legal";
     registration_date := "2024-05-01"; last_update := "2024-05-01";
     responsible := "B. Petrov"; email := "b@x.com";
     has_file := false; filename := None;
     history :=
       [{| timestamp := "2024-06-01 13:00:00"; change_type := CREATE;
           details := "Создана новая инструкция " +:+ dquote +:+ "HR Policy"
                      +:+ dquote;
           user := DEFAULT_USER |}];
     file_versions := [] |}.

(** The two records sharing a title, after the edit page, opened on
    that title, saved the form [Sample.moved_form]. *)
Definition moved : list Instruction * Files :=
  final_state
    (edit_instruction Sample.clock no_faults "HR Policy" UpdateButton false
       Sample.moved_form [Sample.hr_record; twin] Sample.policy_files).

(** 2024-06-02 00:00:00.000001, the first reading of the next day. *)
Definition next_day : Calendar.datetime :=
  {| Calendar.ordinal := 739039; Calendar.usec := 1 |}.

(** The scenario form as the widgets deliver it. *)
Definition widget_form : Form :=
  {| form_title := "HR Policy"; form_department := "HR";
     form_registration_date := date_input 2023 1 1;
     form_last_update := date_input 2024 2 29;
     form_responsible := "A. Ivanov"; form_email := "a@x.com";
     uploaded_file := None |}.

(** The clock stands at noon of 2024-06-01 for a whole pass. *)
Definition at_noon : Readings := fun _ => Sample.noon.

(** Every SMTP session goes through. *)
Definition smtp_ok : nat -> bool := fun _ => true.

(** The scenario record, outdated and with a file, and its namesake,
    current and without a file. *)
Definition pair : list Instruction := [Sample.hr_record; twin].

End Demo.

(** * Properties *)

(** ** Strings *)

Lemma str_app_cons c a b : String c a +:+ b = String c (a +:+ b).
Proof. reflexivity. Qed.

Lemma str_app_assoc a b c : (a +:+ b) +:+ c = a +:+ b +:+ c.
Proof.
  induction a as [|x a IH]; [reflexivity|].
  rewrite !str_app_cons. by rewrite IH.
Qed.

Lemma occurs_in_refl a : Str.occurs_in a a.
Proof.
  exists "", "". induction a as [|x a IH]; [reflexivity|].
  change ("" +:+ String x a +:+ "") with (String x ("" +:+ a +:+ "")).
  by rewrite <- IH.
Qed.

Lemma occurs_in_app_l a b c : Str.occurs_in a b -> Str.occurs_in a (b +:+ c).
Proof.
  intros (pre & post & ->). exists pre, (post +:+ c).
  by rewrite !str_app_assoc.
Qed.

Lemma occurs_in_app_r a b c : Str.occurs_in a c -> Str.occurs_in a (b +:+ c).
Proof.
  intros (pre & post & ->). exists (b +:+ pre), post.
  by rewrite !str_app_assoc.
Qed.

Lemma occurs_in_trans a b c :
  Str.occurs_in a b -> Str.occurs_in b c -> Str.occurs_in a c.
Proof.
  intros Hab (pre & post & ->).
  by apply occurs_in_app_r, occurs_in_app_l.
Qed.

Lemma occurs_in_prefix a b : Str.occurs_in a (a +:+ b).
Proof. apply occurs_in_app_l, occurs_in_refl. Qed.

Lemma join_occurs sep (parts : list string) p :
  p ∈ parts -> Str.occurs_in p (Str.join sep parts).
Proof.
  induction parts as [|q [|q' rest] IH]; intros Hp.
  - by apply elem_of_nil in Hp.
  - apply list_elem_of_singleton in Hp as ->. apply occurs_in_refl.
  - apply elem_of_cons in Hp as [->|Hp].
    + change (Str.join sep (q :: q' :: rest))
        with (q +:+ sep +:+ Str.join sep (q' :: rest)).
      apply occurs_in_app_l, occurs_in_refl.
    + change (Str.join sep (q :: q' :: rest))
        with (q +:+ sep +:+ Str.join sep (q' :: rest)).
      by apply occurs_in_app_r, occurs_in_app_r, IH.
Qed.

Lemma count_underscores_app a b :
  Str.count_underscores (a +:+ b)
  = (Str.count_underscores a + Str.count_underscores b)%nat.
Proof.
  induction a as [|c a IH]; [reflexivity|].
  rewrite str_app_cons. simpl. rewrite IH. lia.
Qed.

Lemma count_underscores_split_last s :
  (Str.count_underscores s <= S (Str.count_underscores (Str.split_last s)))%nat.
Proof.
  unfold Str.split_last.
  assert (forall t,
    match Str.after_first_underscore t with
    | Some rest => Str.count_underscores t = S (Str.count_underscores rest)
    | None => Str.count_underscores t = 0%nat
    end) as H.
  { induction t as [|c t IH]; simpl; [done|].
    destruct (Ascii.eqb c Str.underscore); [done|].
    destruct (Str.after_first_underscore t); simpl; lia. }
  specialize (H s). destruct (Str.after_first_underscore s); lia.
Qed.

(** ** StalenessPolicy *)

Lemma make_date_midnight y m d t :
  Calendar.make_date y m d = Some t -> Calendar.usec t = 0.
Proof.
  unfold Calendar.make_date. case_match; [|discriminate].
  intros [= <-]. reflexivity.
Qed.

Lemma strptime_midnight s t :
  Calendar.strptime s = Some t -> Calendar.usec t = 0.
Proof.
  unfold Calendar.strptime. intros H.
  repeat (case_match; try discriminate).
  simplify_option_eq.
  repeat match goal with
         | p : (_ * _)%type |- _ => destruct p
         end.
  destruct (Calendar.parse_day _); simpl in H; [|discriminate].
  eauto using make_date_midnight.
Qed.

Lemma lt_instant a b :
  0 <= Calendar.usec a < Calendar.USEC_PER_DAY ->
  0 <= Calendar.usec b < Calendar.USEC_PER_DAY ->
  Calendar.lt a b = true <-> Calendar.instant a < Calendar.instant b.
Proof.
  unfold Calendar.lt, Calendar.instant, Calendar.USEC_PER_DAY.
  intros Ha Hb.
  rewrite orb_true_iff, andb_true_iff, !Z.ltb_lt, Z.eqb_eq. nia.
Qed.

Lemma sub_days_spec now n :
  Calendar.sub_days now n
  = if bool_decide (representable now n)
    then Some {| Calendar.ordinal := Calendar.ordinal now - n;
                 Calendar.usec := Calendar.usec now |}
    else None.
Proof.
  unfold Calendar.sub_days, representable.
  case_bool_decide as H; destruct (_ && _) eqn:E; try reflexivity;
    rewrite ?andb_true_iff, ?andb_false_iff, ?Z.leb_le, ?Z.leb_gt in E; lia.
Qed.

Lemma timedelta_days_overflow now n :
  Calendar.valid now -> Calendar.timedelta_days n = None ->
  ~ representable now n.
Proof.
  unfold Calendar.valid, Calendar.timedelta_days, representable,
    Calendar.MAXORDINAL, Calendar.MAX_DELTA_DAYS.
  intros [Ho _]. case_match eqn:E; [discriminate|]. intros _.
  rewrite andb_false_iff, !Z.leb_gt in E. lia.
Qed.

Lemma timedelta_days_some n d : Calendar.timedelta_days n = Some d -> d = n.
Proof. unfold Calendar.timedelta_days. case_match; congruence. Qed.

Lemma is_outdated_iff now last_update_date months_threshold :
  Calendar.valid now ->
  is_outdated now last_update_date months_threshold = true
  <-> stale now last_update_date months_threshold
      \/ ~ representable now (months_threshold * 30).
Proof.
  intros Hnow. unfold is_outdated, stale.
  destruct last_update_date as [s|]; [|tauto].
  destruct s as [|c s]; simpl; [tauto|].
  destruct (Calendar.strptime (String c s)) as [u|] eqn:Hu; [|tauto].
  destruct (Calendar.timedelta_days _) as [d|] eqn:Hd.
  - apply timedelta_days_some in Hd as ->.
    rewrite sub_days_spec. case_bool_decide as Hr; [|tauto].
    rewrite lt_instant; cycle 1.
    { rewrite (strptime_midnight _ _ Hu). unfold Calendar.USEC_PER_DAY. lia. }
    { apply Hnow. }
    unfold Calendar.instant; simpl. split.
    + intros H. left. right. lia.
    + intros [[H|H]|H]; [discriminate| lia | tauto].
  - apply (timedelta_days_overflow now) in Hd; tauto.
Qed.

(** C4, as the code has it.  [is_outdated] answers for every input (it
    is a total function: each exception of the [try] block is a branch
    that returns [True]).  It answers [True] exactly when the date is
    absent, empty, unparsable or strictly earlier than now minus
    [months_threshold * 30] days, or when that threshold date is not one
    a [datetime] can hold.  With the default threshold of 12 months (360
    days) the threshold date can be held from 0001-12-27 on, and the
    last case does not arise. *)
Theorem is_outdated_spec now last_update_date months_threshold :
  Calendar.valid now ->
  (is_outdated now last_update_date months_threshold = true
   <-> stale now last_update_date months_threshold
       \/ ~ representable now (months_threshold * 30))
  /\ (360 < Calendar.ordinal now ->
      (is_outdated now last_update_date DEFAULT_MONTHS_THRESHOLD = true
       <-> stale now last_update_date DEFAULT_MONTHS_THRESHOLD)).
Proof.
  intros Hnow. split; [by apply is_outdated_iff|].
  intros Hpast. rewrite is_outdated_iff by done.
  assert (representable now (DEFAULT_MONTHS_THRESHOLD * 30)).
  { destruct Hnow as [Ho _]. unfold representable, DEFAULT_MONTHS_THRESHOLD. lia. }
  tauto.
Qed.

Lemma is_outdated_spec_witness :
  (is_outdated Sample.noon (Some "2023-01-01") 12 = true
   <-> stale Sample.noon (Some "2023-01-01") 12
       \/ ~ representable Sample.noon (12 * 30))
  /\ (360 < Calendar.ordinal Sample.noon ->
      (is_outdated Sample.noon (Some "2023-01-01") DEFAULT_MONTHS_THRESHOLD = true
       <-> stale Sample.noon (Some "2023-01-01") DEFAULT_MONTHS_THRESHOLD)).
Proof.
  apply (is_outdated_spec Sample.noon (Some "2023-01-01") 12).
  unfold Calendar.valid, Calendar.MAXORDINAL, Calendar.USEC_PER_DAY; simpl; lia.
Defined.

(** C4 as stated fails for a threshold so large that the threshold date
    falls before year 1: on 2024-06-01 at noon, with a threshold of
    100000 months, a record updated that very day is reported outdated,
    although its date is not earlier than now minus 3000000 days. *)
Lemma is_outdated_huge_threshold :
  is_outdated Sample.noon (Some "2024-06-01") 100000 = true
  /\ ~ stale Sample.noon (Some "2024-06-01") 100000.
Proof.
  split; [reflexivity|].
  unfold stale. intros [H|H]; [discriminate|].
  vm_compute in H. discriminate.
Qed.

(** The spec's three staleness examples, on 2024-06-01. *)
Example is_outdated_examples :
  is_outdated Sample.noon None DEFAULT_MONTHS_THRESHOLD = true
  /\ is_outdated Sample.noon (Some "2023-01-01") DEFAULT_MONTHS_THRESHOLD = true
  /\ is_outdated Sample.noon (Some "2024-06-01") DEFAULT_MONTHS_THRESHOLD = false.
Proof. repeat split; reflexivity. Qed.

(** ** Storage names *)

Lemma truthy_current_name record_id upload_name :
  Str.truthy (current_name record_id upload_name) = true.
Proof. unfold current_name. by destruct record_id. Qed.

Lemma split_last_current_name record_id upload_name :
  Str.has_underscore record_id = false ->
  Str.split_last (current_name record_id upload_name) = upload_name.
Proof.
  unfold Str.split_last, current_name. intros Hid.
  assert (Str.after_first_underscore (record_id +:+ "_" +:+ upload_name)
          = Some upload_name) as ->; [|reflexivity].
  induction record_id as [|c r IH]; [reflexivity|].
  simpl in Hid. apply orb_false_iff in Hid as [Hc Hr].
  rewrite str_app_cons. simpl. rewrite Hc. by apply IH.
Qed.

(** The archive of a file never gets the name of the file it copies, so
    [shutil.copy2] is never asked to copy a file onto itself and
    [os.remove] never removes the copy just made. *)
Lemma version_name_fresh record_id version_num f :
  version_name record_id version_num (Str.split_last f) <> f.
Proof.
  intros H. apply (f_equal Str.count_underscores) in H.
  unfold version_name in H. rewrite !count_underscores_app in H.
  pose proof (count_underscores_split_last f).
  change (Str.count_underscores "_v") with 1%nat in H.
  change (Str.count_underscores "_") with 1%nat in H. lia.
Qed.

(** ** The steps of an update *)

Lemma archive_current_keeps clock faults i files i' files' :
  ends_in (archive_current clock faults i files) (i', files') ->
  id i' = id i /\ has_file i' = has_file i /\ filename i' = filename i
  /\ history i' = history i.
Proof.
  unfold archive_current, ends_in.
  intros [H|H]; repeat case_match; simplify_eq; done.
Qed.

Lemma archive_current_done_keeps clock faults i files i' files' :
  archive_current clock faults i files = Done (i', files') ->
  id i' = id i /\ has_file i' = has_file i /\ filename i' = filename i
  /\ history i' = history i.
Proof. intros H. eapply archive_current_keeps. left. exact H. Qed.

Lemma replace_file_history clock faults up i files i' files' :
  replace_file clock faults up i files = Done (i', files') ->
  history i' = history i ++
    [{| timestamp := ts_file clock; change_type := FILE;
        details := "Загружена новая версия файла: " +:+ name up;
        user := DEFAULT_USER |}].
Proof.
  unfold replace_file.
  destruct (archive_current clock faults i files) as [|m|[i1 f1]|[i1 f1]] eqn:Ha;
    try discriminate.
  apply archive_current_done_keeps in Ha as (_ & _ & _ & Hh).
  destruct (faults CallWrite); [discriminate|].
  intros [= <- <-]. simpl. by rewrite Hh.
Qed.

(** What a completed update appends to the history: one batched entry
    when [changes] is not empty, then one 'Файл' entry when a file came
    with the form. *)
Lemma update_instruction_history clock faults form i files i' files' :
  update_instruction clock faults form i files = Done (i', files') ->
  history i' = history i
    ++ match changes i form with
       | [] => []
       | _ :: _ =>
           [{| timestamp := ts_edit clock; change_type := EDIT;
               details := Str.join "; " (changes i form);
               user := DEFAULT_USER |}]
       end
    ++ match uploaded_file form with
       | None => []
       | Some up =>
           [{| timestamp := ts_file clock; change_type := FILE;
               details := "Загружена новая версия файла: " +:+ name up;
               user := DEFAULT_USER |}]
       end.
Proof.
  unfold update_instruction.
  destruct (all_filled form); simpl; [|discriminate].
  destruct (uploaded_file form) as [up|].
  - intros H%replace_file_history. rewrite H.
    destruct (changes i form); simpl; by rewrite <- ?app_assoc.
  - intros [= <- <-].
    destruct (changes i form); simpl; by rewrite ?app_nil_r.
Qed.

Lemma replace_file_outcome clock faults up i files f old :
  filename i = Some f -> Str.truthy f = true -> files !! f = Some old ->
  let version_num := S (length (file_versions i)) in
  let archived := version_name (id i) version_num (Str.split_last f) in
  let current := current_name (id i) (name up) in
  let i1 :=
    with_file_versions i
      (file_versions i ++
       [{| version := version_num; v_filename := archived;
           original_name := Str.split_last f;
           v_timestamp := ts_version clock |}]) in
  replace_file clock faults up i files
  = if faults CallCopy then Raised (i, files)
    else if faults CallRemove then Raised (i1, <[archived := old]> files)
    else if faults CallWrite
         then Raised (i1, delete f (<[archived := old]> files))
         else Done
                (add_history_entry (ts_file clock)
                   (with_has_file (with_filename i1 (Some current)) true)
                   FILE ("Загружена новая версия файла: " +:+ name up),
                 <[current := content up]>
                   (delete f (<[archived := old]> files))).
Proof.
  intros Hf Ht Hold. unfold replace_file, archive_current.
  rewrite Hf, Ht, Hold. simpl. rewrite Nat.add_1_r.
  destruct (faults CallCopy), (faults CallRemove), (faults CallWrite);
    reflexivity.
Qed.

(** A replacement in which every storage call succeeds, on a record
    whose current file is in the directory. *)
Lemma replace_file_done clock up i files f old :
  filename i = Some f -> Str.truthy f = true -> files !! f = Some old ->
  let version_num := S (length (file_versions i)) in
  let archived := version_name (id i) version_num (Str.split_last f) in
  let current := current_name (id i) (name up) in
  replace_file clock no_faults up i files
  = Done
      (add_history_entry (ts_file clock)
         (with_has_file
            (with_filename
               (with_file_versions i
                  (file_versions i ++
                   [{| version := version_num; v_filename := archived;
                       original_name := Str.split_last f;
                       v_timestamp := ts_version clock |}]))
               (Some current))
            true)
         FILE ("Загружена новая версия файла: " +:+ name up),
       <[current := content up]> (delete f (<[archived := old]> files))).
Proof.
  intros Hf Ht Hold. unfold replace_file, archive_current, no_faults.
  rewrite Hf, Ht, Hold. simpl. rewrite Nat.add_1_r. reflexivity.
Qed.

Lemma selected_lookup selected_title data i instruction :
  selected selected_title data = Some (i, instruction) ->
  data !! i = Some instruction.
Proof.
  unfold selected, find_by_id. repeat case_match; try discriminate.
  intros Hfind. by apply list_find_Some in Hfind as [? _].
Qed.

Lemma selected_first selected_title data i instruction :
  selected selected_title data = Some (i, instruction) ->
  forall (j : nat) y, data !! j = Some y -> (j < i)%nat -> y <> instruction.
Proof.
  unfold selected, find_by_id. repeat case_match; try discriminate.
  intros Hfind. apply list_find_Some in Hfind as (_ & Hid & Hmin).
  intros j y Hj Hlt ->. by apply (Hmin j instruction).
Qed.

(** The update branch of [edit_instruction] is [update_instruction] on
    the selected record, written back in place. *)
Lemma edit_instruction_update_done clock faults selected_title confirm_delete
    form data files i instruction data' files' :
  selected selected_title data = Some (i, instruction) ->
  edit_instruction clock faults selected_title UpdateButton confirm_delete
    form data files = Done (data', files') ->
  exists instruction',
    update_instruction clock faults form instruction files
    = Done (instruction', files')
    /\ data' = <[i := instruction']> data
    /\ data' !! i = Some instruction'.
Proof.
  intros Hsel. unfold edit_instruction. rewrite Hsel.
  apply selected_lookup in Hsel.
  destruct data as [|d0 data0] eqn:Hdata; [discriminate|].
  rewrite <- Hdata in *.
  destruct (form_renders instruction); simpl; [|discriminate].
  destruct (update_instruction clock faults form instruction files)
    as [|m|[i1 f1]|[i1 f1]]; try discriminate.
  intros [= <- <-]. exists i1. split; [done|]. split; [done|].
  apply list_lookup_insert_eq. by eapply lookup_lt_Some.
Qed.

(** The update branch of [edit_instruction] when an exception cuts
    [update_instruction] short. *)
Lemma edit_instruction_update_raised clock faults selected_title
    confirm_delete form data files i instruction instruction' files' :
  selected selected_title data = Some (i, instruction) ->
  form_renders instruction = true ->
  update_instruction clock faults form instruction files
  = Raised (instruction', files') ->
  edit_instruction clock faults selected_title UpdateButton confirm_delete
    form data files = Raised (<[i := instruction']> data, files')
  /\ <[i := instruction']> data !! i = Some instruction'.
Proof.
  intros Hsel Hdraw Hup. unfold edit_instruction. rewrite Hsel, Hdraw, Hup.
  apply selected_lookup in Hsel.
  destruct data as [|d0 data0] eqn:Hdata; [by rewrite lookup_nil in Hsel|].
  split; [done|]. rewrite <- Hdata in *.
  apply list_lookup_insert_eq. by eapply lookup_lt_Some.
Qed.

(** ** The file flag *)

Lemma replace_file_consistent clock faults up i files i' files' :
  file_flag_consistent i ->
  ends_in (replace_file clock faults up i files) (i', files') ->
  file_flag_consistent i'.
Proof.
  unfold replace_file. intros Hi Hend.
  destruct (archive_current clock faults i files) as [|m|[i1 f1]|[i1 f1]] eqn:Ha.
  - destruct Hend; discriminate.
  - destruct Hend; discriminate.
  - destruct Hend as [|[= <- <-]]; [discriminate|].
    destruct (archive_current_keeps clock faults i files i1 f1) as (_ & Hh & Hf & _);
      [right; done|].
    unfold file_flag_consistent in *. by rewrite Hh, Hf.
  - destruct (archive_current_keeps clock faults i files i1 f1) as (_ & Hh & Hf & _);
      [left; done|].
    destruct (faults CallWrite).
    + destruct Hend as [|[= <- <-]]; [discriminate|].
      unfold file_flag_consistent in *. by rewrite Hh, Hf.
    + destruct Hend as [[= <- <-]|]; [|discriminate].
      unfold file_flag_consistent; simpl. split; done.
Qed.

Lemma update_instruction_consistent clock faults form i files i' files' :
  file_flag_consistent i ->
  ends_in (update_instruction clock faults form i files) (i', files') ->
  file_flag_consistent i'.
Proof.
  unfold update_instruction. intros Hi Hend.
  destruct (all_filled form); simpl in Hend; [|destruct Hend; discriminate].
  set (i0 := match changes i form with [] => _ | _ => _ end) in Hend.
  assert (file_flag_consistent i0) as Hi0.
  { subst i0. destruct (changes i form); apply Hi. }
  destruct (uploaded_file form) as [up|].
  - eauto using replace_file_consistent.
  - destruct Hend as [[= <- <-]|]; [done|discriminate].
Qed.

Lemma list_remove_sublist x data : sublist (list_remove x data) data.
Proof.
  induction data as [|y data IH]; simpl; [constructor|].
  case_decide; [by apply sublist_cons | by apply sublist_skip].
Qed.

Lemma add_instruction_consistent uuid clock faults form data files s' :
  Forall file_flag_consistent data ->
  ends_in (add_instruction uuid clock faults form data files) s' ->
  Forall file_flag_consistent s'.1.
Proof.
  unfold add_instruction. intros Hd Hend.
  destruct (all_filled form); simpl in Hend; [|destruct Hend; discriminate].
  destruct (uploaded_file form) as [up|] eqn:Hup.
  - destruct (faults CallWrite).
    + destruct Hend as [|[= <-]]; [discriminate|done].
    + destruct Hend as [[= <-]|]; [|discriminate]. simpl.
      apply Forall_app; split; [done|]. apply Forall_singleton.
      unfold file_flag_consistent; simpl. split; done.
  - destruct Hend as [[= <-]|]; [|discriminate]. simpl.
    apply Forall_app; split; [done|]. apply Forall_singleton.
    unfold file_flag_consistent; simpl. split; done.
Qed.

Lemma delete_instruction_sublist faults i data files s' :
  ends_in (delete_instruction faults i data files) s' ->
  sublist s'.1 data.
Proof.
  unfold delete_instruction, ends_in.
  intros [H|H]; repeat case_match; simplify_eq; simpl;
    auto using list_remove_sublist.
Qed.

Lemma edit_instruction_consistent clock faults selected_title button
    confirm_delete form data files s' :
  Forall file_flag_consistent data ->
  ends_in (edit_instruction clock faults selected_title button confirm_delete
             form data files) s' ->
  Forall file_flag_consistent s'.1.
Proof.
  intros Hd Hend. unfold edit_instruction in Hend.
  destruct data as [|d0 data0] eqn:Hdata; [destruct Hend; discriminate|].
  rewrite <- Hdata in *. clear Hdata d0 data0.
  destruct (selected selected_title data) as [[i ins]|] eqn:Hsel;
    [|destruct Hend; discriminate].
  apply selected_lookup in Hsel.
  destruct (form_renders ins); simpl in Hend;
    [|by destruct Hend as [|[= <-]]].
  destruct button.
  - destruct (update_instruction clock faults form ins files)
      as [|m|[i1 f1]|[i1 f1]] eqn:Hu; try (destruct Hend; discriminate).
    + destruct Hend as [|[= <-]]; [discriminate|]. simpl.
      apply Forall_insert; [done|].
      eapply update_instruction_consistent; [|right; exact Hu].
      eapply Forall_lookup_1; eauto.
    + destruct Hend as [[= <-]|]; [|discriminate]. simpl.
      apply Forall_insert; [done|].
      eapply update_instruction_consistent; [|left; exact Hu].
      eapply Forall_lookup_1; eauto.
  - destruct confirm_delete; [|destruct Hend; discriminate].
    apply Forall_forall. intros x Hx.
    eapply (proj1 (Forall_forall _ _) Hd), elem_of_sublist; [exact Hx|].
    eauto using delete_instruction_sublist.
Qed.

(** C1.  In every collection that the add and edit pages lead to from an
    empty one (creation with or without a file, edits with or without a
    new file, file replacements, deletions, runs cut short by a storage
    error), each record has [has_file] true exactly when its [filename]
    is not null. *)
Theorem has_file_iff_filename s :
  reachable s -> Forall file_flag_consistent s.1.
Proof.
  induction 1 as [files| | ]; simpl.
  - constructor.
  - eauto using add_instruction_consistent.
  - eauto using edit_instruction_consistent.
Qed.

Lemma has_file_iff_filename_witness :
  Forall file_flag_consistent Sample.created.1.
Proof.
  apply (has_file_iff_filename Sample.created).
  apply (reach_add Sample.uuid Sample.clock no_faults
           (Sample.hr_form (Some Sample.policy_pdf)) [] ∅);
    [apply reach_empty|].
  left. vm_compute. reflexivity.
Defined.

(** ** Creation *)

Lemma all_filled_missing form :
  all_filled form = true <-> missing_fields form = [].
Proof.
  unfold all_filled, missing_fields.
  destruct form as [t d rd lu r e up]; simpl.
  destruct t, d, r, e; simpl; split; (done || discriminate).
Qed.

Lemma NoDup_snoc_fresh (l : list string) x :
  x ∉ l -> NoDup l -> NoDup (l ++ [x]).
Proof.
  intros Hx Hl. apply NoDup_app. split; [done|]. split.
  - intros y Hy ->%list_elem_of_singleton. done.
  - apply NoDup_singleton.
Qed.



(** The spec's first scenario: the record created without a file. *)
Example create_without_file :
  exists record,
    add_instruction Sample.uuid Sample.clock no_faults (Sample.hr_form None) [] ∅
    = Done ([record], ∅)
    /\ has_file record = false
    /\ map change_type (history record) = [CREATE]
    /\ is_outdated Sample.noon (Some (last_update record))
         DEFAULT_MONTHS_THRESHOLD = true.
Proof. eexists. split; [reflexivity|]. repeat split. Qed.

Example created_is_hr_record :
  Sample.created = ([Sample.hr_record], Sample.policy_files).
Proof. vm_compute. reflexivity. Qed.

(** ** Edit history *)

(** Every changed field has its fragment, named by its label, in
    [changes]. *)
Lemma changes_mention f i form :
  stored f i <> submitted f form ->
  exists c, c ∈ changes i form /\ Str.occurs_in (label f) c.
Proof.
  intros Hf. unfold changes.
  destruct f; simpl in Hf; simpl label.
  - rewrite (bool_decide_eq_true_2 _ Hf).
    eexists. split; [apply elem_of_app; left; apply list_elem_of_singleton; reflexivity|].
    apply (occurs_in_prefix "Название").
  - rewrite (bool_decide_eq_true_2 (department i <> _) Hf).
    eexists. split;
      [apply elem_of_app; right; apply elem_of_app; left;
       apply list_elem_of_singleton; reflexivity|].
    apply (occurs_in_prefix "Подразделение").
  - rewrite (bool_decide_eq_true_2 (registration_date i <> _) Hf).
    eexists. split;
      [do 2 (apply elem_of_app; right); apply elem_of_app; left;
       apply list_elem_of_singleton; reflexivity|].
    apply (occurs_in_prefix "Дата регистрации" " изменена").
  - rewrite (bool_decide_eq_true_2 (last_update i <> _) Hf).
    eexists. split;
      [do 3 (apply elem_of_app; right); apply elem_of_app; left;
       apply list_elem_of_singleton; reflexivity|].
    apply (occurs_in_prefix "Дата актуализации" " обновлена").
  - rewrite (bool_decide_eq_true_2 (responsible i <> _) Hf).
    eexists. split;
      [do 4 (apply elem_of_app; right); apply elem_of_app; left;
       apply list_elem_of_singleton; reflexivity|].
    apply (occurs_in_prefix "Ответственный").
  - rewrite (bool_decide_eq_true_2 (email i <> _) Hf).
    eexists. split;
      [do 5 (apply elem_of_app; right); apply list_elem_of_singleton; reflexivity|].
    apply (occurs_in_prefix "Email" " изменен").
Qed.

Lemma changes_none i form :
  (forall f, stored f i = submitted f form) -> changes i form = [].
Proof.
  intros H. unfold changes.
  pose proof (H FTitle) as H1. pose proof (H FDepartment) as H2.
  pose proof (H FRegistrationDate) as H3. pose proof (H FLastUpdate) as H4.
  pose proof (H FResponsible) as H5. pose proof (H FEmail) as H6.
  simpl in *.
  rewrite !bool_decide_eq_false_2; [reflexivity|..]; intros Hne; by apply Hne.
Qed.

(** C5.  A completed edit of the selected record appends to its history
    no 'Редактирование' entry when every submitted value equals the
    stored one, and exactly one when some value differs; the details of
    that one entry name every field whose value differs. *)
Theorem edit_history_batched clock faults selected_title confirm_delete
    form data files i instruction data' files' :
  selected selected_title data = Some (i, instruction) ->
  edit_instruction clock faults selected_title UpdateButton confirm_delete
    form data files = Done (data', files') ->
  exists instruction' new,
    data' !! i = Some instruction'
    /\ history instruction' = history instruction ++ new
    /\ ((forall f, stored f instruction = submitted f form) ->
        edit_entries new = [])
    /\ ((exists f, stored f instruction <> submitted f form) ->
        exists e,
          edit_entries new = [e]
          /\ forall f, stored f instruction <> submitted f form ->
               Str.occurs_in (label f) (details e)).
Proof.
  intros Hsel Hedit.
  destruct (edit_instruction_update_done _ _ _ _ _ _ _ _ _ _ _ Hsel Hedit)
    as (i' & Hup & _ & Hlook).
  apply update_instruction_history in Hup.
  eexists i', _. split; [exact Hlook|]. split; [exact Hup|].
  assert (forall up : option UploadedFile,
    edit_entries
      match up with
      | None => []
      | Some up =>
          [{| timestamp := ts_file clock; change_type := FILE;
              details := "Загружена новая версия файла: " +:+ name up;
              user := DEFAULT_USER |}]
      end = []) as Hfile.
  { intros [up|]; reflexivity. }
  unfold edit_entries in *. split.
  - intros Hsame. rewrite (changes_none _ _ Hsame). simpl. apply Hfile.
  - intros [f0 Hf0].
    destruct (changes_mention _ _ _ Hf0) as (c0 & Hc0 & _).
    destruct (changes instruction form) as [|c cs] eqn:Hch;
      [by apply elem_of_nil in Hc0|].
    eexists. rewrite filter_app, Hfile, app_nil_r.
    split; [reflexivity|]. cbn [details].
    intros f Hf. destruct (changes_mention _ _ _ Hf) as (c1 & Hc1 & Hl).
    rewrite Hch in Hc1.
    eapply occurs_in_trans; [exact Hl|]. by apply join_occurs.
Qed.

Lemma edit_history_batched_witness :
  exists instruction' new,
    (final_state
       (edit_instruction Sample.clock no_faults "HR Policy" UpdateButton false
          Sample.moved_form [Sample.hr_record] Sample.policy_files)).1
      !! 0%nat = Some instruction'
    /\ history instruction' = history Sample.hr_record ++ new
    /\ ((forall f, stored f Sample.hr_record = submitted f Sample.moved_form) ->
        edit_entries new = [])
    /\ ((exists f, stored f Sample.hr_record <> submitted f Sample.moved_form) ->
        exists e,
          edit_entries new = [e]
          /\ forall f, stored f Sample.hr_record <> submitted f Sample.moved_form ->
               Str.occurs_in (label f) (details e)).
Proof.
  apply (edit_history_batched Sample.clock no_faults "HR Policy" false
           Sample.moved_form [Sample.hr_record] Sample.policy_files 0%nat
           Sample.hr_record _
           (final_state
              (edit_instruction Sample.clock no_faults "HR Policy" UpdateButton
                 false Sample.moved_form [Sample.hr_record]
                 Sample.policy_files)).2).
  - vm_compute. reflexivity.
  - vm_compute. reflexivity.
Defined.

(** ** File replacement *)

(** One completed update with a file, on a record with a current
    artifact and [k] versions so far. *)
Lemma update_instruction_replaces clock form up i files k :
  all_filled form = true -> uploaded_file form = Some up ->
  has_current_artifact i files ->
  map version (file_versions i) = seq 1 k ->
  exists i' files',
    update_instruction clock no_faults form i files = Done (i', files')
    /\ id i' = id i
    /\ has_current_artifact i' files'
    /\ map version (file_versions i') = seq 1 (S k)
    /\ filename i' = Some (current_name (id i) (name up))
    /\ files' !! current_name (id i) (name up) = Some (content up).
Proof.
  intros Hform Hup (f & Hf & Ht & [old Hold]) Hk.
  unfold update_instruction. rewrite Hform, Hup. simpl.
  set (i0 := match changes i form with [] => _ | _ => _ end).
  assert (id i0 = id i /\ filename i0 = filename i
          /\ file_versions i0 = file_versions i) as (Hid & Hfn & Hfv).
  { subst i0. destruct (changes i form); done. }
  rewrite (replace_file_done clock up i0 files f old) by congruence.
  eexists _, _. split; [reflexivity|].
  unfold add_history_entry, with_history, with_has_file, with_filename,
    with_file_versions.
  cbn [id filename file_versions has_file history].
  rewrite Hid, Hfv. split; [done|]. split.
  { eexists. split; [reflexivity|]. split; [apply truthy_current_name|].
    rewrite lookup_insert_eq. by eexists. }
  split.
  { rewrite map_app, Hk. cbn [map version].
    change (1%nat :: seq 2 k) with (seq 1 (S k)). rewrite seq_S. do 2 f_equal.
    apply (f_equal length) in Hk. rewrite length_map, length_seq in Hk. lia. }
  split; [done|]. apply lookup_insert_eq.
Qed.

Lemma replace_files_versions requests : forall i files k,
  has_current_artifact i files ->
  map version (file_versions i) = seq 1 k ->
  Forall (fun request : Clock * Form =>
            all_filled request.2 = true /\ is_Some (uploaded_file request.2))
    requests ->
  exists i' files',
    replace_files requests i files = Done (i', files')
    /\ id i' = id i
    /\ has_current_artifact i' files'
    /\ map version (file_versions i') = seq 1 (k + length requests)
    /\ forall clock form up,
         last requests = Some (clock, form) -> uploaded_file form = Some up ->
         filename i' = Some (current_name (id i) (name up))
         /\ files' !! current_name (id i) (name up) = Some (content up).
Proof.
  induction requests as [|[clock form] rest IH]; intros i files k Hart Hk Hall.
  - exists i, files. simpl. rewrite Nat.add_0_r. repeat split; try done.
  - apply Forall_cons in Hall as [[Hform [up Hup]] Hall]. simpl in Hform, Hup.
    destruct (update_instruction_replaces clock form up i files k)
      as (i1 & f1 & Hstep & Hid1 & Hart1 & Hk1 & Hfn1 & Hfile1); try done.
    destruct (IH i1 f1 (S k) Hart1 Hk1 Hall)
      as (i2 & f2 & Hrest & Hid2 & Hart2 & Hk2 & Hlast2).
    exists i2, f2. simpl. rewrite Hstep.
    split; [exact Hrest|]. split; [congruence|]. split; [done|].
    split; [by rewrite Hk2, Nat.add_succ_r|].
    intros clock' form' up' Hlast Hup'.
    destruct rest as [|r rest'].
    + simpl in Hlast, Hrest. simplify_eq. done.
    + rewrite <- Hid1. eapply Hlast2; [|done]. exact Hlast.
Qed.

(** C3.  On a record that has a current artifact and no archived
    version yet, N successive completed replacements leave exactly N
    version entries, numbered 1, 2, ..., N in the order they were
    appended, and the record's current file is the last upload: it is
    stored under the record's id and that upload's name, with that
    upload's bytes. *)
Theorem n_replacements requests instruction files :
  has_current_artifact instruction files ->
  file_versions instruction = [] ->
  Forall (fun request : Clock * Form =>
            all_filled request.2 = true /\ is_Some (uploaded_file request.2))
    requests ->
  exists instruction' files',
    replace_files requests instruction files = Done (instruction', files')
    /\ length (file_versions instruction') = length requests
    /\ map version (file_versions instruction') = seq 1 (length requests)
    /\ forall clock form up,
         last requests = Some (clock, form) -> uploaded_file form = Some up ->
         filename instruction'
         = Some (current_name (id instruction) (name up))
         /\ files' !! current_name (id instruction) (name up)
            = Some (content up).
Proof.
  intros Hart Hnil Hall.
  destruct (replace_files_versions requests instruction files 0%nat)
    as (i' & f' & Hrun & _ & _ & Hv & Hlast); try done.
  { by rewrite Hnil. }
  exists i', f'. split; [done|]. split; [|split; [done|done]].
  apply (f_equal length) in Hv. by rewrite length_map, length_seq in Hv.
Qed.

Lemma n_replacements_witness :
  exists instruction' files',
    replace_files Sample.two_requests Sample.hr_record Sample.policy_files
    = Done (instruction', files')
    /\ length (file_versions instruction') = length Sample.two_requests
    /\ map version (file_versions instruction')
       = seq 1 (length Sample.two_requests)
    /\ forall clock form up,
         last Sample.two_requests = Some (clock, form) ->
         uploaded_file form = Some up ->
         filename instruction'
         = Some (current_name (id Sample.hr_record) (name up))
         /\ files' !! current_name (id Sample.hr_record) (name up)
            = Some (content up).
Proof.
  apply (n_replacements Sample.two_requests Sample.hr_record
           Sample.policy_files).
  - eexists. split; [reflexivity|]. split; [reflexivity|].
    vm_compute. eexists. reflexivity.
  - reflexivity.
  - repeat constructor; simpl; eexists; reflexivity.
Defined.

(** A completed replacement on a record with a current artifact, when
    the new file's stored name is not the name the archive gets: one
    version entry is appended, numbered one past the versions so far,
    and the file it names holds the replaced file's bytes; the version
    entry carries the replaced file's upload name (ids drawn by
    [uuid4] have no underscore); one 'Файл' entry is appended to the
    history; the record's current file is the new upload. *)
Theorem replacement_archives_old clock form up i files old_name old :
  all_filled form = true -> uploaded_file form = Some up ->
  Str.has_underscore (id i) = false ->
  filename i = Some (current_name (id i) old_name) ->
  files !! current_name (id i) old_name = Some old ->
  current_name (id i) (name up)
  <> version_name (id i) (S (length (file_versions i))) old_name ->
  exists i' files' e new,
    update_instruction clock no_faults form i files = Done (i', files')
    /\ file_versions i' = file_versions i ++ [e]
    /\ version e = S (length (file_versions i))
    /\ original_name e = old_name
    /\ files' !! v_filename e = Some old
    /\ history i' = history i ++ new
    /\ length (file_entries new) = 1%nat
    /\ filename i' = Some (current_name (id i) (name up))
    /\ has_file i' = true
    /\ files' !! current_name (id i) (name up) = Some (content up).
Proof.
  intros Hform Hup Hid Hf Hold Hfresh.
  pose proof (truthy_current_name (id i) old_name) as Ht.
  pose proof (split_last_current_name (id i) old_name Hid) as Hsplit.
  destruct (update_instruction clock no_faults form i files)
    as [|m|s|[i' files']] eqn:Hrun.
  1-3: exfalso; revert Hrun; unfold update_instruction;
       rewrite Hform, Hup; simpl;
       erewrite replace_file_done by (try done; by destruct (changes i form));
       discriminate.
  pose proof (update_instruction_history _ _ _ _ _ _ _ Hrun) as Hhist.
  unfold update_instruction in Hrun. rewrite Hform, Hup in Hrun. simpl in Hrun.
  set (i0 := match changes i form with [] => _ | _ => _ end) in Hrun.
  assert (id i0 = id i /\ filename i0 = filename i
          /\ file_versions i0 = file_versions i) as (Hid0 & Hfn0 & Hfv0).
  { subst i0. destruct (changes i form); done. }
  rewrite (replace_file_done clock up i0 files
             (current_name (id i) old_name) old) in Hrun
    by (try done; congruence).
  rewrite Hid0, Hfv0, Hsplit in Hrun. injection Hrun as <- <-.
  eexists _, _, _, _. split; [reflexivity|].
  unfold add_history_entry, with_history, with_has_file, with_filename,
    with_file_versions.
  cbn [id filename file_versions has_file version v_filename original_name].
  split; [reflexivity|]. split; [done|]. split; [done|].
  split.
  { rewrite lookup_insert_ne by done.
    rewrite lookup_delete_ne.
    - apply lookup_insert_eq.
    - rewrite <- Hsplit at 2. intros E; symmetry in E; revert E.
      apply version_name_fresh. }
  split; [exact Hhist|]. split.
  { unfold file_entries. rewrite Hup, filter_app.
    assert (filter (fun e => change_type e = FILE)
              match changes i form with
              | [] => []
              | _ :: _ =>
                  [{| timestamp := ts_edit clock; change_type := EDIT;
                      details := Str.join "; " (changes i form);
                      user := DEFAULT_USER |}]
              end = []) as ->.
    { destruct (changes i form); reflexivity. }
    reflexivity. }
  split; [done|]. split; [done|]. apply lookup_insert_eq.
Qed.

Lemma replacement_archives_old_witness :
  exists i' files' e new,
    update_instruction Sample.clock no_faults
      (Sample.hr_form (Some Sample.policy_v2_pdf)) Sample.hr_record
      Sample.policy_files = Done (i', files')
    /\ file_versions i' = file_versions Sample.hr_record ++ [e]
    /\ version e = S (length (file_versions Sample.hr_record))
    /\ original_name e = "policy.pdf"
    /\ files' !! v_filename e = Some (content Sample.policy_pdf)
    /\ history i' = history Sample.hr_record ++ new
    /\ length (file_entries new) = 1%nat
    /\ filename i'
       = Some (current_name (id Sample.hr_record) (name Sample.policy_v2_pdf))
    /\ has_file i' = true
    /\ files' !! current_name (id Sample.hr_record) (name Sample.policy_v2_pdf)
       = Some (content Sample.policy_v2_pdf).
Proof.
  apply (replacement_archives_old Sample.clock
           (Sample.hr_form (Some Sample.policy_v2_pdf)) Sample.policy_v2_pdf
           Sample.hr_record Sample.policy_files "policy.pdf"
           (content Sample.policy_pdf)).
  - reflexivity.
  - reflexivity.
  - reflexivity.
  - reflexivity.
  - vm_compute. reflexivity.
  - vm_compute. discriminate.
Defined.

(** The spec's second scenario: "policy.pdf" attached at creation, then
    replaced by "policy_v2.pdf". *)
Example attach_then_replace :
  exists instruction files,
    update_instruction Sample.clock no_faults
      (Sample.hr_form (Some Sample.policy_v2_pdf)) Sample.hr_record
      Sample.policy_files = Done (instruction, files)
    /\ map (fun v => (version v, original_name v)) (file_versions instruction)
       = [(1%nat, "policy.pdf")]
    /\ filename instruction
       = Some (current_name Sample.uuid "policy_v2.pdf")
    /\ files !! current_name Sample.uuid "policy_v2.pdf"
       = Some (content Sample.policy_v2_pdf)
    /\ files !! version_name Sample.uuid 1 "policy.pdf"
       = Some (content Sample.policy_pdf)
    /\ map change_type (history instruction) = [CREATE; FILE; FILE].
Proof.
  eexists _, _. split; [vm_compute; reflexivity|].
  repeat split; vm_compute; reflexivity.
Qed.

(** Where C2 fails: the record holds "policy.pdf", has no version yet,
    and the new upload is named "v1_policy.pdf".  The archive and the
    new current file get the same stored name, so the write of the new
    file lands on the archive just made: afterwards the one version
    entry names a file that holds the new upload's bytes, and the
    directory holds the replaced file's bytes nowhere. *)
Lemma archive_overwritten_by_upload :
  update_instruction Sample.clock no_faults
    (Sample.hr_form (Some Sample.v1_policy_pdf)) Sample.hr_record
    Sample.policy_files
  = Done Sample.collided
  /\ map (fun v => (version v, v_filename v, original_name v))
       (file_versions Sample.collided.1)
     = [(1%nat, "123e4567-e89b-42d3-a456-426614174000_v1_policy.pdf",
         "policy.pdf")]
  /\ filename Sample.collided.1
     = Some "123e4567-e89b-42d3-a456-426614174000_v1_policy.pdf"
  /\ Sample.collided.2
     = {[ "123e4567-e89b-42d3-a456-426614174000_v1_policy.pdf"
          := content Sample.v1_policy_pdf ]}
  /\ content Sample.v1_policy_pdf <> content Sample.policy_pdf.
Proof.
  repeat split; try (vm_compute; reflexivity). discriminate.
Qed.

(** ** Storage failures during a replacement *)




(** ** Deletion *)

Lemma list_remove_at data : forall (i : nat) x,
  data !! i = Some x ->
  (forall (j : nat) y, data !! j = Some y -> (j < i)%nat -> y <> x) ->
  list_remove x data = delete i data.
Proof.
  induction data as [|a data IH]; intros [|i] x Hl Hmin; simpl in *;
    try discriminate.
  - injection Hl as ->. by rewrite decide_True.
  - rewrite decide_False.
    + f_equal. apply IH; [done|]. intros j y Hj Hlt.
      apply (Hmin (S j) y); [done|lia].
    + apply (Hmin 0%nat a); [done|lia].
Qed.

(** Deleting the selected record, once confirmed and completed, takes
    that one record out of the collection and leaves the others as they
    were, in their order; in the upload directory every file other than
    the record's current file is untouched, so each archived version
    whose stored name is not the current file's name stays. *)
Theorem delete_frame clock faults selected_title form data files i
    instruction data' files' :
  selected selected_title data = Some (i, instruction) ->
  edit_instruction clock faults selected_title DeleteButton true form
    data files = Done (data', files') ->
  data' = delete i data
  /\ (forall p, filename instruction <> Some p -> files' !! p = files !! p)
  /\ (forall v, v ∈ file_versions instruction ->
        filename instruction <> Some (v_filename v) ->
        files' !! v_filename v = files !! v_filename v).
Proof.
  intros Hsel Hrun.
  pose proof (selected_lookup _ _ _ _ Hsel) as Hl.
  pose proof (selected_first _ _ _ _ Hsel) as Hmin.
  unfold edit_instruction in Hrun. rewrite Hsel in Hrun.
  destruct data as [|d0 data0] eqn:Hdata; [discriminate|].
  rewrite <- Hdata in *. clear Hdata d0 data0.
  destruct (form_renders instruction); simpl in Hrun; [|discriminate].
  assert (data' = list_remove instruction data
          /\ forall p, filename instruction <> Some p ->
               files' !! p = files !! p) as [-> Hfiles].
  { unfold delete_instruction in Hrun.
    destruct (filename instruction) as [f|]; [|by injection Hrun as <- <-].
    destruct (Str.truthy f); simpl in Hrun; [|by injection Hrun as <- <-].
    destruct (files !! f); [|by injection Hrun as <- <-].
    destruct (faults CallRemove); [discriminate|].
    injection Hrun as <- <-. split; [done|].
    intros p Hp. apply lookup_delete_ne. congruence. }
  split; [by apply list_remove_at|]. split; [done|].
  intros v _ Hv. by apply Hfiles.
Qed.

Lemma delete_frame_witness :
  ([] : list Instruction) = delete 0%nat [Sample.hr_record]
  /\ (forall p, filename Sample.hr_record <> Some p ->
        (∅ : Files) !! p = Sample.policy_files !! p)
  /\ (forall v, v ∈ file_versions Sample.hr_record ->
        filename Sample.hr_record <> Some (v_filename v) ->
        (∅ : Files) !! v_filename v = Sample.policy_files !! v_filename v).
Proof.
  apply (delete_frame Sample.clock no_faults "HR Policy" (Sample.hr_form None)
           [Sample.hr_record] Sample.policy_files 0%nat Sample.hr_record
           [] ∅).
  - vm_compute. reflexivity.
  - vm_compute. reflexivity.
Defined.

(** The spec's third scenario: a record with a current file and two
    archived versions is deleted; the collection no longer holds it, its
    current file is gone, and the two archived files are still there. *)
Example delete_keeps_two_versions :
  map v_filename (file_versions Sample.twice_replaced.1)
  = [version_name Sample.uuid 1 "policy.pdf";
     version_name Sample.uuid 2 "policy_v2.pdf"]
  /\ filename Sample.twice_replaced.1
     = Some (current_name Sample.uuid "policy.pdf")
  /\ edit_instruction Sample.clock no_faults "HR Policy" DeleteButton true
       (Sample.hr_form None) [Sample.twice_replaced.1] Sample.twice_replaced.2
     = Done ([],
             {[ version_name Sample.uuid 1 "policy.pdf"
                  := content Sample.policy_pdf;
                version_name Sample.uuid 2 "policy_v2.pdf"
                  := content Sample.policy_v2_pdf ]}).
Proof. repeat split; vm_compute; reflexivity. Qed.

(** Where C10 fails: the record reached by creating it with
    "policy.pdf" and replacing that by an upload named "v1_policy.pdf"
    has one archived version, whose file is in the directory under the
    very name of the record's current file; deleting the record removes
    it, and no file of the record is left. *)
Lemma delete_removes_colliding_archive :
  reachable ([Sample.collided.1], Sample.collided.2)
  /\ map v_filename (file_versions Sample.collided.1)
     = ["123e4567-e89b-42d3-a456-426614174000_v1_policy.pdf"]
  /\ is_Some (Sample.collided.2
               !! "123e4567-e89b-42d3-a456-426614174000_v1_policy.pdf")
  /\ edit_instruction Sample.clock no_faults "HR Policy" DeleteButton true
       (Sample.hr_form None) [Sample.collided.1] Sample.collided.2
     = Done ([], ∅).
Proof.
  split.
  { apply (reach_edit Sample.clock no_faults "HR Policy" UpdateButton false
             (Sample.hr_form (Some Sample.v1_policy_pdf))
             [Sample.hr_record] Sample.policy_files).
    - apply (reach_add Sample.uuid Sample.clock no_faults
               (Sample.hr_form (Some Sample.policy_pdf)) [] ∅);
        [apply reach_empty|].
      left. vm_compute. reflexivity.
    - left. vm_compute. reflexivity. }
  split; [vm_compute; reflexivity|].
  split; [vm_compute; by eexists|].
  vm_compute. reflexivity.
Qed.

(** ** Version numbers *)

Lemma versions_contiguous_snoc (versions : list FileVersion) v :
  map version versions = seq 1 (length versions) ->
  version v = S (length versions) ->
  map version (versions ++ [v]) = seq 1 (length (versions ++ [v])).
Proof.
  intros Hv Hn. rewrite map_app, length_app, Hv. simpl.
  rewrite Nat.add_1_r, seq_S, Hn. reflexivity.
Qed.

Lemma archive_current_contiguous clock faults i files i' files' :
  versions_contiguous i ->
  ends_in (archive_current clock faults i files) (i', files') ->
  versions_contiguous i'.
Proof.
  unfold archive_current, ends_in, versions_contiguous. intros Hi.
  intros [H|H]; repeat case_match; simplify_eq; try done;
    simpl; apply versions_contiguous_snoc; try done; simpl; lia.
Qed.

Lemma replace_file_contiguous clock faults up i files i' files' :
  versions_contiguous i ->
  ends_in (replace_file clock faults up i files) (i', files') ->
  versions_contiguous i'.
Proof.
  unfold replace_file. intros Hi Hend.
  destruct (archive_current clock faults i files) as [|m|[i1 f1]|[i1 f1]] eqn:Ha.
  - destruct Hend; discriminate.
  - destruct Hend; discriminate.
  - destruct Hend as [|[= <- <-]]; [discriminate|].
    eapply archive_current_contiguous; [done|right; done].
  - assert (versions_contiguous i1) as H1.
    { eapply archive_current_contiguous; [done|left; done]. }
    destruct (faults CallWrite).
    + by destruct Hend as [|[= <- <-]].
    + by destruct Hend as [[= <- <-]|].
Qed.

Lemma update_instruction_contiguous clock faults form i files i' files' :
  versions_contiguous i ->
  ends_in (update_instruction clock faults form i files) (i', files') ->
  versions_contiguous i'.
Proof.
  unfold update_instruction. intros Hi Hend.
  destruct (all_filled form); simpl in Hend; [|destruct Hend; discriminate].
  set (i0 := match changes i form with [] => _ | _ => _ end) in Hend.
  assert (versions_contiguous i0) as Hi0.
  { subst i0. destruct (changes i form); apply Hi. }
  destruct (uploaded_file form) as [up|].
  - eauto using replace_file_contiguous.
  - destruct Hend as [[= <- <-]|]; [done|discriminate].
Qed.

(** In every collection that the add and edit pages lead to from an
    empty one, each record's versions are numbered 1, 2, ... with no
    gap, in the order they were archived. *)
Theorem versions_numbered_from_one s :
  reachable s -> Forall versions_contiguous s.1.
Proof.
  induction 1 as [files
                 |uuid clock faults form data files s' Hreach IH Hend
                 |clock faults selected_title button confirm_delete form
                    data files s' Hreach IH Hend]; simpl in *.
  - constructor.
  - unfold add_instruction in Hend.
    destruct (all_filled form); simpl in Hend; [|destruct Hend; discriminate].
    destruct (uploaded_file form) as [up|].
    + destruct (faults CallWrite).
      * by destruct Hend as [|[= <-]].
      * destruct Hend as [[= <-]|]; [|discriminate]. simpl.
        apply Forall_app; split; [done|]. by apply Forall_singleton.
    + destruct Hend as [[= <-]|]; [|discriminate]. simpl.
      apply Forall_app; split; [done|]. by apply Forall_singleton.
  - unfold edit_instruction in Hend.
    destruct data as [|d0 data0] eqn:Hdata; [destruct Hend; discriminate|].
    rewrite <- Hdata in *. clear Hdata d0 data0.
    destruct (selected selected_title data) as [[i ins]|] eqn:Hsel;
      [|destruct Hend; discriminate].
    apply selected_lookup in Hsel.
    destruct (form_renders ins); simpl in Hend;
      [|by destruct Hend as [|[= <-]]].
    destruct button.
    + destruct (update_instruction clock faults form ins files)
        as [|m|[i1 f1]|[i1 f1]] eqn:Hu; try (destruct Hend; discriminate).
      * destruct Hend as [|[= <-]]; [discriminate|]. simpl.
        apply Forall_insert; [done|].
        eapply update_instruction_contiguous; [|right; exact Hu].
        eapply Forall_lookup_1; eauto.
      * destruct Hend as [[= <-]|]; [|discriminate]. simpl.
        apply Forall_insert; [done|].
        eapply update_instruction_contiguous; [|left; exact Hu].
        eapply Forall_lookup_1; eauto.
    + destruct confirm_delete; [|destruct Hend; discriminate].
      apply Forall_forall. intros x Hx.
      eapply (proj1 (Forall_forall _ _) IH), elem_of_sublist; [exact Hx|].
      eauto using delete_instruction_sublist.
Qed.

Lemma versions_numbered_from_one_witness :
  Forall versions_contiguous [Sample.collided.1].
Proof.
  apply (versions_numbered_from_one ([Sample.collided.1], Sample.collided.2)).
  apply (reach_edit Sample.clock no_faults "HR Policy" UpdateButton false
           (Sample.hr_form (Some Sample.v1_policy_pdf))
           [Sample.hr_record] Sample.policy_files).
  - apply (reach_add Sample.uuid Sample.clock no_faults
             (Sample.hr_form (Some Sample.policy_pdf)) [] ∅);
      [apply reach_empty|].
    left. vm_compute. reflexivity.
  - left. vm_compute. reflexivity.
Defined.

(** ** Persistence *)

Section PersistenceProperties.

Variable json_dump : json -> string.
Variable json_load : string -> option json.

(** C8.  [load_data] returns the empty collection when the data file
    does not exist and when reading or parsing it raises; when the file
    is read and parsed, it returns the value parsed. *)
Theorem load_data_spec :
  load_data json_load None = JArr []
  /\ (forall text, json_load text = None ->
        load_data json_load (Some text) = JArr [])
  /\ (forall text v, json_load text = Some v ->
        load_data json_load (Some text) = v).
Proof.
  split; [reflexivity|]. split.
  - intros text H. simpl. by rewrite H.
  - intros text v H. simpl. by rewrite H.
Qed.

End PersistenceProperties.

(** ** The [json] module: writing and reading back *)

Lemma str_app_nil_r a : a +:+ "" = a.
Proof. induction a as [|c a IH]; [done|]. by rewrite str_app_cons, IH. Qed.

Lemma str_app_nil_l b : "" +:+ b = b.
Proof. reflexivity. Qed.

Lemma str_length_app a b :
  String.length (a +:+ b) = (String.length a + String.length b)%nat.
Proof. induction a as [|c a IH]; [done|]. rewrite str_app_cons. simpl. by rewrite IH. Qed.

(** *** UTF-8 *)

Lemma utf8_run_app q a b :
  Json.utf8_run q (a +:+ b) = Json.utf8_run (Json.utf8_run q a) b.
Proof.
  revert q. induction a as [|c a IH]; intros q; [done|].
  rewrite str_app_cons. simpl. apply IH.
Qed.

Lemma utf8_run_U0 a : Json.utf8 a = true -> Json.utf8_run Json.U0 a = Json.U0.
Proof. unfold Json.utf8. by destruct (Json.utf8_run Json.U0 a). Qed.

Lemma utf8_app a b :
  Json.utf8 a = true -> Json.utf8 b = true -> Json.utf8 (a +:+ b) = true.
Proof.
  intros Ha Hb. unfold Json.utf8.
  by rewrite utf8_run_app, (utf8_run_U0 a Ha), (utf8_run_U0 b Hb).
Qed.

Lemma utf8_cons_ascii c a :
  Json.between 0 127 c = true -> Json.utf8 a = true ->
  Json.utf8 (String c a) = true.
Proof. intros Hc Ha. unfold Json.utf8. simpl. by rewrite Hc. Qed.

Lemma utf8_spaces n : Json.utf8 (Json.spaces n) = true.
Proof. induction n as [|n IH]; [done|]. simpl. by apply utf8_cons_ascii. Qed.

Lemma utf8_newline_indent level : Json.utf8 (Json.newline_indent level) = true.
Proof. apply utf8_cons_ascii; [done|apply utf8_spaces]. Qed.

Lemma utf8_string_of_uint u : Json.utf8 (NilEmpty.string_of_uint u) = true.
Proof. induction u; simpl; [done|by apply utf8_cons_ascii..]. Qed.

Lemma utf8_intstr n : Json.utf8 (Json.intstr n) = true.
Proof.
  unfold Json.intstr, Json.digits. case_match.
  - apply utf8_cons_ascii; [done|apply utf8_string_of_uint].
  - apply utf8_string_of_uint.
Qed.

(** Escaping does not change where the decoder stands: it replaces a
    character of one byte by characters of one byte. *)
Lemma utf8_run_escape_char q c :
  Json.utf8_run q (Json.escape_char c) = Json.utf8_step q c.
Proof.
  destruct c as [[] [] [] [] [] [] [] []]; destruct q; reflexivity.
Qed.

Lemma utf8_run_escape s : forall q,
  Json.utf8_run q (Json.escape s) = Json.utf8_run q s.
Proof.
  induction s as [|c s IH]; intros q; [done|].
  simpl. by rewrite utf8_run_app, utf8_run_escape_char, IH.
Qed.

Lemma utf8_encode_basestring s :
  Json.utf8 s = true -> Json.utf8 (Json.encode_basestring s) = true.
Proof.
  intros Hs. unfold Json.encode_basestring.
  apply utf8_cons_ascii; [done|]. apply utf8_app; [|done].
  unfold Json.utf8. by rewrite utf8_run_escape, (utf8_run_U0 s Hs).
Qed.

(** *** Strings *)

Lemma scanstring_escape_char c tail :
  Json.scanstring (Json.escape_char c +:+ tail)
  = match Json.scanstring tail with
    | Some (text, after) => Some (String c text, after)
    | None => None
    end.
Proof.
  destruct c as [[] [] [] [] [] [] [] []];
    cbv -[Json.scanstring]; simpl; destruct (Json.scanstring tail) as [[? ?]|];
    reflexivity.
Qed.

Lemma scanstring_escape s after :
  Json.scanstring (Json.escape s +:+ String Json.quote after) = Some (s, after).
Proof.
  induction s as [|c s IH]; [done|].
  simpl. by rewrite str_app_assoc, scanstring_escape_char, IH.
Qed.

Lemma scanstring_basestring s after :
  Json.scanstring (Json.escape s +:+ String Json.quote "" +:+ after)
  = Some (s, after).
Proof. apply scanstring_escape. Qed.

(** *** Numbers *)

Lemma value_end_cases rest :
  Json.value_end rest = true ->
  rest = "" \/ (exists tail, rest = String "," tail)
  \/ (exists tail, rest = String (ascii_of_nat 10) tail).
Proof.
  destruct rest as [|c tail]; [by left|]. simpl.
  intros [H|H]%orb_true_iff; apply Ascii.eqb_eq in H as ->; right;
    [left|right]; by eexists.
Qed.

Lemma scan_digits_uint u rest :
  Json.value_end rest = true ->
  Json.scan_digits (NilEmpty.string_of_uint u +:+ rest) = (u, rest).
Proof.
  intros Hrest. induction u; simpl;
    rewrite ?str_app_cons; simpl; rewrite ?IHu; try reflexivity.
  destruct (value_end_cases rest Hrest) as [->|[[tail ->]|[tail ->]]];
    reflexivity.
Qed.

Lemma fraction_part_end rest :
  Json.value_end rest = true -> Json.fraction_part rest = ("", rest).
Proof.
  intros Hrest.
  destruct (value_end_cases rest Hrest) as [->|[[tail ->]|[tail ->]]];
    [done|by destruct tail..].
Qed.

Lemma exponent_part_end rest :
  Json.value_end rest = true -> Json.exponent_part rest = ("", rest).
Proof.
  intros Hrest.
  by destruct (value_end_cases rest Hrest) as [->|[[tail ->]|[tail ->]]].
Qed.

(** A decimal numeral without leading zeros is 0 or starts with another
    digit than 0. *)
Lemma nzhead_head d :
  match Decimal.nzhead d with
  | Decimal.D0 _ => False
  | _ => True
  end.
Proof. induction d; simpl; done. Qed.

Lemma unorm_D0 u : Decimal.unorm (Decimal.D0 u) = Decimal.D0 u -> u = Decimal.Nil.
Proof.
  unfold Decimal.unorm. simpl. pose proof (nzhead_head u) as H.
  destruct (Decimal.nzhead u); try done; by intros [= <-].
Qed.

Lemma integer_part_uint u rest :
  Decimal.unorm u = u -> Json.value_end rest = true ->
  Json.integer_part (NilEmpty.string_of_uint u +:+ rest) = Some (u, rest).
Proof.
  intros Hu Hrest.
  destruct u;
    [discriminate Hu | by apply unorm_D0 in Hu as -> | ..];
    unfold Json.integer_part;
    (erewrite <- scan_digits_uint by exact Hrest); reflexivity.
Qed.

Lemma sign_part_uint u rest :
  Decimal.unorm u = u ->
  Json.sign_part (NilEmpty.string_of_uint u +:+ rest)
  = ("", NilEmpty.string_of_uint u +:+ rest).
Proof. intros Hu. destruct u; [discriminate Hu|reflexivity..]. Qed.

Lemma to_uint_unorm n : Decimal.unorm (N.to_uint n) = N.to_uint n.
Proof. by rewrite <- Unsigned.to_of, Unsigned.of_to. Qed.

Section DecoderProperties.

Variable float_repr : string -> string.

Lemma match_number_intstr n rest :
  Json.value_end rest = true ->
  Json.match_number float_repr (Json.intstr n +:+ rest) = Some (JInt n, rest).
Proof.
  intros Hrest. unfold Json.match_number, Json.intstr, Json.digits.
  pose proof (to_uint_unorm (Z.abs_N n)) as Hu.
  destruct (n <? 0) eqn:Hn.
  - rewrite str_app_cons. cbn [Json.sign_part]. simpl Ascii.eqb. cbv iota.
    rewrite integer_part_uint, fraction_part_end, exponent_part_end by done.
    simpl. rewrite Unsigned.of_to, N2Z.inj_abs_N.
    apply Z.ltb_lt in Hn. do 3 f_equal. lia.
  - rewrite sign_part_uint by done.
    rewrite integer_part_uint, fraction_part_end, exponent_part_end by done.
    simpl. rewrite Unsigned.of_to, N2Z.inj_abs_N.
    apply Z.ltb_ge in Hn. do 3 f_equal. lia.
Qed.

Lemma scan_once_digit fuel c tail :
  Json.is_digit c = true ->
  Json.scan_once float_repr (S fuel) (String c tail)
  = Json.match_number float_repr (String c tail).
Proof.
  destruct c as [[] [] [] [] [] [] [] []]; try discriminate; reflexivity.
Qed.

Lemma scan_once_minus fuel c tail :
  Json.is_digit c = true ->
  Json.scan_once float_repr (S fuel) (String "-" (String c tail))
  = Json.match_number float_repr (String "-" (String c tail)).
Proof.
  destruct c as [[] [] [] [] [] [] [] []]; try discriminate; reflexivity.
Qed.

Lemma digits_head n :
  exists c tail, Json.digits n = String c tail /\ Json.is_digit c = true.
Proof.
  unfold Json.digits. pose proof (to_uint_unorm n) as Hu.
  destruct (N.to_uint n); [discriminate Hu|by eexists _, _..].
Qed.

Lemma scan_once_intstr fuel n rest :
  Json.value_end rest = true ->
  Json.scan_once float_repr (S fuel) (Json.intstr n +:+ rest)
  = Some (JInt n, rest).
Proof.
  intros Hrest. rewrite <- (match_number_intstr n rest Hrest).
  unfold Json.intstr. destruct (digits_head (Z.abs_N n)) as (c & tail & -> & Hc).
  case_match; rewrite !str_app_cons.
  - by apply scan_once_minus.
  - by apply scan_once_digit.
Qed.

End DecoderProperties.

(** *** Whitespace and the shape of what is written *)

Lemma skip_whitespace_spaces n s :
  Json.skip_whitespace (Json.spaces n +:+ s) = Json.skip_whitespace s.
Proof.
  induction n as [|n IH]; [done|].
  cbn [Json.spaces]. rewrite str_app_cons. cbn [Json.skip_whitespace].
  change (Json.is_whitespace " ") with true. cbv iota. apply IH.
Qed.

Lemma skip_whitespace_newline_indent level s :
  Json.skip_whitespace (Json.newline_indent level +:+ s)
  = Json.skip_whitespace s.
Proof.
  unfold Json.newline_indent. rewrite str_app_cons.
  cbn [Json.skip_whitespace].
  change (Json.is_whitespace (ascii_of_nat 10)) with true. cbv iota.
  apply skip_whitespace_spaces.
Qed.

Lemma skip_whitespace_value s : value_start s -> Json.skip_whitespace s = s.
Proof. intros (c & tail & -> & Hc & _). simpl. by rewrite Hc. Qed.

Lemma join_chunks_app a b :
  Json.join_chunks (a ++ b) = Json.join_chunks a +:+ Json.join_chunks b.
Proof.
  induction a as [|c a IH]; [done|]. simpl. by rewrite IH, str_app_assoc.
Qed.

Lemma iterencode_atom v text level :
  Json.atom v = Some text -> Json.iterencode v level = [text].
Proof. destruct v as [|[]| | | | |]; simpl; by intros [= <-]. Qed.

Lemma encode_atom v text level :
  Json.atom v = Some text -> Json.encode v level = text.
Proof.
  intros H. unfold Json.encode. rewrite (iterencode_atom _ _ _ H).
  simpl. apply str_app_nil_r.
Qed.

Lemma join_item sep v level :
  Json.join_chunks
    (match Json.atom v with
     | Some text => [sep +:+ text]
     | None => sep :: Json.iterencode v level
     end)
  = sep +:+ Json.encode v level.
Proof.
  destruct (Json.atom v) as [text|] eqn:Ha; [|done].
  rewrite (encode_atom _ _ _ Ha). simpl. apply str_app_nil_r.
Qed.

Lemma join_value v level :
  Json.join_chunks
    (match Json.atom v with
     | Some text => [text]
     | None => Json.iterencode v level
     end)
  = Json.encode v level.
Proof.
  destruct (Json.atom v) as [text|] eqn:Ha; [|done].
  rewrite (encode_atom _ _ _ Ha). simpl. apply str_app_nil_r.
Qed.

Lemma join_more_items level items :
  Json.join_chunks
    (flat_map
       (fun value =>
          match Json.atom value with
          | Some text => [("," +:+ Json.newline_indent level) +:+ text]
          | None =>
              ("," +:+ Json.newline_indent level)
              :: Json.iterencode value level
          end) items)
  = Json.encode_items level items.
Proof.
  induction items as [|x items IH]; [done|].
  cbn [flat_map Json.encode_items].
  by rewrite join_chunks_app, join_item, IH, !str_app_assoc.
Qed.

Lemma join_more_members level members :
  Json.join_chunks
    (flat_map
       (fun member : string * json =>
          ["," +:+ Json.newline_indent level;
           Json.encode_basestring member.1; ": "]
          ++ match Json.atom member.2 with
             | Some text => [text]
             | None => Json.iterencode member.2 level
             end) members)
  = Json.encode_members level members.
Proof.
  induction members as [|m members IH]; [done|].
  cbn [flat_map Json.encode_members].
  rewrite !join_chunks_app, join_value, IH.
  cbn [Json.join_chunks]. by rewrite str_app_nil_r, !str_app_assoc.
Qed.

Lemma encode_list x items level :
  Json.encode (JArr (x :: items)) level
  = "[" +:+ Json.newline_indent (S level) +:+ Json.encode x (S level)
    +:+ Json.encode_items (S level) items
    +:+ Json.newline_indent level +:+ "]".
Proof.
  unfold Json.encode at 1. cbn [Json.iterencode].
  rewrite !join_chunks_app, join_item, join_more_items.
  cbn [Json.join_chunks]. by rewrite str_app_nil_r, !str_app_assoc.
Qed.

Lemma encode_dict key x members level :
  Json.encode (JObj ((key, x) :: members)) level
  = "{" +:+ Json.newline_indent (S level) +:+ Json.encode_basestring key
    +:+ ": " +:+ Json.encode x (S level)
    +:+ Json.encode_members (S level) members
    +:+ Json.newline_indent level +:+ "}".
Proof.
  unfold Json.encode at 1. cbn [Json.iterencode].
  rewrite !join_chunks_app, join_value, join_more_members.
  cbn [Json.join_chunks]. by rewrite str_app_nil_r, !str_app_assoc.
Qed.

Lemma basestring_app s rest :
  Json.encode_basestring s +:+ rest
  = String Json.quote (Json.escape s +:+ String Json.quote rest).
Proof.
  unfold Json.encode_basestring. by rewrite str_app_cons, str_app_assoc.
Qed.

Lemma value_start_encode v level rest :
  plain v = true -> value_start (Json.encode v level +:+ rest).
Proof.
  intros Hv. destruct v as [|[]|n| |s|[|x items]|[|[key x] members]].
  - by eexists _, _.
  - by eexists _, _.
  - by eexists _, _.
  - rewrite (encode_atom (JInt n) (Json.intstr n) level eq_refl).
    unfold Json.intstr.
    destruct (digits_head (Z.abs_N n)) as (c & tail & -> & Hc).
    case_match; [by eexists _, _|].
    exists c, (tail +:+ rest). split; [by rewrite str_app_cons|].
    clear -Hc. by destruct c as [[] [] [] [] [] [] [] []].
  - discriminate Hv.
  - rewrite (encode_atom (JStr s) (Json.encode_basestring s) level eq_refl),
      basestring_app.
    by eexists _, _.
  - by eexists _, _.
  - rewrite encode_list, !str_app_cons. by eexists _, _.
  - by eexists _, _.
  - rewrite encode_dict, !str_app_cons. by eexists _, _.
Qed.

(** *** Reading back what was written *)

Lemma plain_list x items :
  plain (JArr (x :: items)) = true ->
  plain x = true /\ plain (JArr items) = true.
Proof. simpl. by intros [? ?]%andb_true_iff. Qed.

Lemma plain_item items y :
  plain (JArr items) = true -> y ∈ items -> plain y = true.
Proof.
  induction items as [|x items IH]; [by intros _ ?%elem_of_nil|].
  intros [Hx Hitems]%plain_list [->|Hy]%elem_of_cons; [done|by apply IH].
Qed.

Lemma weight_list x items :
  weight (JArr (x :: items)) = S (weight x + weight (JArr items)).
Proof. simpl. lia. Qed.

Lemma weight_item items y :
  y ∈ items -> (weight y < weight (JArr items))%nat.
Proof.
  induction items as [|x items IH]; [by intros ?%elem_of_nil|].
  rewrite weight_list. intros [->|Hy]%elem_of_cons; [lia|].
  specialize (IH Hy). lia.
Qed.

Lemma plain_dict members :
  plain (JObj members)
  = bool_decide (NoDup members.*1) && plain_members members.
Proof. reflexivity. Qed.

Lemma plain_member members m :
  plain_members members = true -> m ∈ members ->
  Json.utf8 m.1 = true /\ plain m.2 = true.
Proof.
  unfold plain_members.
  induction members as [|x members IH]; [by intros _ ?%elem_of_nil|].
  simpl. intros [Hx Hrest]%andb_true_iff [->|Hm]%elem_of_cons.
  - by apply andb_true_iff.
  - by apply IH.
Qed.

Lemma weight_dict m members :
  weight (JObj (m :: members)) = S (weight m.2 + weight (JObj members)).
Proof. simpl. lia. Qed.

Lemma weight_member members m :
  m ∈ members -> (weight m.2 < weight (JObj members))%nat.
Proof.
  induction members as [|x members IH]; [by intros ?%elem_of_nil|].
  rewrite weight_dict. intros [->|Hy]%elem_of_cons; [lia|].
  specialize (IH Hy). lia.
Qed.

Lemma dict_set_new key value members :
  key ∉ members.*1 ->
  Json.dict_set key value members = members ++ [(key, value)].
Proof.
  induction members as [|[k v] members IH]; [done|].
  rewrite fmap_cons, not_elem_of_cons. intros [Hk Hnot]. simpl.
  rewrite (proj2 (String.eqb_neq k key)) by (intros ->; by apply Hk).
  by rewrite IH.
Qed.

Lemma value_end_more_items level items tail :
  Json.value_end
    (Json.encode_items level items +:+ Json.newline_indent level +:+ tail)
  = true
  /\ forall level',
       Json.value_end
         (Json.encode_items level items +:+ Json.newline_indent level'
          +:+ tail) = true.
Proof. by destruct items. Qed.

Lemma value_end_more_members level members level' tail :
  Json.value_end
    (Json.encode_members level members +:+ Json.newline_indent level'
     +:+ tail) = true.
Proof. by destruct members. Qed.

Section ReadBack.

Variable float_repr : string -> string.

Let reads (level : nat) (y : json) : Prop :=
  forall fuel rest,
    (weight y <= fuel)%nat -> Json.value_end rest = true ->
    Json.scan_once float_repr fuel (Json.encode y level +:+ rest)
    = Some (y, rest).

Lemma parse_items_encode level' level items : forall x fuel rest,
  (forall y, y ∈ x :: items -> reads level' y) ->
  plain (JArr (x :: items)) = true ->
  (weight (JArr (x :: items)) <= S fuel)%nat ->
  Json.parse_items float_repr fuel
    (Json.encode x level' +:+ Json.encode_items level' items
     +:+ Json.newline_indent level +:+ "]" +:+ rest)
  = Some (x :: items, rest).
Proof.
  induction items as [|y items IH]; intros x fuel rest Hreads Hplain Hw.
  - rewrite weight_list in Hw. simpl in Hw.
    destruct fuel as [|fuel]; [lia|].
    cbn [Json.parse_items Json.encode_items]. rewrite str_app_nil_l.
    rewrite (Hreads x); [|apply list_elem_of_here|lia|done].
    rewrite skip_whitespace_newline_indent. reflexivity.
  - rewrite weight_list in Hw.
    pose proof (weight_list y items) as Hwy.
    destruct fuel as [|fuel]; [lia|].
    cbn [Json.parse_items Json.encode_items].
    rewrite !str_app_assoc.
    rewrite (Hreads x); [|apply list_elem_of_here|lia|done].
    change ("," +:+ ?r) with (String "," r).
    cbn [Json.skip_whitespace].
    change (Json.is_whitespace ",") with false.
    change (Ascii.eqb "," "]") with false.
    change (Ascii.eqb "," ",") with true. cbv iota.
    rewrite skip_whitespace_newline_indent.
    apply plain_list in Hplain as [Hx Hrest].
    rewrite skip_whitespace_value
      by (apply value_start_encode; by apply plain_list in Hrest as [? ?]).
    rewrite IH; [done| |done|lia].
    intros z Hz. apply Hreads. by apply list_elem_of_further.
Qed.

Lemma parse_members_encode level' level members : forall key x acc fuel rest,
  (forall m, m ∈ (key, x) :: members -> reads level' m.2) ->
  plain_members ((key, x) :: members) = true ->
  NoDup (acc.*1 ++ key :: members.*1) ->
  (weight (JObj ((key, x) :: members)) <= S fuel)%nat ->
  Json.parse_members float_repr fuel acc
    (Json.encode_basestring key +:+ ": " +:+ Json.encode x level'
     +:+ Json.encode_members level' members
     +:+ Json.newline_indent level +:+ "}" +:+ rest)
  = Some (acc ++ (key, x) :: members, rest).
Proof.
  induction members as [|[key' y] members IH];
    intros key x acc fuel rest Hreads Hplain Hkeys Hw.
  - rewrite weight_dict in Hw. simpl in Hw.
    destruct fuel as [|fuel]; [lia|].
    rewrite basestring_app. cbn [Json.parse_members].
    rewrite Ascii.eqb_refl, scanstring_escape.
    change (": " +:+ ?r) with (String ":" (String " " r)).
    cbn [Json.skip_whitespace].
    change (Json.is_whitespace ":") with false.
    change (Ascii.eqb ":" ":") with true. cbv iota.
    cbn [Json.skip_whitespace].
    change (Json.is_whitespace " ") with true. cbv iota.
    assert (plain x = true) as Hx.
    { by apply (plain_member _ (key, x) Hplain), list_elem_of_here. }
    rewrite skip_whitespace_value by (by apply value_start_encode).
    cbn [Json.encode_members]. rewrite str_app_nil_l.
    rewrite (Hreads (key, x)); [|apply list_elem_of_here|simpl; lia|done].
    rewrite skip_whitespace_newline_indent.
    change ("}" +:+ rest) with (String "}" rest).
    cbn [Json.skip_whitespace].
    change (Json.is_whitespace "}") with false.
    change (Ascii.eqb "}" "}") with true. cbv iota.
    rewrite dict_set_new; [done|].
    apply NoDup_app in Hkeys as (_ & Hdisj & _).
    intros Hin. apply (Hdisj key Hin), list_elem_of_here.
  - rewrite weight_dict in Hw.
    pose proof (weight_dict (key', y) members) as Hwy.
    destruct fuel as [|fuel]; [lia|].
    rewrite basestring_app. cbn [Json.parse_members].
    rewrite Ascii.eqb_refl, scanstring_escape.
    change (": " +:+ ?r) with (String ":" (String " " r)).
    cbn [Json.skip_whitespace].
    change (Json.is_whitespace ":") with false.
    change (Ascii.eqb ":" ":") with true. cbv iota.
    cbn [Json.skip_whitespace].
    change (Json.is_whitespace " ") with true. cbv iota.
    assert (plain x = true) as Hx.
    { by apply (plain_member _ (key, x) Hplain), list_elem_of_here. }
    rewrite skip_whitespace_value by (by apply value_start_encode).
    cbn [Json.encode_members]. rewrite !str_app_assoc.
    rewrite (Hreads (key, x)); [|apply list_elem_of_here|simpl in *; lia|done].
    change ("," +:+ ?r) with (String "," r).
    cbn [Json.skip_whitespace].
    change (Json.is_whitespace ",") with false.
    change (Ascii.eqb "," "}") with false.
    change (Ascii.eqb "," ",") with true. cbv iota.
    rewrite skip_whitespace_newline_indent.
    cbn [fst snd]. rewrite (basestring_app key').
    cbn [Json.skip_whitespace].
    change (Json.is_whitespace Json.quote) with false. cbv iota.
    rewrite <- (basestring_app key').
    assert (key ∉ acc.*1) as Hnew.
    { apply NoDup_app in Hkeys as (_ & Hdisj & _).
      intros Hin. apply (Hdisj key Hin), list_elem_of_here. }
    rewrite dict_set_new by done.
    rewrite <- !str_app_assoc. rewrite !str_app_assoc.
    rewrite IH.
    + by rewrite <- app_assoc.
    + intros m Hm. apply Hreads. by apply list_elem_of_further.
    + unfold plain_members in *. simpl in Hplain |- *.
      by apply andb_true_iff in Hplain as [_ ?].
    + rewrite fmap_app, <- app_assoc. exact Hkeys.
    + simpl in *. lia.
Qed.

(** The decoder reads back every plain value the encoder wrote, at any
    indentation, whatever follows it. *)
Lemma scan_once_encode n : forall v level,
  (weight v <= n)%nat -> plain v = true -> reads level v.
Proof.
  induction n as [|n IH]; intros v level Hn Hplain fuel rest Hfuel Hrest.
  { destruct v; simpl in Hn; lia. }
  destruct v as [|[]|k|r|s|[|x items]|[|[key x] members]].
  - destruct fuel; [simpl in Hfuel; lia|]. by destruct rest.
  - destruct fuel; [simpl in Hfuel; lia|]. by destruct rest.
  - destruct fuel; [simpl in Hfuel; lia|]. by destruct rest.
  - destruct fuel; [simpl in Hfuel; lia|].
    rewrite (encode_atom (JInt k) (Json.intstr k) level eq_refl).
    by apply scan_once_intstr.
  - discriminate Hplain.
  - destruct fuel; [simpl in Hfuel; lia|].
    rewrite (encode_atom (JStr s) (Json.encode_basestring s) level eq_refl),
      basestring_app.
    cbn [Json.scan_once]. by rewrite Ascii.eqb_refl, scanstring_escape.
  - destruct fuel; [simpl in Hfuel; lia|]. reflexivity.
  - destruct fuel as [|fuel]; [simpl in Hfuel; lia|].
    rewrite encode_list, !str_app_assoc.
    change ("[" +:+ ?r) with (String "[" r).
    cbn [Json.scan_once].
    change (Ascii.eqb "[" Json.quote) with false.
    change (Ascii.eqb "[" "{") with false.
    change (Ascii.eqb "[" "[") with true. cbv iota.
    rewrite skip_whitespace_newline_indent.
    pose proof (plain_list _ _ Hplain) as [Hx _].
    destruct (value_start_encode x (S level)
                (Json.encode_items (S level) items
                 +:+ Json.newline_indent level +:+ "]" +:+ rest) Hx)
      as (d & after & Heq & Hws & Hb & _).
    rewrite skip_whitespace_value by (by apply value_start_encode).
    rewrite Heq, Hb, <- Heq.
    rewrite (parse_items_encode (S level) level); [done| |done|lia].
    intros y Hy. apply IH; [|by eapply plain_item].
    pose proof (weight_item _ _ Hy). lia.
  - destruct fuel; [simpl in Hfuel; lia|]. reflexivity.
  - destruct fuel as [|fuel]; [simpl in Hfuel; lia|].
    rewrite plain_dict in Hplain.
    apply andb_true_iff in Hplain as [Hkeys%bool_decide_eq_true Hmembers].
    rewrite encode_dict, !str_app_assoc.
    change ("{" +:+ ?r) with (String "{" r).
    cbn [Json.scan_once].
    change (Ascii.eqb "{" Json.quote) with false.
    change (Ascii.eqb "{" "{") with true. cbv iota.
    rewrite skip_whitespace_newline_indent.
    rewrite (basestring_app key).
    cbn [Json.skip_whitespace].
    change (Json.is_whitespace Json.quote) with false.
    change (Ascii.eqb Json.quote "}") with false. cbv iota.
    rewrite <- (basestring_app key).
    rewrite (parse_members_encode (S level) level); [done| |done|done|lia].
    intros m Hm. apply IH.
    + pose proof (weight_member _ _ Hm). lia.
    + by apply (plain_member _ m Hmembers).
Qed.

End ReadBack.

(** *** The fuel of [Json.loads] covers what the encoder wrote *)

Lemma weight_encode_items level items :
  (forall y, y ∈ items ->
     (weight y <= String.length (Json.encode y level))%nat) ->
  (weight (JArr items) <= S (String.length (Json.encode_items level items)))%nat.
Proof.
  induction items as [|x items IH]; intros Hitems; [simpl; lia|].
  rewrite weight_list. cbn [Json.encode_items].
  rewrite !str_length_app. simpl String.length.
  pose proof (Hitems x (list_elem_of_here _ _)).
  assert (weight (JArr items)
          <= S (String.length (Json.encode_items level items)))%nat.
  { apply IH. intros y Hy. by apply Hitems, list_elem_of_further. }
  lia.
Qed.

Lemma weight_encode_members level members :
  (forall m, m ∈ members ->
     (weight m.2 <= String.length (Json.encode m.2 level))%nat) ->
  (weight (JObj members)
   <= S (String.length (Json.encode_members level members)))%nat.
Proof.
  induction members as [|x members IH]; intros Hmembers; [simpl; lia|].
  rewrite weight_dict. cbn [Json.encode_members].
  rewrite !str_length_app. simpl String.length.
  pose proof (Hmembers x (list_elem_of_here _ _)).
  assert (weight (JObj members)
          <= S (String.length (Json.encode_members level members)))%nat.
  { apply IH. intros y Hy. by apply Hmembers, list_elem_of_further. }
  lia.
Qed.

Lemma weight_encode n : forall v level,
  (weight v <= n)%nat -> plain v = true ->
  (weight v <= String.length (Json.encode v level))%nat.
Proof.
  induction n as [|n IH]; intros v level Hn Hplain.
  { destruct v; simpl in Hn; lia. }
  destruct v as [|[]|k|r|s|[|x items]|[|[key x] members]];
    try (simpl; lia).
  - rewrite (encode_atom (JInt k) (Json.intstr k) level eq_refl).
    unfold Json.intstr.
    destruct (digits_head (Z.abs_N k)) as (c & tail & -> & _).
    case_match; simpl; lia.
  - discriminate Hplain.
  - rewrite encode_list, !str_length_app, weight_list. simpl String.length.
    assert (weight x <= String.length (Json.encode x (S level)))%nat.
    { pose proof (weight_item (x :: items) x (list_elem_of_here _ _)).
      apply IH; [lia|]. by apply plain_list in Hplain as [? ?]. }
    assert (weight (JArr items)
            <= S (String.length (Json.encode_items (S level) items)))%nat.
    { apply weight_encode_items. intros y Hy.
      pose proof (weight_item (x :: items) y (list_elem_of_further _ _ _ Hy)).
      apply IH; [lia|].
      eapply plain_item; [exact Hplain|by apply list_elem_of_further]. }
    lia.
  - rewrite plain_dict in Hplain.
    apply andb_true_iff in Hplain as [_ Hmembers].
    rewrite encode_dict, !str_length_app, weight_dict. simpl String.length.
    assert (weight x <= String.length (Json.encode x (S level)))%nat.
    { pose proof (weight_member ((key, x) :: members) (key, x)
                    (list_elem_of_here _ _)).
      apply IH; [simpl in *; lia|].
      by apply (plain_member _ (key, x) Hmembers), list_elem_of_here. }
    assert (weight (JObj members)
            <= S (String.length (Json.encode_members (S level) members)))%nat.
    { apply weight_encode_members. intros m Hm.
      pose proof (weight_member ((key, x) :: members) m
                    (list_elem_of_further _ _ _ Hm)).
      apply IH; [lia|].
      by apply (plain_member _ m Hmembers), list_elem_of_further. }
    simpl in *. lia.
Qed.

(** *** Every chunk of a plain value can be written *)

Lemma utf8_item_chunks sep v level :
  Json.utf8 sep = true ->
  Forall (fun c => Json.utf8 c = true) (Json.iterencode v level) ->
  Forall (fun c => Json.utf8 c = true)
    (match Json.atom v with
     | Some text => [sep +:+ text]
     | None => sep :: Json.iterencode v level
     end).
Proof.
  intros Hsep Hv. destruct (Json.atom v) as [text|] eqn:Ha; [|by constructor].
  rewrite (iterencode_atom _ _ level Ha) in Hv.
  rewrite Forall_singleton in Hv |- *. by apply utf8_app.
Qed.

Lemma utf8_value_chunks v level :
  Forall (fun c => Json.utf8 c = true) (Json.iterencode v level) ->
  Forall (fun c => Json.utf8 c = true)
    (match Json.atom v with
     | Some text => [text]
     | None => Json.iterencode v level
     end).
Proof.
  intros Hv. destruct (Json.atom v) as [text|] eqn:Ha; [|done].
  by rewrite (iterencode_atom _ _ level Ha) in Hv.
Qed.

Lemma utf8_comma level : Json.utf8 ("," +:+ Json.newline_indent level) = true.
Proof. apply utf8_app; [done|apply utf8_newline_indent]. Qed.

Lemma utf8_open bracket level :
  Json.utf8 bracket = true ->
  Json.utf8 (bracket +:+ Json.newline_indent level) = true.
Proof. intros H. apply utf8_app; [done|apply utf8_newline_indent]. Qed.

Lemma iterencode_utf8 n : forall v level,
  (weight v <= n)%nat -> plain v = true ->
  Forall (fun c => Json.utf8 c = true) (Json.iterencode v level).
Proof.
  induction n as [|n IH]; intros v level Hn Hplain.
  { destruct v; simpl in Hn; lia. }
  destruct v as [|[]|k|r|s|[|x items]|[|[key x] members]].
  - by apply Forall_singleton.
  - by apply Forall_singleton.
  - by apply Forall_singleton.
  - apply Forall_singleton, utf8_intstr.
  - discriminate Hplain.
  - apply Forall_singleton. by apply utf8_encode_basestring.
  - by apply Forall_singleton.
  - cbn [Json.iterencode]. apply Forall_app. split; [|apply Forall_app; split].
    + apply utf8_item_chunks; [by apply utf8_open|].
      pose proof (weight_item (x :: items) x (list_elem_of_here _ _)).
      apply IH; [lia|]. by apply plain_list in Hplain as [? ?].
    + assert (forall y, y ∈ items ->
                Forall (fun c => Json.utf8 c = true)
                  (Json.iterencode y (S level))) as Hitems.
      { intros y Hy.
        pose proof (weight_item (x :: items) y
                      (list_elem_of_further _ _ _ Hy)).
        apply IH; [lia|].
        eapply plain_item; [exact Hplain|by apply list_elem_of_further]. }
      clear -Hitems. induction items as [|y items IHitems]; [constructor|].
      cbn [flat_map]. apply Forall_app. split.
      * apply utf8_item_chunks; [apply utf8_comma|].
        apply Hitems, list_elem_of_here.
      * apply IHitems. intros z Hz. by apply Hitems, list_elem_of_further.
    + repeat constructor. apply utf8_newline_indent.
  - by apply Forall_singleton.
  - rewrite plain_dict in Hplain.
    apply andb_true_iff in Hplain as [_ Hmembers].
    cbn [Json.iterencode].
    apply Forall_app. split; [|apply Forall_app; split;
                                [|apply Forall_app; split]].
    + repeat constructor; [apply utf8_newline_indent|].
      apply utf8_encode_basestring.
      by apply (plain_member _ (key, x) Hmembers), list_elem_of_here.
    + apply utf8_value_chunks.
      pose proof (weight_member ((key, x) :: members) (key, x)
                    (list_elem_of_here _ _)).
      apply IH; [simpl in *; lia|].
      by apply (plain_member _ (key, x) Hmembers), list_elem_of_here.
    + assert (forall m, m ∈ members ->
                Json.utf8 m.1 = true
                /\ Forall (fun c => Json.utf8 c = true)
                     (Json.iterencode m.2 (S level))) as Hms.
      { intros m Hm.
        pose proof (weight_member ((key, x) :: members) m
                      (list_elem_of_further _ _ _ Hm)).
        destruct (plain_member _ m Hmembers (list_elem_of_further _ _ _ Hm))
          as [Hk Hv].
        split; [done|]. apply IH; [lia|done]. }
      clear -Hms. induction members as [|m members IHms]; [constructor|].
      cbn [flat_map]. apply Forall_app. split.
      * destruct (Hms m (list_elem_of_here _ _)) as [Hk Hv].
        apply Forall_app. split.
        -- repeat constructor; [apply utf8_comma|].
           by apply utf8_encode_basestring.
        -- by apply utf8_value_chunks.
      * apply IHms. intros z Hz. by apply Hms, list_elem_of_further.
    + repeat constructor. apply utf8_newline_indent.
Qed.

Lemma utf8_join_chunks chunks :
  Forall (fun c => Json.utf8 c = true) chunks ->
  Json.utf8 (Json.join_chunks chunks) = true.
Proof.
  induction 1 as [|c chunks Hc _ IH]; [done|]. simpl. by apply utf8_app.
Qed.

Lemma write_chunks_all chunks : forall written,
  Forall (fun c => Json.utf8 c = true) chunks ->
  DataFile.write_chunks written chunks
  = {| DataFile.file_text := written +:+ Json.join_chunks chunks;
       DataFile.save_raised := false |}.
Proof.
  induction chunks as [|c chunks IH]; intros written Hall; simpl.
  - by rewrite str_app_nil_r.
  - apply Forall_cons in Hall as [Hc Hall].
    by rewrite Hc, IH, str_app_assoc.
Qed.

(** *** [save_data] and [load_data] on plain values *)

Lemma save_data_plain v :
  plain v = true ->
  DataFile.save_data v
  = {| DataFile.file_text := Json.dumps v; DataFile.save_raised := false |}.
Proof.
  intros Hv. unfold DataFile.save_data.
  rewrite write_chunks_all; [done|].
  by apply (iterencode_utf8 (weight v)).
Qed.

Lemma load_dumps float_repr v :
  plain v = true -> Json.load float_repr (Json.dumps v) = Some v.
Proof.
  intros Hv. unfold Json.load, Json.dumps.
  assert (Json.utf8 (Json.encode v 0) = true) as ->.
  { apply utf8_join_chunks. by apply (iterencode_utf8 (weight v)). }
  unfold Json.loads.
  rewrite <- (str_app_nil_r (Json.encode v 0)) at 2.
  rewrite skip_whitespace_value by (by apply value_start_encode).
  rewrite (scan_once_encode float_repr (weight v)); [done|lia|done| |done].
  pose proof (weight_encode (weight v) v 0 (le_n _) Hv). lia.
Qed.

Lemma plain_history entries :
  Forall (fun e : HistoryEntry =>
            Json.utf8 (timestamp e) && Json.utf8 (change_type e)
            && Json.utf8 (details e) && Json.utf8 (user e) = true) entries ->
  plain (JArr (map history_entry_to_json entries)) = true.
Proof.
  induction 1 as [|e entries He _ IH]; [done|].
  change (plain (history_entry_to_json e)
          && plain (JArr (map history_entry_to_json entries)) = true).
  rewrite IH, andb_true_r.
  apply andb_true_iff in He as [[[Ht Hc]%andb_true_iff Hd]%andb_true_iff Hu].
  unfold history_entry_to_json. rewrite plain_dict.
  apply andb_true_iff. split; [by vm_compute|].
  unfold plain_members. simpl. by rewrite Ht, Hc, Hd, Hu.
Qed.

Lemma plain_file_versions versions :
  Forall (fun v : FileVersion =>
            Json.utf8 (v_filename v) && Json.utf8 (original_name v)
            && Json.utf8 (v_timestamp v) = true) versions ->
  plain (JArr (map file_version_to_json versions)) = true.
Proof.
  induction 1 as [|e versions He _ IH]; [done|].
  change (plain (file_version_to_json e)
          && plain (JArr (map file_version_to_json versions)) = true).
  rewrite IH, andb_true_r.
  apply andb_true_iff in He as [[Hf Ho]%andb_true_iff Ht].
  unfold file_version_to_json. rewrite plain_dict.
  apply andb_true_iff. split; [by vm_compute|].
  unfold plain_members. simpl. by rewrite Hf, Ho, Ht.
Qed.

Lemma plain_instruction i :
  encodable i = true -> plain (instruction_to_json i) = true.
Proof.
  unfold encodable. rewrite !andb_true_iff, !forallb_forall.
  intros [[[[[[[[[Hid Ht] Hd] Hr] Hl] Hp] He] Hf] Hh] Hv].
  unfold instruction_to_json. rewrite plain_dict.
  apply andb_true_iff. split; [by vm_compute|].
  unfold plain_members. cbn [forallb fst snd].
  change (plain (JStr ?s)) with (Json.utf8 s).
  rewrite Hid, Ht, Hd, Hr, Hl, Hp, He.
  rewrite plain_history, plain_file_versions.
  - destruct (filename i); simpl; [by rewrite Hf|done].
  - apply Forall_forall. intros v Hin. apply Hv, list_elem_of_In, Hin.
  - apply Forall_forall. intros e Hin. apply Hh, list_elem_of_In, Hin.
Qed.

Lemma plain_collection data :
  Forall (fun i => encodable i = true) data ->
  plain (collection_to_json data) = true.
Proof.
  unfold collection_to_json.
  induction 1 as [|i data Hi _ IH]; [done|].
  change (plain (instruction_to_json i)
          && plain (JArr (map instruction_to_json data)) = true).
  by rewrite plain_instruction, IH.
Qed.
(** *** What the decoder returns *)

Lemma dict_set_keys key value members :
  NoDup members.*1 -> NoDup (Json.dict_set key value members).*1.
Proof.
  induction members as [|[k v] members IH]; simpl.
  - intros _. apply NoDup_singleton.
  - intros [Hk Hrest]%NoDup_cons. destruct (String.eqb_spec k key) as [->|Hne].
    + simpl. by apply NoDup_cons.
    + simpl. apply NoDup_cons. split; [|by apply IH].
      intros Hin. apply Hk. clear -Hin Hne.
      induction members as [|[k' v'] members IH]; simpl in *.
      * apply list_elem_of_singleton in Hin. congruence.
      * destruct (String.eqb_spec k' key) as [->|Hne']; [done|].
        simpl in Hin. apply elem_of_cons in Hin as [->|Hin];
          [apply list_elem_of_here|apply list_elem_of_further, IH, Hin].
Qed.

Lemma dict_set_values (P : json -> Prop) key value members :
  P value -> Forall (fun m => P m.2) members ->
  Forall (fun m => P m.2) (Json.dict_set key value members).
Proof.
  intros Hv. induction 1 as [|[k v] members Hm Hall IH]; simpl.
  - by apply Forall_singleton.
  - destruct (String.eqb k key); apply Forall_cons; by split.
Qed.

Lemma reads_plain_list items :
  Forall reads_plain items -> reads_plain (JArr items).
Proof.
  unfold reads_plain. induction 1 as [|x items Hx _ IH]; [done|].
  change (writable x && writable (JArr items) = true ->
          plain x && plain (JArr items) = true).
  intros [Hwx Hw]%andb_true_iff. by rewrite Hx, IH.
Qed.

Lemma reads_plain_dict members :
  NoDup members.*1 -> Forall (fun m => reads_plain m.2) members ->
  reads_plain (JObj members).
Proof.
  unfold reads_plain. intros Hkeys Hall. rewrite plain_dict.
  rewrite bool_decide_eq_true_2 by done. clear Hkeys. simpl andb.
  induction Hall as [|m members Hm _ IH]; [done|].
  change (Json.utf8 m.1 && writable m.2 && writable (JObj members) = true ->
          Json.utf8 m.1 && plain m.2 && plain_members members = true).
  intros [[Hk Hw]%andb_true_iff Hrest]%andb_true_iff.
  rewrite Hk, Hm by done. by apply IH.
Qed.

Lemma match_number_plain float_repr s v rest :
  Json.match_number float_repr s = Some (v, rest) -> reads_plain v.
Proof.
  unfold Json.match_number.
  destruct (Json.sign_part s) as [sign s1].
  destruct (Json.integer_part s1) as [[u after]|]; [|done].
  destruct (Json.fraction_part after) as [frac after1].
  destruct (Json.exponent_part after1) as [exp after2].
  destruct (Str.truthy frac || Str.truthy exp); intros [= <- _]; by unfold reads_plain.
Qed.

Lemma scan_once_plain float_repr fuel :
  (forall s v rest,
     Json.scan_once float_repr fuel s = Some (v, rest) -> reads_plain v)
  /\ (forall s items rest,
        Json.parse_items float_repr fuel s = Some (items, rest) ->
        Forall reads_plain items)
  /\ (forall acc s members rest,
        Json.parse_members float_repr fuel acc s = Some (members, rest) ->
        NoDup acc.*1 -> Forall (fun m => reads_plain m.2) acc ->
        NoDup members.*1 /\ Forall (fun m => reads_plain m.2) members).
Proof.
  induction fuel as [|fuel (IHv & IHi & IHm)]; [done|].
  split; [|split].
  - intros s v rest. cbn [Json.scan_once].
    destruct s as [|c s']; [done|].
    destruct (Ascii.eqb c Json.quote).
    { destruct (Json.scanstring s') as [[text after]|]; [|done].
      by intros [= <- _]; unfold reads_plain. }
    destruct (Ascii.eqb c "{").
    { destruct (Json.skip_whitespace s') as [|d after]; [done|].
      destruct (Ascii.eqb d "}"); [by intros [= <- _]; unfold reads_plain|].
      destruct (Json.parse_members float_repr fuel [] (String d after))
        as [[members after']|] eqn:Hm; [|done].
      intros [= <- _].
      destruct (IHm _ _ _ _ Hm) as [Hkeys Hall];
        [apply NoDup_nil_2|apply Forall_nil_2|].
      by apply reads_plain_dict. }
    destruct (Ascii.eqb c "[").
    { destruct (Json.skip_whitespace s') as [|d after]; [done|].
      destruct (Ascii.eqb d "]"); [by intros [= <- _]; unfold reads_plain|].
      destruct (Json.parse_items float_repr fuel (String d after))
        as [[items after']|] eqn:Hi; [|done].
      intros [= <- _]. apply reads_plain_list. by eapply IHi. }
    destruct (String.prefix "null" (String c s')); [by intros [= <- _]; unfold reads_plain|].
    destruct (String.prefix "true" (String c s')); [by intros [= <- _]; unfold reads_plain|].
    destruct (String.prefix "false" (String c s')); [by intros [= <- _]; unfold reads_plain|].
    destruct (String.prefix "NaN" (String c s')); [by intros [= <- _]; unfold reads_plain|].
    destruct (String.prefix "Infinity" (String c s')); [by intros [= <- _]; unfold reads_plain|].
    destruct (String.prefix "-Infinity" (String c s')); [by intros [= <- _]; unfold reads_plain|].
    apply match_number_plain.
  - intros s items rest. cbn [Json.parse_items].
    destruct (Json.scan_once float_repr fuel s) as [[value after]|] eqn:Hv;
      [|done].
    destruct (Json.skip_whitespace after) as [|d after1]; [done|].
    destruct (Ascii.eqb d "]").
    { intros [= <- _]. apply Forall_singleton. by eapply IHv. }
    destruct (Ascii.eqb d ","); [|done].
    destruct (Json.parse_items float_repr fuel (Json.skip_whitespace after1))
      as [[items' after2]|] eqn:Hi; [|done].
    intros [= <- _]. apply Forall_cons. split; [by eapply IHv|by eapply IHi].
  - intros acc s members rest. cbn [Json.parse_members].
    destruct s as [|c s']; [done|].
    destruct (Ascii.eqb c Json.quote); [|done].
    destruct (Json.scanstring s') as [[key after]|]; [|done].
    destruct (Json.skip_whitespace after) as [|colon after1]; [done|].
    destruct (Ascii.eqb colon ":"); [|done].
    destruct (Json.scan_once float_repr fuel (Json.skip_whitespace after1))
      as [[value after2]|] eqn:Hv; [|done].
    destruct (Json.skip_whitespace after2) as [|d after3]; [done|].
    intros Hm Hkeys Hall.
    assert (NoDup (Json.dict_set key value acc).*1) as Hkeys'
      by by apply dict_set_keys.
    assert (Forall (fun m => reads_plain m.2) (Json.dict_set key value acc))
      as Hall' by (apply dict_set_values; [by eapply IHv|done]).
    destruct (Ascii.eqb d "}"); [by injection Hm as <- _|].
    destruct (Ascii.eqb d ","); [|done].
    by eapply IHm.
Qed.

Lemma load_plain float_repr text v :
  Json.load float_repr text = Some v -> writable v = true -> plain v = true.
Proof.
  unfold Json.load, Json.loads.
  destruct (Json.utf8 text); [|done].
  destruct (Json.scan_once float_repr (S (String.length text))
              (Json.skip_whitespace text)) as [[v' after]|] eqn:Hv; [|done].
  destruct (Json.skip_whitespace after); [|done].
  intros [= <-]. by eapply scan_once_plain.
Qed.

Lemma load_data_plain float_repr data_file :
  writable (DataFile.load_data float_repr data_file) = true ->
  plain (DataFile.load_data float_repr data_file) = true.
Proof.
  unfold DataFile.load_data, load_data.
  destruct data_file as [text|]; [|done].
  destruct (Json.load float_repr text) as [v|] eqn:Hv; [|done].
  by apply (load_plain float_repr text).
Qed.

(** *** The model beside CPython on sample data *)

Lemma iterencode_nested :
  Json.iterencode Sample.nested 0 = Sample.nested_chunks.
Proof. vm_compute. reflexivity. Qed.

(** The first [save_data(load_data())] on a file written by hand lays
    the collection out as [json.dump] does; of a key given twice the
    first place and the last value stay. *)
Lemma resave_by_hand :
  DataFile.resave Sample.as_written (Some Sample.by_hand)
  = {| DataFile.file_text := Sample.by_hand_resaved;
       DataFile.save_raised := false |}.
Proof. vm_compute. reflexivity. Qed.

(** *** Saving what was loaded *)





(** ** Selection on the edit page *)

Lemma instruction_options_app data1 data2 :
  instruction_options (data1 ++ data2)
  = foldl (fun m item => <[title item := id item]> m)
      (instruction_options data1) data2.
Proof. unfold instruction_options. apply foldl_app. Qed.

Lemma options_untitled (m : gmap string string) data t :
  (forall x, x ∈ data -> title x <> t) ->
  foldl (fun m item => <[title item := id item]> m) m data !! t = m !! t.
Proof.
  revert m. induction data as [|x data IH]; intros m Hno; [done|].
  simpl. rewrite IH.
  - apply lookup_insert_ne. apply Hno. left.
  - intros y Hy. apply Hno. by right.
Qed.

(** The title picked in the selectbox leads to the last record that
    carries it: in a collection with distinct ids, the record selected
    for a title is the last one with that title, so an earlier record
    sharing its title with a later one cannot be opened; a title no
    record carries, or the empty title, selects nothing. *)
Theorem selected_last_titled before record after :
  NoDup (map id (before ++ record :: after)) ->
  Str.truthy (title record) = true ->
  (forall x, x ∈ after -> title x <> title record) ->
  selected (title record) (before ++ record :: after)
  = Some (length before, record)
  /\ (forall t,
       (forall x, x ∈ before ++ record :: after -> title x <> t) ->
       selected t (before ++ record :: after) = None).
Proof.
  intros Hids Ht Hlast. split.
  - unfold selected. rewrite Ht. simpl.
    rewrite instruction_options_app. simpl.
    rewrite options_untitled by done. rewrite lookup_insert_eq.
    unfold find_by_id. apply list_find_Some. split; [|split; [done|]].
    + by rewrite lookup_app_r, Nat.sub_diag.
    + intros j y Hj Hlt Hy.
      rewrite map_app in Hids. simpl in Hids.
      apply NoDup_app in Hids as (_ & Hdisj & _).
      rewrite lookup_app_l in Hj by done.
      apply (Hdisj (id y)).
      * apply list_elem_of_fmap. exists y. split; [done|].
        by eapply list_elem_of_lookup_2.
      * rewrite Hy. left.
  - intros t Hno. unfold selected.
    destruct (Str.truthy t); [|done]. simpl.
    unfold instruction_options. rewrite options_untitled by done.
    by rewrite lookup_empty.
Qed.

Lemma selected_last_titled_witness :
  selected (title Demo.twin) ([Sample.hr_record] ++ Demo.twin :: [])
  = Some (length [Sample.hr_record], Demo.twin)
  /\ (forall t,
       (forall x, x ∈ [Sample.hr_record] ++ Demo.twin :: [] -> title x <> t) ->
       selected t ([Sample.hr_record] ++ Demo.twin :: []) = None).
Proof.
  apply (selected_last_titled [Sample.hr_record] Demo.twin []).
  - simpl. apply NoDup_cons. split; [|apply NoDup_singleton].
    intros Hin%list_elem_of_singleton. discriminate Hin.
  - reflexivity.
  - intros x Hx. by apply elem_of_nil in Hx.
Defined.

(** ** What an update leaves alone *)

Lemma archive_current_grows clock faults i files i' files' :
  ends_in (archive_current clock faults i files) (i', files') ->
  file_versions i `prefix_of` file_versions i'
  /\ (length (file_versions i') <= S (length (file_versions i)))%nat.
Proof.
  unfold archive_current, ends_in.
  intros [H|H]; repeat case_match; simplify_eq; simpl;
    (split; [try done; by apply prefix_app_r | rewrite ?length_app; simpl; lia]).
Qed.

Lemma replace_file_grows clock faults up i files i' files' :
  ends_in (replace_file clock faults up i files) (i', files') ->
  id i' = id i
  /\ history i `prefix_of` history i'
  /\ file_versions i `prefix_of` file_versions i'
  /\ (length (file_versions i') <= S (length (file_versions i)))%nat.
Proof.
  unfold replace_file. intros Hend.
  destruct (archive_current clock faults i files) as [|m|[i1 f1]|[i1 f1]] eqn:Ha.
  - destruct Hend; discriminate.
  - destruct Hend; discriminate.
  - destruct Hend as [|[= <- <-]]; [discriminate|].
    destruct (archive_current_keeps clock faults i files i1 f1)
      as (Hid & _ & _ & Hh); [by right|].
    destruct (archive_current_grows clock faults i files i1 f1)
      as (Hp & Hl); [by right|].
    rewrite Hh. done.
  - destruct (archive_current_keeps clock faults i files i1 f1)
      as (Hid & _ & _ & Hh); [by left|].
    destruct (archive_current_grows clock faults i files i1 f1)
      as (Hp & Hl); [by left|].
    destruct (faults CallWrite).
    + destruct Hend as [|[= <- <-]]; [discriminate|]. by rewrite Hh.
    + destruct Hend as [[= <- <-]|]; [|discriminate]. simpl.
      rewrite Hh. split; [done|]. split; [by apply prefix_app_r|done].
Qed.

Lemma update_instruction_grows clock faults form i files i' files' :
  ends_in (update_instruction clock faults form i files) (i', files') ->
  id i' = id i
  /\ history i `prefix_of` history i'
  /\ file_versions i `prefix_of` file_versions i'
  /\ (length (file_versions i') <= S (length (file_versions i)))%nat.
Proof.
  unfold update_instruction. intros Hend.
  destruct (all_filled form); simpl in Hend; [|destruct Hend; discriminate].
  set (i0 := match changes i form with [] => _ | _ => _ end) in Hend.
  assert (id i0 = id i /\ history i `prefix_of` history i0
          /\ file_versions i0 = file_versions i) as (Hid0 & Hh0 & Hv0).
  { subst i0. destruct (changes i form); simpl;
      (split; [done|split; [try done; by apply prefix_app_r|done]]). }
  destruct (uploaded_file form) as [up|].
  - destruct (replace_file_grows _ _ _ _ _ _ _ Hend) as (Hid & Hh & Hv & Hl).
    rewrite Hv0 in Hv, Hl.
    split; [congruence|]. split; [by etrans|]. done.
  - destruct Hend as [[= <- <-]|]; [|discriminate].
    rewrite Hv0. split; [done|]. split; [done|]. split; [done|lia].
Qed.

(** How a run of the update branch ends: with the collection untouched
    (the form could not be drawn), or with the selected record replaced,
    in place, by what [update_instruction] made of it. *)
Lemma update_branch_ends clock faults selected_title confirm_delete form data
    files i instruction s' :
  selected selected_title data = Some (i, instruction) ->
  ends_in (edit_instruction clock faults selected_title UpdateButton
             confirm_delete form data files) s' ->
  s' = (data, files)
  \/ exists instruction' files',
       ends_in (update_instruction clock faults form instruction files)
         (instruction', files')
       /\ s' = (<[i := instruction']> data, files').
Proof.
  intros Hsel Hend. unfold edit_instruction in Hend. rewrite Hsel in Hend.
  destruct data as [|d0 data0] eqn:Hdata; [destruct Hend; discriminate|].
  rewrite <- Hdata in *. clear Hdata d0 data0.
  destruct (form_renders instruction); simpl in Hend;
    [|left; by destruct Hend as [|[= <-]]].
  destruct (update_instruction clock faults form instruction files)
    as [|m|[i1 f1]|[i1 f1]] eqn:Hu; try (destruct Hend; discriminate).
  - destruct Hend as [|[= <-]]; [discriminate|].
    right. exists i1, f1. split; [by right|done].
  - destruct Hend as [[= <-]|]; [|discriminate].
    right. exists i1, f1. split; [by left|done].
Qed.

(** However a run of the update branch ends (saved, rejected by the
    validation, or cut short by an exception), the collection keeps its
    length, its ids and their order, and every record other than the
    selected one is exactly as it was. *)
Theorem update_frame clock faults selected_title confirm_delete form data
    files i instruction s' :
  selected selected_title data = Some (i, instruction) ->
  ends_in (edit_instruction clock faults selected_title UpdateButton
             confirm_delete form data files) s' ->
  length s'.1 = length data
  /\ map id s'.1 = map id data
  /\ forall j : nat, j <> i -> s'.1 !! j = data !! j.
Proof.
  intros Hsel Hend.
  pose proof (selected_lookup _ _ _ _ Hsel) as Hl.
  destruct (update_branch_ends _ _ _ _ _ _ _ _ _ _ Hsel Hend)
    as [->|(i1 & f1 & Hu & ->)]; [done|]. simpl.
  destruct (update_instruction_grows _ _ _ _ _ _ _ Hu) as (Hid & _).
  rewrite length_insert. split; [done|]. split.
  - rewrite list_fmap_insert, Hid. apply list_insert_id.
    by rewrite list_lookup_fmap, Hl.
  - intros j Hj. by apply list_lookup_insert_ne.
Qed.

Lemma update_frame_witness :
  length Demo.moved.1 = length [Sample.hr_record; Demo.twin]
  /\ map id Demo.moved.1 = map id [Sample.hr_record; Demo.twin]
  /\ forall j : nat, j <> 1%nat ->
       Demo.moved.1 !! j = [Sample.hr_record; Demo.twin] !! j.
Proof.
  apply (update_frame Sample.clock no_faults "HR Policy" false
           Sample.moved_form [Sample.hr_record; Demo.twin]
           Sample.policy_files 1%nat Demo.twin Demo.moved).
  - vm_compute. reflexivity.
  - left. vm_compute. reflexivity.
Defined.

(** The audit trail is append-only: however a run of the update branch
    ends, the selected record keeps its id, its earlier history is the
    beginning of its history afterwards, and so is its list of file
    versions, which gains at most one entry. *)
Theorem update_appends_only clock faults selected_title confirm_delete form
    data files i instruction s' :
  selected selected_title data = Some (i, instruction) ->
  ends_in (edit_instruction clock faults selected_title UpdateButton
             confirm_delete form data files) s' ->
  exists instruction',
    s'.1 !! i = Some instruction'
    /\ id instruction' = id instruction
    /\ history instruction `prefix_of` history instruction'
    /\ file_versions instruction `prefix_of` file_versions instruction'
    /\ (length (file_versions instruction')
        <= S (length (file_versions instruction)))%nat.
Proof.
  intros Hsel Hend. unfold edit_instruction in Hend. rewrite Hsel in Hend.
  pose proof (selected_lookup _ _ _ _ Hsel) as Hl.
  pose proof (lookup_lt_Some _ _ _ Hl) as Hlt.
  destruct data as [|d0 data0] eqn:Hdata; [destruct Hend; discriminate|].
  rewrite <- Hdata in *. clear Hdata d0 data0.
  destruct (form_renders instruction); simpl in Hend.
  2: { destruct Hend as [|[= <-]]; [discriminate|]. simpl.
       exists instruction. split; [done|]. split; [done|].
       split; [done|]. split; [done|lia]. }
  destruct (update_instruction clock faults form instruction files)
    as [|m|[i1 f1]|[i1 f1]] eqn:Hu; try (destruct Hend; discriminate).
  - destruct Hend as [|[= <-]]; [discriminate|]. simpl.
    exists i1. split; [by apply list_lookup_insert_eq|].
    eapply update_instruction_grows. right. exact Hu.
  - destruct Hend as [[= <-]|]; [|discriminate]. simpl.
    exists i1. split; [by apply list_lookup_insert_eq|].
    eapply update_instruction_grows. left. exact Hu.
Qed.

Lemma update_appends_only_witness :
  exists instruction',
    Demo.moved.1 !! 1%nat = Some instruction'
    /\ id instruction' = id Demo.twin
    /\ history Demo.twin `prefix_of` history instruction'
    /\ file_versions Demo.twin `prefix_of` file_versions instruction'
    /\ (length (file_versions instruction')
        <= S (length (file_versions Demo.twin)))%nat.
Proof.
  apply (update_appends_only Sample.clock no_faults "HR Policy" false
           Sample.moved_form [Sample.hr_record; Demo.twin]
           Sample.policy_files 1%nat Demo.twin Demo.moved).
  - vm_compute. reflexivity.
  - left. vm_compute. reflexivity.
Defined.

(** Ids stay distinct through every run of the edit page: an update
    keeps the ids as they are, a delete only takes one away. *)
Theorem edit_keeps_ids_distinct clock faults selected_title button
    confirm_delete form data files s' :
  NoDup (map id data) ->
  ends_in (edit_instruction clock faults selected_title button confirm_delete
             form data files) s' ->
  NoDup (map id s'.1).
Proof.
  intros Hids Hend.
  destruct (selected selected_title data) as [[i ins]|] eqn:Hsel.
  2: { unfold edit_instruction in Hend. rewrite Hsel in Hend.
       destruct data; destruct Hend; discriminate. }
  destruct button.
  - pose proof (selected_lookup _ _ _ _ Hsel) as Hl.
    destruct (update_branch_ends _ _ _ _ _ _ _ _ _ _ Hsel Hend)
      as [->|(i1 & f1 & Hu & ->)]; [done|]. simpl.
    destruct (update_instruction_grows _ _ _ _ _ _ _ Hu) as (Hid & _).
    rewrite list_fmap_insert, Hid, list_insert_id; [done|].
    by rewrite list_lookup_fmap, Hl.
  - unfold edit_instruction in Hend. rewrite Hsel in Hend.
    destruct data as [|d0 data0] eqn:Hdata; [destruct Hend; discriminate|].
    rewrite <- Hdata in *. clear Hdata d0 data0.
    destruct (form_renders ins); simpl in Hend;
      [|by destruct Hend as [|[= <-]]].
    destruct confirm_delete; [|destruct Hend; discriminate].
    refine (sublist_NoDup _ _ Hids _).
    change (map id) with (fmap (M:=list) id).
    apply fmap_sublist. eauto using delete_instruction_sublist.
Qed.

Lemma edit_keeps_ids_distinct_witness :
  NoDup (map id Demo.moved.1).
Proof.
  apply (edit_keeps_ids_distinct Sample.clock no_faults "HR Policy"
           UpdateButton false Sample.moved_form
           [Sample.hr_record; Demo.twin] Sample.policy_files Demo.moved).
  - simpl. apply NoDup_cons. split; [|apply NoDup_singleton].
    intros Hin%list_elem_of_singleton. discriminate Hin.
  - left. vm_compute. reflexivity.
Defined.

(** ** Staleness over time *)

Lemma stale_later now later last_update_date months months' :
  Calendar.instant now <= Calendar.instant later ->
  months' <= months ->
  stale now last_update_date months -> stale later last_update_date months'.
Proof.
  unfold stale. intros Ht Hm. destruct last_update_date as [s|]; [|done].
  intros [->|H]; [by left|]. right.
  destruct (Calendar.strptime s); [|done].
  unfold Calendar.USEC_PER_DAY in *. lia.
Qed.

Lemma is_outdated_default_stale now last_update_date :
  Calendar.valid now -> 360 < Calendar.ordinal now ->
  is_outdated now last_update_date DEFAULT_MONTHS_THRESHOLD = true
  <-> stale now last_update_date DEFAULT_MONTHS_THRESHOLD.
Proof.
  intros Hnow Hpast. rewrite is_outdated_iff by done.
  assert (representable now (DEFAULT_MONTHS_THRESHOLD * 30)).
  { destruct Hnow as [Ho _]. unfold representable, DEFAULT_MONTHS_THRESHOLD. lia. }
  tauto.
Qed.

(** Staleness never reverts.  A record that [is_outdated] reports
    at some reading of the clock is reported at every later reading, and
    under every smaller threshold, as long as the threshold date of the
    first reading is not before year 1. *)
Theorem is_outdated_monotone now later last_update_date months months' :
  Calendar.valid now -> Calendar.valid later ->
  Calendar.instant now <= Calendar.instant later ->
  months' <= months ->
  1 <= Calendar.ordinal now - months * 30 ->
  is_outdated now last_update_date months = true ->
  is_outdated later last_update_date months' = true.
Proof.
  intros Hnow Hlater Ht Hm Hlo.
  rewrite !is_outdated_iff by done.
  intros [H|H]; [left; eauto using stale_later|].
  right. unfold representable in *.
  destruct Hnow as [_ Hu], Hlater as [_ Hu'].
  unfold Calendar.instant, Calendar.USEC_PER_DAY in *. lia.
Qed.

Lemma is_outdated_monotone_witness :
  is_outdated Demo.next_day (Some "2023-01-01") 6 = true.
Proof.
  apply (is_outdated_monotone Sample.noon Demo.next_day (Some "2023-01-01") 12 6).
  - unfold Calendar.valid, Calendar.MAXORDINAL, Calendar.USEC_PER_DAY; simpl; lia.
  - unfold Calendar.valid, Calendar.MAXORDINAL, Calendar.USEC_PER_DAY; simpl; lia.
  - unfold Calendar.instant, Calendar.USEC_PER_DAY; simpl; lia.
  - lia.
  - simpl; lia.
  - reflexivity.
Defined.

(** ** Stored dates *)

Lemma digit_digit_char n : 0 <= n <= 9 -> Calendar.digit (digit_char n) = Some n.
Proof.
  intros H.
  assert (Forall (fun n => Calendar.digit (digit_char n) = Some n)
            (seqZ 0 10)) as Hall.
  { by apply (bool_decide_unpack _). }
  rewrite Forall_forall in Hall. apply Hall, elem_of_seqZ. lia.
Qed.

Lemma parse_month_two_digits m rest :
  1 <= m <= 12 ->
  Calendar.parse_month
    (digit_char (m / 10) :: digit_char (m mod 10) :: "-"%char :: rest)
  = Some (m, rest).
Proof.
  intros H.
  assert (Forall (fun m => forall rest,
                    Calendar.parse_month
                      (digit_char (m / 10) :: digit_char (m mod 10)
                       :: "-"%char :: rest)
                    = Some (m, rest)) (seqZ 1 12)) as Hall.
  { let months := eval vm_compute in (seqZ 1 12) in
    change (seqZ 1 12) with months.
    repeat (apply Forall_cons; split; [intros ?; reflexivity|]).
    apply Forall_nil_2. }
  rewrite Forall_forall in Hall. apply Hall, elem_of_seqZ. lia.
Qed.

Lemma parse_day_two_digits d :
  1 <= d <= 31 ->
  Calendar.parse_day [digit_char (d / 10); digit_char (d mod 10)] = Some d.
Proof.
  intros H.
  assert (Forall (fun d => Calendar.parse_day
                             [digit_char (d / 10); digit_char (d mod 10)]
                           = Some d) (seqZ 1 31)) as Hall.
  { by apply (bool_decide_unpack _). }
  rewrite Forall_forall in Hall. apply Hall, elem_of_seqZ. lia.
Qed.

Lemma days_in_month_le y m : Calendar.days_in_month y m <= 31.
Proof. unfold Calendar.days_in_month. repeat case_match; lia. Qed.

Lemma make_date_Some y m d t :
  Calendar.make_date y m d = Some t ->
  1 <= y <= 9999 /\ 1 <= m <= 12 /\ 1 <= d <= Calendar.days_in_month y m
  /\ t = {| Calendar.ordinal := Calendar.ymd2ord y m d; Calendar.usec := 0 |}.
Proof.
  unfold Calendar.make_date, Calendar.MINYEAR, Calendar.MAXYEAR.
  case_match eqn:E; [|discriminate]. intros [= <-].
  rewrite !andb_true_iff, !Z.leb_le in E. intuition lia.
Qed.

(** On two-digit months and days and four-digit years, [strptime]
    reads what [strftime] wrote and hands it to the [datetime]
    constructor. *)
Lemma strptime_digits y m d :
  1000 <= y <= 9999 -> 1 <= m <= 12 -> 1 <= d <= 31 ->
  Calendar.strptime (strftime_date y m d) = Calendar.make_date y m d.
Proof.
  intros Hy Hm Hd.
  unfold Calendar.strptime, strftime_date.
  rewrite list_ascii_of_string_of_list_ascii.
  change (Ascii.eqb "-" "-") with true. cbv iota beta.
  rewrite !digit_digit_char by (Z.div_mod_to_equations; lia).
  cbn [mbind option_bind]. rewrite parse_month_two_digits by done.
  cbn [mbind option_bind]. rewrite parse_day_two_digits by done.
  cbn [mbind option_bind]. f_equal.
  Z.div_mod_to_equations. lia.
Qed.

Lemma calendar_day_digits y m d :
  calendar_day y m d -> 1000 <= y <= 9999 /\ 1 <= m <= 12 /\ 1 <= d <= 31.
Proof.
  intros [Hy [t Ht]].
  destruct (make_date_Some _ _ _ _ Ht) as (Hy' & Hm & Hd & _).
  pose proof (days_in_month_le y m). lia.
Qed.

(** The stored form of a date reads back as the date: for every
    day of the calendar from year 1000 on, [strptime] with "%Y-%m-%d"
    applied to what [strftime] with "%Y-%m-%d" wrote returns that day at
    midnight. *)
Theorem strptime_strftime y m d t :
  1000 <= y ->
  Calendar.make_date y m d = Some t ->
  Calendar.strptime (strftime_date y m d) = Some t.
Proof.
  intros Hy Ht.
  destruct (calendar_day_digits y m d) as (Hy' & Hm & Hd).
  { split; [done|by exists t]. }
  rewrite strptime_digits by done. exact Ht.
Qed.

Lemma strptime_strftime_witness :
  Calendar.strptime (strftime_date 2024 2 29)
  = Some {| Calendar.ordinal := 738945; Calendar.usec := 0 |}.
Proof.
  apply (strptime_strftime 2024 2 29); [lia | reflexivity].
Defined.

Lemma truthy_strftime_date y m d : Str.truthy (strftime_date y m d) = true.
Proof. reflexivity. Qed.

(** When a record stops being current, by the calendar.  For a
    last update on day D stored by the form, and the default threshold
    of 12 months, [is_outdated] answers [True] from the first instant
    after midnight of day D + 360 on: during the 360 days after D and at
    the midnight that starts day D + 360 the record is current. *)
Theorem is_outdated_from_day_360 now y m d t :
  Calendar.valid now -> 360 < Calendar.ordinal now ->
  1000 <= y -> Calendar.make_date y m d = Some t ->
  is_outdated now (Some (strftime_date y m d)) DEFAULT_MONTHS_THRESHOLD = true
  <-> Calendar.ordinal t + 360 < Calendar.ordinal now
      \/ (Calendar.ordinal t + 360 = Calendar.ordinal now
          /\ 0 < Calendar.usec now).
Proof.
  intros Hnow Hpast Hy Ht.
  unfold is_outdated. rewrite truthy_strftime_date. simpl negb. cbv iota.
  destruct (calendar_day_digits y m d) as (Hy' & Hm & Hd).
  { split; [done|by exists t]. }
  rewrite strptime_digits, Ht by done.
  change (Calendar.timedelta_days (DEFAULT_MONTHS_THRESHOLD * 30))
    with (Some 360).
  cbv iota beta. rewrite sub_days_spec.
  destruct Hnow as [Ho Hu].
  rewrite bool_decide_true by (unfold representable; lia).
  unfold Calendar.lt. simpl.
  rewrite (make_date_midnight _ _ _ _ Ht).
  rewrite orb_true_iff, andb_true_iff, !Z.ltb_lt, Z.eqb_eq. lia.
Qed.

Lemma is_outdated_from_day_360_witness :
  is_outdated {| Calendar.ordinal := 739038; Calendar.usec := 0 |}
    (Some (strftime_date 2023 6 7)) DEFAULT_MONTHS_THRESHOLD = false
  /\ is_outdated {| Calendar.ordinal := 739038; Calendar.usec := 1 |}
       (Some (strftime_date 2023 6 7)) DEFAULT_MONTHS_THRESHOLD = true.
Proof.
  split.
  - apply not_true_is_false.
    rewrite (is_outdated_from_day_360 _ 2023 6 7
               {| Calendar.ordinal := 738678; Calendar.usec := 0 |}).
    + simpl. lia.
    + unfold Calendar.valid, Calendar.MAXORDINAL, Calendar.USEC_PER_DAY;
        simpl; lia.
    + simpl; lia.
    + lia.
    + reflexivity.
  - apply (is_outdated_from_day_360 _ 2023 6 7
             {| Calendar.ordinal := 738678; Calendar.usec := 0 |}).
    + unfold Calendar.valid, Calendar.MAXORDINAL, Calendar.USEC_PER_DAY;
        simpl; lia.
    + simpl; lia.
    + lia.
    + reflexivity.
    + right. simpl. lia.
Defined.

(** ** Records the forms have saved can be opened again *)

Lemma date_input_parses y m d :
  calendar_day y m d ->
  is_Some (Calendar.strptime (strftime_ymd (date_input y m d))).
Proof.
  intros Hday. destruct (calendar_day_digits _ _ _ Hday) as (Hy & Hm & Hd).
  simpl. rewrite strptime_digits by done. apply Hday.
Qed.

Lemma form_renders_dates form i :
  calendar_dates form ->
  registration_date i = strftime_ymd (form_registration_date form) ->
  last_update i = strftime_ymd (form_last_update form) ->
  form_renders i = true.
Proof.
  intros [(y & m & d & Hday & Hr) (y' & m' & d' & Hday' & Hl)] Hri Hli.
  unfold form_renders. rewrite Hri, Hli, Hr, Hl.
  rewrite !bool_decide_true by (by apply date_input_parses). done.
Qed.

Lemma update_instruction_dates clock faults form i files i' files' :
  ends_in (update_instruction clock faults form i files) (i', files') ->
  registration_date i' = strftime_ymd (form_registration_date form)
  /\ last_update i' = strftime_ymd (form_last_update form).
Proof.
  unfold update_instruction, replace_file, archive_current, ends_in.
  intros [H|H]; repeat case_match; simplify_eq; done.
Qed.

(** The edit page presets its date widgets by parsing the record's two
    stored dates, and fails when one does not parse.  That never happens
    to what the forms themselves wrote: if every record of the
    collection can be opened, then after any run of the add page or of
    the edit page with a form whose date widgets hold calendar days
    (year 1000 or later), however the run ends, every record can still
    be opened. *)
Theorem saved_records_reopen uuid clock faults selected_title button
    confirm_delete form data files s' :
  calendar_dates form ->
  Forall (fun i => form_renders i = true) data ->
  ends_in (add_instruction uuid clock faults form data files) s'
  \/ ends_in (edit_instruction clock faults selected_title button
                confirm_delete form data files) s' ->
  Forall (fun i => form_renders i = true) s'.1.
Proof.
  intros Hform Hdata [Hend|Hend].
  - unfold add_instruction, ends_in in Hend.
    destruct Hend as [H|H]; repeat case_match; simplify_eq; simpl;
      try done; apply Forall_app; (split; [done|]);
      apply Forall_singleton; by apply (form_renders_dates form).
  - unfold edit_instruction in Hend.
    destruct data as [|x data]; [destruct Hend; discriminate|].
    destruct (selected selected_title (x :: data)) as [[i instruction]|];
      [|destruct Hend; discriminate].
    destruct (form_renders instruction); simpl in Hend;
      [|destruct Hend as [|[= <-]]; [discriminate|done]].
    destruct button.
    + destruct (update_instruction clock faults form instruction files)
        as [|m|[i' f']|[i' f']] eqn:Hu;
        try (destruct Hend; discriminate).
      * destruct Hend as [|[= <-]]; [discriminate|]. simpl.
        apply Forall_insert; [done|].
        destruct (update_instruction_dates clock faults form instruction
                    files i' f') as [Hr Hl]; [by right|].
        by apply (form_renders_dates form).
      * destruct Hend as [[= <-]|]; [|discriminate]. simpl.
        apply Forall_insert; [done|].
        destruct (update_instruction_dates clock faults form instruction
                    files i' f') as [Hr Hl]; [by left|].
        by apply (form_renders_dates form).
    + destruct confirm_delete; [|destruct Hend; discriminate].
      pose proof (delete_instruction_sublist _ _ _ _ _ Hend) as Hsub.
      rewrite Forall_forall in Hdata |- *.
      intros y Hy. apply Hdata. by eapply elem_of_sublist.
Qed.

Lemma saved_records_reopen_witness :
  Forall (fun i => form_renders i = true)
    (final_state
       (add_instruction Sample.uuid Sample.clock no_faults Demo.widget_form
          [] ∅)).1.
Proof.
  apply (saved_records_reopen Sample.uuid Sample.clock no_faults ""
           UpdateButton false Demo.widget_form [] ∅).
  - split.
    + exists 2023, 1, 1. split; [|reflexivity]. split; [lia|by eexists].
    + exists 2024, 2, 29. split; [|reflexivity]. split; [lia|by eexists].
  - apply Forall_nil_2.
  - left. left. reflexivity.
Defined.

(** ** Files of other records *)

Lemma str_app_nil b : "" +:+ b = b.
Proof. reflexivity. Qed.

Lemma prefix_app a b : String.prefix a (a +:+ b) = true.
Proof.
  induction a as [|c a IH]; [by destruct b|].
  rewrite str_app_cons. simpl. by destruct (ascii_dec c c).
Qed.

Lemma names_record_current record_id upload_name :
  names_record record_id (current_name record_id upload_name) = true.
Proof.
  unfold names_record, current_name.
  rewrite <- str_app_assoc. apply prefix_app.
Qed.

Lemma names_record_version record_id version_num original :
  names_record record_id (version_name record_id version_num original) = true.
Proof.
  unfold names_record, version_name.
  change ("_v" +:+ Str.of_nat version_num +:+ "_" +:+ original)
    with ("_" +:+ "v" +:+ Str.of_nat version_num +:+ "_" +:+ original).
  rewrite <- str_app_assoc. apply prefix_app.
Qed.

(** Two ids of the same length that a stored name carries are one id. *)
Lemma names_record_inj a b stored_name :
  String.length a = String.length b ->
  names_record a stored_name = true -> names_record b stored_name = true ->
  a = b.
Proof.
  unfold names_record. revert b stored_name.
  induction a as [|c a IH]; intros [|c' b] n Hlen; try discriminate; [done|].
  rewrite !str_app_cons. destruct n as [|x n]; simpl; [discriminate|].
  destruct (ascii_dec c x) as [->|]; [|discriminate].
  destruct (ascii_dec c' x) as [->|]; [|discriminate].
  intros Ha Hb. f_equal. apply (IH b n); [|done..].
  simpl in Hlen. congruence.
Qed.

Lemma names_record_other a b stored_name :
  String.length a = String.length b -> a <> b ->
  names_record a stored_name = true -> names_record b stored_name = false.
Proof.
  intros Hlen Hne Ha. destruct (names_record b stored_name) eqn:Hb; [|done].
  destruct Hne. eauto using names_record_inj.
Qed.

Lemma archive_current_own clock faults i files i' files' :
  ends_in (archive_current clock faults i files) (i', files') ->
  own_file i ->
  forall n, names_record (id i) n = false -> files' !! n = files !! n.
Proof.
  unfold archive_current, ends_in, own_file.
  intros Hend Hown n Hn.
  assert (forall k o, n <> version_name (id i) k o) as Hv.
  { intros k o ->. by rewrite names_record_version in Hn. }
  assert (forall f, filename i = Some f -> n <> f) as Hf.
  { intros f Hfile ->. rewrite (Hown f Hfile) in Hn. done. }
  destruct Hend as [H|H]; repeat case_match; simplify_eq; try done;
    rewrite ?lookup_delete_ne by (apply not_eq_sym; eauto);
    by rewrite lookup_insert_ne by (apply not_eq_sym; eauto).
Qed.

Lemma replace_file_own clock faults up i files i' files' :
  ends_in (replace_file clock faults up i files) (i', files') ->
  own_file i ->
  own_file i'
  /\ forall n, names_record (id i) n = false -> files' !! n = files !! n.
Proof.
  unfold replace_file. intros Hend Hown.
  destruct (archive_current clock faults i files) as [|m|[i1 f1]|[i1 f1]] eqn:Ha;
    try (destruct Hend; discriminate).
  - destruct Hend as [|[= <- <-]]; [discriminate|].
    destruct (archive_current_keeps clock faults i files i1 f1)
      as (Hid & _ & Hfile & _); [by right|].
    split.
    + unfold own_file. by rewrite Hid, Hfile.
    + eapply archive_current_own; [by right|done].
  - destruct (archive_current_keeps clock faults i files i1 f1)
      as (Hid & _ & Hfile & _); [by left|].
    pose proof (archive_current_own clock faults i files i1 f1
                  (or_introl Ha) Hown) as Hfiles.
    destruct (faults CallWrite).
    + destruct Hend as [|[= <- <-]]; [discriminate|]. split; [|done].
      unfold own_file. by rewrite Hid, Hfile.
    + destruct Hend as [[= <- <-]|]; [|discriminate]. split.
      * intros f. simpl. intros [= <-]. apply names_record_current.
      * intros n Hn. rewrite lookup_insert_ne; [by apply Hfiles|].
        intros <-. rewrite <- Hid, names_record_current in Hn. done.
Qed.

Lemma update_instruction_own clock faults form i files i' files' :
  ends_in (update_instruction clock faults form i files) (i', files') ->
  own_file i ->
  own_file i'
  /\ forall n, names_record (id i) n = false -> files' !! n = files !! n.
Proof.
  unfold update_instruction. intros Hend Hown.
  destruct (all_filled form); simpl in Hend; [|destruct Hend; discriminate].
  set (i0 := match changes i form with [] => _ | _ => _ end) in Hend.
  assert (id i0 = id i /\ filename i0 = filename i) as [Hid0 Hf0].
  { subst i0. by destruct (changes i form). }
  assert (own_file i0) as Hown0.
  { unfold own_file. by rewrite Hid0, Hf0. }
  destruct (uploaded_file form) as [up|].
  - destruct (replace_file_own _ _ _ _ _ _ _ Hend Hown0) as [Ho Hfiles].
    split; [done|]. intros n Hn. apply Hfiles. by rewrite Hid0.
  - by destruct Hend as [[= <- <-]|].
Qed.

Lemma add_instruction_own uuid clock faults form data files s' :
  ends_in (add_instruction uuid clock faults form data files) s' ->
  Forall own_file data ->
  Forall own_file s'.1
  /\ forall n, names_record uuid n = false -> s'.2 !! n = files !! n.
Proof.
  unfold add_instruction, ends_in. intros Hend Hdata.
  destruct Hend as [H|H]; repeat case_match; simplify_eq; simpl;
    try done.
  - split.
    + apply Forall_app. split; [done|]. apply Forall_singleton.
      intros f. simpl. intros [= <-]. apply names_record_current.
    + intros n Hn. apply lookup_insert_ne. intros <-.
      by rewrite names_record_current in Hn.
  - split; [|done].
    apply Forall_app. split; [done|]. by apply Forall_singleton.
Qed.

Lemma edit_instruction_own clock faults selected_title button confirm_delete
    form data files i instruction s' :
  selected selected_title data = Some (i, instruction) ->
  ends_in (edit_instruction clock faults selected_title button
             confirm_delete form data files) s' ->
  Forall own_file data ->
  Forall own_file s'.1
  /\ forall n, names_record (id instruction) n = false ->
       s'.2 !! n = files !! n.
Proof.
  intros Hsel Hend Hdata.
  pose proof (selected_lookup _ _ _ _ Hsel) as Hl.
  assert (own_file instruction) as Hown.
  { by apply (Forall_lookup_1 _ _ _ _ Hdata Hl). }
  unfold edit_instruction in Hend. rewrite Hsel in Hend.
  destruct data as [|d0 data0] eqn:Hd; [destruct Hend; discriminate|].
  rewrite <- Hd in *. clear Hd d0 data0.
  destruct (form_renders instruction); simpl in Hend;
    [|by destruct Hend as [|[= <-]]].
  destruct button.
  - destruct (update_instruction clock faults form instruction files)
      as [|m|[i' f']|[i' f']] eqn:Hu;
      try (destruct Hend; discriminate).
    + destruct Hend as [|[= <-]]; [discriminate|]. simpl.
      destruct (update_instruction_own clock faults form instruction files
                  i' f') as [Ho Hfiles]; [by right|done|].
      split; [by apply Forall_insert|done].
    + destruct Hend as [[= <-]|]; [|discriminate]. simpl.
      destruct (update_instruction_own clock faults form instruction files
                  i' f') as [Ho Hfiles]; [by left|done|].
      split; [by apply Forall_insert|done].
  - destruct confirm_delete; [|destruct Hend; discriminate].
    split.
    + pose proof (delete_instruction_sublist _ _ _ _ _ Hend) as Hsub.
      rewrite Forall_forall in Hdata |- *.
      intros y Hy. apply Hdata. by eapply elem_of_sublist.
    + intros n Hn. unfold delete_instruction, ends_in in Hend.
      destruct Hend as [H|H]; repeat case_match; simplify_eq; simpl;
        try done.
      apply lookup_delete_ne. intros <-.
      rewrite (Hown _ ltac:(eassumption)) in Hn. done.
Qed.

Lemma reachable_own_file s : reachable s -> Forall own_file s.1.
Proof.
  induction 1 as [files|uuid clock faults form data files s' _ IH Hend
                 |clock faults selected_title button confirm_delete form
                    data files s' _ IH Hend]; simpl in *.
  - constructor.
  - by apply (add_instruction_own _ _ _ _ _ _ _ Hend).
  - destruct (selected selected_title data) as [[i instruction]|] eqn:Hsel.
    + by apply (edit_instruction_own _ _ _ _ _ _ _ _ _ _ _ Hsel Hend).
    + unfold edit_instruction in Hend. rewrite Hsel in Hend.
      destruct data; destruct Hend; discriminate.
Qed.

(** Each record's files are its own.  In a collection and directory
    built through the add and edit pages, a run of the add page (under
    the new id) or of the edit page (update or delete, on the selected
    record), however it ends, leaves every file stored under another id
    of the same length exactly as it was: it neither writes, replaces
    nor removes any file of another record. *)
Theorem run_spares_other_records uuid clock faults selected_title button
    confirm_delete form data files i instruction s' record_id other_id
    stored_name :
  reachable (data, files) ->
  (ends_in (add_instruction uuid clock faults form data files) s'
   /\ record_id = uuid)
  \/ (selected selected_title data = Some (i, instruction)
      /\ ends_in (edit_instruction clock faults selected_title button
                    confirm_delete form data files) s'
      /\ record_id = id instruction) ->
  String.length other_id = String.length record_id ->
  other_id <> record_id ->
  names_record other_id stored_name = true ->
  s'.2 !! stored_name = files !! stored_name.
Proof.
  intros Hreach Hrun Hlen Hne Hname.
  pose proof (reachable_own_file _ Hreach) as Hown. simpl in Hown.
  pose proof (names_record_other _ _ _ Hlen Hne Hname) as Hn.
  destruct Hrun as [[Hend ->]|(Hsel & Hend & ->)].
  - by apply (add_instruction_own _ _ _ _ _ _ _ Hend Hown).
  - by apply (edit_instruction_own _ _ _ _ _ _ _ _ _ _ _ Hsel Hend Hown).
Qed.

Lemma run_spares_other_records_witness :
  (final_state
     (edit_instruction Sample.clock no_faults "HR Policy" UpdateButton false
        (Sample.hr_form (Some Sample.policy_v2_pdf)) [Sample.hr_record]
        Sample.policy_files)).2
    !! current_name Demo.twin_uuid "policy.pdf"
  = Sample.policy_files !! current_name Demo.twin_uuid "policy.pdf".
Proof.
  apply (run_spares_other_records Sample.uuid Sample.clock no_faults
           "HR Policy" UpdateButton false
           (Sample.hr_form (Some Sample.policy_v2_pdf)) [Sample.hr_record]
           Sample.policy_files 0%nat Sample.hr_record _ Sample.uuid
           Demo.twin_uuid).
  - apply (reach_add Sample.uuid Sample.clock no_faults
             (Sample.hr_form (Some Sample.policy_pdf)) [] ∅);
      [apply reach_empty|].
    left. vm_compute. reflexivity.
  - right. split; [vm_compute; reflexivity|].
    split; [|reflexivity]. left. vm_compute. reflexivity.
  - reflexivity.
  - discriminate.
  - apply names_record_current.
Defined.

(** ** Where a history begins *)

Lemma starts_with_creation_prefix i i' :
  history i `prefix_of` history i' ->
  starts_with_creation i -> starts_with_creation i'.
Proof.
  intros [more Hmore] (entry & later & Hh & Hc & Hu).
  exists entry, (later ++ more). by rewrite Hmore, Hh.
Qed.

Lemma add_instruction_starts uuid clock faults form data files s' :
  ends_in (add_instruction uuid clock faults form data files) s' ->
  Forall starts_with_creation data -> Forall starts_with_creation s'.1.
Proof.
  unfold add_instruction, ends_in. intros Hend Hdata.
  destruct Hend as [H|H]; repeat case_match; simplify_eq; simpl;
    try done; apply Forall_app; (split; [done|]);
    apply Forall_singleton; by eexists _, _.
Qed.

Lemma edit_instruction_starts clock faults selected_title button
    confirm_delete form data files s' :
  ends_in (edit_instruction clock faults selected_title button confirm_delete
             form data files) s' ->
  Forall starts_with_creation data -> Forall starts_with_creation s'.1.
Proof.
  intros Hend Hdata.
  destruct (selected selected_title data) as [[i ins]|] eqn:Hsel.
  2: { unfold edit_instruction in Hend. rewrite Hsel in Hend.
       destruct data; destruct Hend; discriminate. }
  pose proof (selected_lookup _ _ _ _ Hsel) as Hl.
  destruct button.
  - destruct (update_branch_ends _ _ _ _ _ _ _ _ _ _ Hsel Hend)
      as [->|(i1 & f1 & Hu & ->)]; [done|]. simpl.
    apply Forall_insert; [done|].
    destruct (update_instruction_grows _ _ _ _ _ _ _ Hu) as (_ & Hh & _).
    apply (starts_with_creation_prefix ins); [done|].
    by apply (Forall_lookup_1 _ _ _ _ Hdata Hl).
  - unfold edit_instruction in Hend. rewrite Hsel in Hend.
    destruct data as [|d0 data0] eqn:Hd; [destruct Hend; discriminate|].
    rewrite <- Hd in *. clear Hd d0 data0.
    destruct (form_renders ins); simpl in Hend;
      [|by destruct Hend as [|[= <-]]].
    destruct confirm_delete; [|destruct Hend; discriminate].
    pose proof (delete_instruction_sublist _ _ _ _ _ Hend) as Hsub.
    rewrite Forall_forall in Hdata |- *.
    intros y Hy. apply Hdata. by eapply elem_of_sublist.
Qed.

(** The audit trail keeps its beginning.  In every collection built
    through the add and edit pages, runs cut short by an exception
    included, the history of each record is not empty and begins with the
    'Создание' entry written when the record was added, under the user
    "Система": no edit, file replacement or deletion of another record
    removes or displaces it. *)
Theorem history_starts_with_creation s :
  reachable s -> Forall starts_with_creation s.1.
Proof.
  induction 1 as [files| | ]; simpl.
  - constructor.
  - eauto using add_instruction_starts.
  - eauto using edit_instruction_starts.
Qed.

Lemma history_starts_with_creation_witness :
  Forall starts_with_creation Sample.created.1.
Proof.
  apply (history_starts_with_creation Sample.created).
  apply (reach_add Sample.uuid Sample.clock no_faults
           (Sample.hr_form (Some Sample.policy_pdf)) [] ∅);
    [apply reach_empty|].
  left. vm_compute. reflexivity.
Defined.

(** ** Statistics by responsible person *)

Lemma stats_of_bump_eq resp f stats :
  stats_of resp (bump resp f stats) = f (stats_of resp stats).
Proof.
  induction stats as [|[r s] rest IH]; simpl.
  - by rewrite decide_True.
  - destruct (decide (r = resp)) as [->|Hne]; simpl.
    + by rewrite decide_True.
    + by rewrite decide_False.
Qed.

Lemma stats_of_bump_ne resp resp' f stats :
  resp' <> resp -> stats_of resp' (bump resp f stats) = stats_of resp' stats.
Proof.
  intros Hne. induction stats as [|[r s] rest IH]; simpl.
  - by rewrite decide_False.
  - destruct (decide (r = resp)) as [->|Hr]; simpl.
    + by rewrite !decide_False.
    + by rewrite IH.
Qed.

Lemma keys_bump resp f stats :
  (bump resp f stats).*1
  = if decide (resp ∈ stats.*1) then stats.*1 else stats.*1 ++ [resp].
Proof.
  induction stats as [|[r s] rest IH].
  - case_decide as Hin; [by apply elem_of_nil in Hin|done].
  - cbn [bump]. destruct (decide (r = resp)) as [->|Hr].
    + rewrite decide_True; [done|]. apply list_elem_of_here.
    + rewrite fmap_cons, IH. cbn [fst].
      destruct (decide (resp ∈ rest.*1)) as [Hin|Hin].
      * rewrite decide_True; [done|]. by apply list_elem_of_further.
      * rewrite decide_False; [done|].
        rewrite fmap_cons. cbn [fst].
        intros [?|?]%elem_of_cons; congruence.
Qed.

Lemma NoDup_keys_bump resp f stats :
  NoDup stats.*1 -> NoDup (bump resp f stats).*1.
Proof.
  intros Hnd. rewrite keys_bump. case_decide; [done|].
  apply NoDup_app. split; [done|]. split.
  - intros x Hx ->%list_elem_of_singleton. done.
  - apply NoDup_singleton.
Qed.

Lemma elem_of_keys_bump resp f stats r :
  r ∈ (bump resp f stats).*1 <-> r ∈ stats.*1 \/ r = resp.
Proof.
  rewrite keys_bump. case_decide as Hin.
  - split; [by left|]. intros [?| ->]; done.
  - rewrite elem_of_app, list_elem_of_singleton. done.
Qed.

Lemma sum_total_bump item b stats :
  sum_list (total <$> (bump (responsible item) (count_item item b) stats).*2)
  = S (sum_list (total <$> stats.*2)).
Proof.
  induction stats as [|[r s] rest IH]; [done|].
  cbn [bump]. destruct (decide (r = responsible item)); [done|].
  rewrite !fmap_cons. cbn [snd].
  change (sum_list (?x :: ?l)) with (x + sum_list l)%nat.
  rewrite IH. lia.
Qed.

Lemma stats_of_row r s stats :
  NoDup stats.*1 -> (r, s) ∈ stats -> stats_of r stats = s.
Proof.
  induction stats as [|[r' s'] rest IH]; simpl.
  - by intros _ ?%elem_of_nil.
  - intros [Hnotin Hnd]%NoDup_cons [[= -> ->]|Hin]%elem_of_cons.
    + by rewrite decide_True.
    + rewrite decide_False; [by apply IH|].
      intros ->. apply Hnotin.
      apply list_elem_of_fmap. by exists (r, s).
Qed.

Lemma responsible_stats_from_judged now data : forall k stats,
  responsible_stats_from now k stats data
  = foldl (fun acc p => bump (responsible p.1) (count_item p.1 p.2) acc)
      stats (judged_from now k data).
Proof.
  induction data as [|item rest IH]; intros k stats; simpl; [done|].
  by rewrite IH.
Qed.

Lemma judged_from_items now data : forall k, (judged_from now k data).*1 = data.
Proof.
  induction data as [|item rest IH]; intros k; simpl; [done|].
  by rewrite IH.
Qed.

Section Tally.

Variable r : string.

Let step := fun (acc : list (string * Stats)) (p : Instruction * bool) =>
  bump (responsible p.1) (count_item p.1 p.2) acc.

Lemma tally_total (l : list (Instruction * bool)) : forall stats,
  total (stats_of r (foldl step stats l))
  = (total (stats_of r stats)
     + length (filter (fun p => responsible p.1 = r) l))%nat.
Proof.
  induction l as [|p l IH]; intros stats; simpl; [lia|].
  rewrite IH, filter_cons. unfold step.
  destruct (decide (responsible p.1 = r)) as [<-|Hne].
  - rewrite stats_of_bump_eq. simpl. lia.
  - by rewrite stats_of_bump_ne.
Qed.

Lemma tally_outdated (l : list (Instruction * bool)) : forall stats,
  outdated (stats_of r (foldl step stats l))
  = (outdated (stats_of r stats)
     + length (filter (fun p => responsible p.1 = r /\ p.2 = true) l))%nat.
Proof.
  induction l as [|p l IH]; intros stats; simpl; [lia|].
  rewrite IH, filter_cons. unfold step.
  destruct (decide (responsible p.1 = r)) as [<-|Hne].
  - rewrite stats_of_bump_eq. simpl. destruct p.2.
    + rewrite decide_True by done. simpl. lia.
    + rewrite decide_False by (intros [_ ?]; discriminate). lia.
  - rewrite stats_of_bump_ne by done.
    by rewrite decide_False by (intros [? _]; done).
Qed.

Lemma tally_without_file (l : list (Instruction * bool)) : forall stats,
  without_file (stats_of r (foldl step stats l))
  = (without_file (stats_of r stats)
     + length (filter (fun p => responsible p.1 = r /\ has_file p.1 = false)
                 l))%nat.
Proof.
  induction l as [|p l IH]; intros stats; simpl; [lia|].
  rewrite IH, filter_cons. unfold step.
  destruct (decide (responsible p.1 = r)) as [<-|Hne].
  - rewrite stats_of_bump_eq. simpl. destruct (has_file p.1).
    + rewrite decide_False by (intros [_ ?]; discriminate). simpl. lia.
    + rewrite decide_True by done. simpl. lia.
  - rewrite stats_of_bump_ne by done.
    by rewrite decide_False by (intros [? _]; done).
Qed.

Lemma tally_keys (l : list (Instruction * bool)) : forall stats,
  r ∈ (foldl step stats l).*1
  <-> r ∈ stats.*1 \/ exists p, p ∈ l /\ responsible p.1 = r.
Proof.
  induction l as [|p l IH]; intros stats; simpl.
  - split; [by left|]. intros [|(p & []%elem_of_nil & _)]; done.
  - rewrite IH. unfold step. rewrite elem_of_keys_bump. split.
    + intros [[?| ->]|(q & Hq & Hr)]; [by left|right..].
      * exists p. split; [apply list_elem_of_here|done].
      * exists q. split; [by apply list_elem_of_further|done].
    + intros [|(q & [->|Hq]%elem_of_cons & Hr)].
      * by left; left.
      * by left; right.
      * right. by exists q.
Qed.

End Tally.

Lemma tally_NoDup (l : list (Instruction * bool)) : forall stats,
  NoDup stats.*1 ->
  NoDup (foldl (fun acc p => bump (responsible p.1) (count_item p.1 p.2) acc)
           stats l).*1.
Proof.
  induction l as [|p l IH]; intros stats Hnd; simpl; [done|].
  by apply IH, NoDup_keys_bump.
Qed.

Lemma tally_sum (l : list (Instruction * bool)) : forall stats,
  sum_list (total <$>
    (foldl (fun acc p => bump (responsible p.1) (count_item p.1 p.2) acc)
       stats l).*2)
  = (sum_list (total <$> stats.*2) + length l)%nat.
Proof.
  induction l as [|p l IH]; intros stats; simpl; [lia|].
  rewrite IH, sum_total_bump. lia.
Qed.

(** The table "Статистика по ответственным лицам" has one row for each
    responsible person of the collection and no other row; the counts of
    a row are those of that person's records: how many there are (at
    least one), how many of them the pass judged outdated, and how many
    have no file; the totals of the rows add up to the number of
    records. *)
Theorem responsible_stats_spec now data :
  NoDup (responsible_stats now data).*1
  /\ (forall r, r ∈ (responsible_stats now data).*1
        <-> exists item, item ∈ data /\ responsible item = r)
  /\ (forall r s, (r, s) ∈ responsible_stats now data ->
        total s = length (filter (fun p => responsible p.1 = r)
                            (judged now data))
        /\ outdated s
           = length (filter (fun p => responsible p.1 = r /\ p.2 = true)
                       (judged now data))
        /\ without_file s
           = length (filter (fun p => responsible p.1 = r
                                      /\ has_file p.1 = false)
                       (judged now data))
        /\ (0 < total s)%nat)
  /\ sum_list (total <$> (responsible_stats now data).*2) = length data.
Proof.
  unfold responsible_stats, judged.
  rewrite responsible_stats_from_judged.
  assert (NoDup
    (foldl (fun acc p => bump (responsible p.1) (count_item p.1 p.2) acc)
       [] (judged_from now 0 data)).*1) as Hnd.
  { apply tally_NoDup. constructor. }
  assert (forall r,
    r ∈ (foldl (fun acc p => bump (responsible p.1) (count_item p.1 p.2) acc)
           [] (judged_from now 0 data)).*1
    <-> exists item, item ∈ data /\ responsible item = r) as Hkeys.
  { intros r. rewrite tally_keys. simpl. split.
    - intros [[]%elem_of_nil|(p & Hp & Hr)]. exists p.1. split; [|done].
      rewrite <- (judged_from_items now data 0).
      apply list_elem_of_fmap. by exists p.
    - intros (item & Hitem & Hr). right.
      rewrite <- (judged_from_items now data 0) in Hitem.
      apply list_elem_of_fmap in Hitem as (p & -> & Hp). by exists p. }
  split; [done|]. split; [done|]. split.
  - intros r s Hrow.
    pose proof (stats_of_row _ _ _ Hnd Hrow) as Hs.
    pose proof (tally_total r (judged_from now 0 data) []) as Ht.
    pose proof (tally_outdated r (judged_from now 0 data) []) as Ho.
    pose proof (tally_without_file r (judged_from now 0 data) []) as Hw.
    rewrite Hs in Ht, Ho, Hw. simpl in Ht, Ho, Hw.
    split; [done|]. split; [done|]. split; [done|].
    rewrite Ht.
    assert (r ∈ (foldl
      (fun acc p => bump (responsible p.1) (count_item p.1 p.2) acc)
      [] (judged_from now 0 data)).*1) as Hin.
    { apply list_elem_of_fmap. by exists (r, s). }
    apply tally_keys in Hin as [[]%elem_of_nil|(p & Hp & Hr)].
    assert (p ∈ filter (fun p => responsible p.1 = r)
                  (judged_from now 0 data)) as Hpf.
    { by apply list_elem_of_filter. }
    destruct (filter _ _); [by apply elem_of_nil in Hpf|simpl; lia].
  - rewrite tally_sum. simpl.
    rewrite <- (judged_from_items now data 0) at 2.
    by rewrite length_fmap.
Qed.

(** ** The latest changes *)

Lemma leb_nil_l s : String.leb "" s = true.
Proof. by destruct s. Qed.

Lemma leb_cons a s b t :
  String.leb (String a s) (String b t) = true
  <-> (N_of_ascii a < N_of_ascii b)%N \/ (a = b /\ String.leb s t = true).
Proof.
  unfold String.leb. simpl. unfold Ascii.compare.
  destruct (N.compare_spec (N_of_ascii a) (N_of_ascii b)) as [He|Hlt|Hgt].
  - apply (f_equal ascii_of_N) in He. rewrite !ascii_N_embedding in He.
    subst. split; [by right|]. intros [?|[_ ?]]; [lia|done].
  - split; [by left|done].
  - split; [done|]. intros [?|[-> _]]; lia.
Qed.

Lemma leb_trans s1 : forall s2 s3,
  String.leb s1 s2 = true -> String.leb s2 s3 = true ->
  String.leb s1 s3 = true.
Proof.
  induction s1 as [|a s1 IH]; intros s2 s3; [intros; apply leb_nil_l|].
  destruct s2 as [|b s2]; [discriminate|].
  destruct s3 as [|c s3]; [discriminate|].
  rewrite !leb_cons. intros [?|[-> ?]] [?|[-> ?]].
  - left. lia.
  - by left.
  - by left.
  - right. eauto.
Qed.

Lemma leb_refl s : String.leb s s = true.
Proof. by destruct (String.leb_total s s). Qed.

#[local] Instance not_older_trans : Transitive not_older.
Proof. intros a b c Hab Hbc. unfold not_older in *. by eapply leb_trans. Qed.

Lemma insert_desc_perm x l : insert_desc x l ≡ₚ x :: l.
Proof.
  induction l as [|y l IH]; simpl; [done|].
  case_match; [done|]. rewrite IH. apply Permutation_swap.
Qed.

Lemma sorted_desc_perm l : sorted_desc l ≡ₚ l.
Proof.
  induction l as [|x l IH]; simpl; [done|].
  by rewrite insert_desc_perm, IH.
Qed.

Lemma insert_desc_sorted x l :
  Sorted not_older l -> Sorted not_older (insert_desc x l).
Proof.
  induction 1 as [|y l Hl IH Hhd]; simpl.
  - by repeat constructor.
  - destruct (String.leb (change_time y) (change_time x)) eqn:Hyx.
    + constructor; [by constructor|]. by constructor.
    + constructor; [done|].
      assert (not_older y x) as Hxy.
      { unfold not_older.
        destruct (String.leb_total (change_time x) (change_time y));
          congruence. }
      destruct Hhd as [|z l Hz]; simpl; [by constructor|].
      case_match; by constructor.
Qed.

Lemma sorted_desc_sorted l : Sorted not_older (sorted_desc l).
Proof.
  induction l as [|x l IH]; simpl; [constructor|].
  by apply insert_desc_sorted.
Qed.

(** Sorting keeps the rows of one time in the order they had. *)
Lemma insert_desc_stable t x l :
  filter (fun c => change_time c = t) (insert_desc x l)
  = filter (fun c => change_time c = t) (x :: l).
Proof.
  induction l as [|y l IH]; simpl; [done|].
  destruct (String.leb (change_time y) (change_time x)) eqn:Hyx; [done|].
  rewrite (filter_cons _ y), IH, !filter_cons.
  destruct (decide (change_time y = t)) as [Hy|]; [|done].
  destruct (decide (change_time x = t)) as [Hx|]; [|done].
  rewrite Hy, Hx, leb_refl in Hyx. discriminate.
Qed.

Lemma sorted_desc_stable t l :
  filter (fun c => change_time c = t) (sorted_desc l)
  = filter (fun c => change_time c = t) l.
Proof.
  induction l as [|x l IH]; simpl; [done|].
  by rewrite insert_desc_stable, !filter_cons, IH.
Qed.

Lemma filter_take_prefix {A} (P : A -> Prop) `{forall x, Decision (P x)}
    (n : nat) (l : list A) :
  filter P (take n l) `prefix_of` filter P l.
Proof.
  rewrite <- (take_drop n l) at 2. rewrite filter_app. by apply prefix_app_r.
Qed.

Lemma all_changes_length data :
  length (all_changes data) = sum_list (map (fun i => length (history i)) data).
Proof.
  unfold all_changes. induction data as [|item data IH]; simpl; [done|].
  by rewrite length_app, length_map, IH.
Qed.

(** The table "Последние изменения" shows the 20 latest history entries
    of the whole collection, latest first: it has 20 rows, or as many as
    there are entries when there are fewer; no row is older than the row
    below it; the entries it leaves out are none of them later than a
    row it shows; and rows stamped with the same second stand in the
    order of the collection and of the record's history. *)
Theorem all_changes_sorted_spec data :
  length (all_changes_sorted data)
  = Nat.min 20 (sum_list (map (fun i => length (history i)) data))
  /\ StronglySorted not_older (all_changes_sorted data)
  /\ (exists left_out,
        all_changes data ≡ₚ all_changes_sorted data ++ left_out
        /\ forall shown older, shown ∈ all_changes_sorted data ->
             older ∈ left_out -> not_older shown older)
  /\ (forall t,
        filter (fun c => change_time c = t) (all_changes_sorted data)
        `prefix_of` filter (fun c => change_time c = t) (all_changes data)).
Proof.
  unfold all_changes_sorted.
  pose proof (sorted_desc_sorted (all_changes data)) as Hs.
  apply Sorted_StronglySorted in Hs; [|apply _].
  rewrite <- (take_drop 20 (sorted_desc (all_changes data))) in Hs.
  split; [|split; [|split]].
  - rewrite length_take, (Permutation_length (sorted_desc_perm _)),
      all_changes_length. lia.
  - by apply StronglySorted_app_1_l in Hs.
  - exists (drop 20 (sorted_desc (all_changes data))). split.
    + by rewrite take_drop, sorted_desc_perm.
    + intros shown older Hshown Holder.
      eapply StronglySorted_app_1_elem_of; [exact Hs|done..].
  - intros t. rewrite <- (sorted_desc_stable t (all_changes data)).
    apply filter_take_prefix.
Qed.

(** ** Passes that ask [is_outdated] *)

Lemma judged_from_elem now data : forall k p,
  p ∈ judged_from now k data ->
  p.1 ∈ data
  /\ exists j, p.2 = is_outdated (now j) (Some (last_update p.1))
                       DEFAULT_MONTHS_THRESHOLD.
Proof.
  induction data as [|item rest IH]; intros k p; simpl.
  - by intros ?%elem_of_nil.
  - intros [->|Hin]%elem_of_cons.
    + split; [apply list_elem_of_here|by exists k].
    + destruct (IH _ _ Hin) as [? ?]. split; [by apply list_elem_of_further|done].
Qed.

Lemma judged_from_covers now data : forall k item,
  item ∈ data ->
  exists j, (item, is_outdated (now j) (Some (last_update item))
                     DEFAULT_MONTHS_THRESHOLD) ∈ judged_from now k data.
Proof.
  induction data as [|x rest IH]; intros k item; simpl.
  - by intros ?%elem_of_nil.
  - intros [->|Hin]%elem_of_cons.
    + exists k. apply list_elem_of_here.
    + destruct (IH (S k) _ Hin) as [j Hj]. exists j.
      by apply list_elem_of_further.
Qed.

Lemma within_end t0 t1 now j d :
  within t0 t1 now ->
  is_outdated (now j) d DEFAULT_MONTHS_THRESHOLD = true ->
  is_outdated t1 d DEFAULT_MONTHS_THRESHOLD = true.
Proof.
  intros (H0 & H1 & Hpast & Hnow). destruct (Hnow j) as (Hj & Hlo & Hhi).
  assert (360 < Calendar.ordinal (now j) /\ 360 < Calendar.ordinal t1)
    as [Hpj Hp1].
  { destruct H0 as [_ Hu0], Hj as [_ Huj], H1 as [_ Hu1].
    unfold Calendar.instant, Calendar.USEC_PER_DAY in *. lia. }
  rewrite !is_outdated_default_stale by done.
  apply stale_later; [done|lia].
Qed.

Lemma within_start t0 t1 now j d :
  within t0 t1 now ->
  is_outdated t0 d DEFAULT_MONTHS_THRESHOLD = true ->
  is_outdated (now j) d DEFAULT_MONTHS_THRESHOLD = true.
Proof.
  intros (H0 & H1 & Hpast & Hnow). destruct (Hnow j) as (Hj & Hlo & Hhi).
  assert (360 < Calendar.ordinal (now j)) as Hpj.
  { destruct H0 as [_ Hu0], Hj as [_ Huj].
    unfold Calendar.instant, Calendar.USEC_PER_DAY in *. lia. }
  rewrite !is_outdated_default_stale by done.
  apply stale_later; [done|lia].
Qed.

Lemma outdated_pass_elem now data item b :
  item ∈ (filter (fun p => p.2 = b) (judged now data)).*1
  <-> exists j, item ∈ data
                /\ (item, b) ∈ judged now data
                /\ is_outdated (now j) (Some (last_update item))
                     DEFAULT_MONTHS_THRESHOLD = b.
Proof.
  rewrite list_elem_of_fmap. split.
  - intros ([x c] & -> & [Hc Hin]%list_elem_of_filter). simpl in *. subst c.
    destruct (judged_from_elem _ _ _ _ Hin) as [Hx [j Hj]]. simpl in *.
    exists j. done.
  - intros (j & _ & Hin & _). exists (item, b). split; [done|].
    by apply list_elem_of_filter.
Qed.

Lemma outdated_pass_sublist now data b :
  (filter (fun p => p.2 = b) (judged now data)).*1 `sublist_of` data.
Proof.
  rewrite <- (judged_from_items now data 0) at 2.
  apply fmap_sublist, sublist_filter.
Qed.

(** ** The filters of the overview page *)

Lemma prefix_split needle : forall hay,
  String.prefix needle hay = true -> exists post, hay = needle +:+ post.
Proof.
  induction needle as [|c needle IH]; intros hay.
  - intros _. by exists hay.
  - destruct hay as [|x hay]; simpl; [done|].
    destruct (ascii_dec c x) as [->|]; [|done].
    intros (post & ->)%IH. by exists post.
Qed.

Lemma contains_here needle hay :
  String.prefix needle hay = true -> contains needle hay = true.
Proof. intros H. destruct hay; cbn [contains]; by rewrite H. Qed.

(** [contains] is the substring test. *)
Lemma contains_occurs_in needle hay :
  contains needle hay = true <-> Str.occurs_in needle hay.
Proof.
  split.
  - induction hay as [|c hay IH]; cbn [contains].
    + rewrite orb_false_r. intros (post & Hp)%prefix_split.
      exists "", post. by rewrite str_app_nil.
    + intros [(post & Hp)%prefix_split|(pre & post & ->)%IH]%orb_true_iff.
      * exists "", post. by rewrite str_app_nil.
      * by exists (String c pre), post.
  - intros (pre & post & ->).
    induction pre as [|c pre IH].
    + rewrite str_app_nil. apply contains_here, prefix_app.
    + rewrite str_app_cons. cbn [contains]. rewrite IH. apply orb_true_r.
Qed.

Section OverviewProperties.

Variable lower : string -> string.

Lemma filtered_data_text now search_term department_filter responsible_filter
    status_filter data :
  exists text,
    (forall item, item ∈ text
       <-> item ∈ data
           /\ matches lower search_term department_filter responsible_filter
                item)
    /\ text `sublist_of` data
    /\ filtered_data lower now search_term department_filter
         responsible_filter status_filter data
       = match status_filter with
         | AnyStatus => text
         | NeedsUpdate => (filter (fun p => p.2 = true) (judged now text)).*1
         | UpToDate => (filter (fun p => p.2 = false) (judged now text)).*1
         end.
Proof.
  unfold filtered_data. cbv zeta. eexists. split; [|split]; [| |reflexivity].
  - intros item. unfold matches. rewrite <- contains_occurs_in.
    destruct (decide (department_filter = ALL)) as [Hd|Hd];
      [rewrite (bool_decide_eq_false_2 (department_filter <> ALL)) by tauto
      |rewrite (bool_decide_eq_true_2 (department_filter <> ALL)) by done];
      (destruct (decide (responsible_filter = ALL)) as [Hr|Hr];
       [rewrite (bool_decide_eq_false_2 (responsible_filter <> ALL)) by tauto
       |rewrite (bool_decide_eq_true_2 (responsible_filter <> ALL)) by done]);
      destruct search_term as [|c s]; simpl;
      rewrite ?list_elem_of_filter;
      intuition (try discriminate; try congruence).
  - repeat case_match; repeat (etrans; [apply sublist_filter|]); done.
Qed.

(** What the overview lists.  The records shown are records of the
    collection, in the collection's order.  Each one passes every text
    filter that is set (an empty search, and the option "Все", set
    none).  Under "Требует актуализации", with the clock read between
    [t0] and [t1], each record shown is outdated at [t1] and each record
    outdated at [t0] that passes the text filters is shown; under
    "Актуальные", each record shown is current at [t0] and each record
    still current at [t1] that passes the text filters is shown. *)
Theorem overview_filter_spec t0 t1 now search_term department_filter
    responsible_filter status_filter data :
  within t0 t1 now ->
  filtered_data lower now search_term department_filter responsible_filter
    status_filter data `sublist_of` data
  /\ forall item,
       (item ∈ filtered_data lower now search_term department_filter
                 responsible_filter status_filter data ->
        item ∈ data
        /\ matches lower search_term department_filter responsible_filter item
        /\ match status_filter with
           | AnyStatus => True
           | NeedsUpdate =>
               is_outdated t1 (Some (last_update item))
                 DEFAULT_MONTHS_THRESHOLD = true
           | UpToDate =>
               is_outdated t0 (Some (last_update item))
                 DEFAULT_MONTHS_THRESHOLD = false
           end)
       /\ (item ∈ data ->
           matches lower search_term department_filter responsible_filter
             item ->
           match status_filter with
           | AnyStatus => True
           | NeedsUpdate =>
               is_outdated t0 (Some (last_update item))
                 DEFAULT_MONTHS_THRESHOLD = true
           | UpToDate =>
               is_outdated t1 (Some (last_update item))
                 DEFAULT_MONTHS_THRESHOLD = false
           end ->
           item ∈ filtered_data lower now search_term department_filter
                    responsible_filter status_filter data).
Proof.
  intros Hwin.
  destruct (filtered_data_text now search_term department_filter
              responsible_filter status_filter data)
    as (text & Htext & Hsub & ->).
  split.
  { destruct status_filter; [done| |];
      (etrans; [apply outdated_pass_sublist|done]). }
  intros item. split.
  - destruct status_filter.
    + intros Hin. apply Htext in Hin as [? ?]. done.
    + intros (j & Hin & _ & Hj)%outdated_pass_elem.
      apply Htext in Hin as [? ?]. split; [done|]. split; [done|].
      by apply (within_end t0 t1 now j).
    + intros (j & Hin & _ & Hj)%outdated_pass_elem.
      apply Htext in Hin as [? ?]. split; [done|]. split; [done|].
      apply not_true_is_false. intros Hold.
      apply (within_start t0 t1 now j) in Hold; [congruence|done].
  - intros Hdata Hm Hstatus.
    assert (item ∈ text) as Hin by (by apply Htext).
    destruct status_filter; [done| |].
    + destruct (judged_from_covers now text 0 item Hin) as [j Hj].
      apply outdated_pass_elem. exists j.
      pose proof (within_start t0 t1 now j _ Hwin Hstatus) as Hnow.
      rewrite Hnow in Hj. done.
    + destruct (judged_from_covers now text 0 item Hin) as [j Hj].
      apply outdated_pass_elem. exists j.
      assert (is_outdated (now j) (Some (last_update item))
                DEFAULT_MONTHS_THRESHOLD = false) as Hnow.
      { apply not_true_is_false. intros Hn.
        apply (within_end t0 t1 now j) in Hn; [congruence|done]. }
      rewrite Hnow in Hj. done.
Qed.


End OverviewProperties.

Lemma within_at_noon : within Sample.noon Sample.noon Demo.at_noon.
Proof.
  unfold within, Calendar.valid, Calendar.MAXORDINAL, Calendar.USEC_PER_DAY,
    Demo.at_noon.
  simpl. repeat split; lia.
Qed.

Lemma overview_filter_spec_witness :
  filtered_data (fun s => s) Demo.at_noon "HR" ALL "B. Petrov" AnyStatus
    Demo.pair `sublist_of` Demo.pair.
Proof.
  apply (overview_filter_spec (fun s => s) Sample.noon Sample.noon
           Demo.at_noon "HR" ALL "B. Petrov" AnyStatus Demo.pair).
  apply within_at_noon.
Defined.


(** ** Reminders to all *)

Lemma send_each_mails smtp mails : forall k, (send_each smtp k mails).*1 = mails.
Proof.
  induction mails as [|m rest IH]; intros k; simpl; [done|]. by rewrite IH.
Qed.

Lemma send_each_lookup smtp mails : forall k i m,
  mails !! i = Some m ->
  send_each smtp k mails !! i = Some (m, smtp (k + i)%nat).
Proof.
  induction mails as [|x rest IH]; intros k [|i] m; simpl; try done.
  - intros [= ->]. by rewrite Nat.add_0_r.
  - intros Hm. rewrite (IH (S k) i m Hm). do 3 f_equal. lia.
Qed.

Lemma calls_of_send_to_all smtp yandex_email yandex_password reminder
    recipients :
  calls_of (send_to_all smtp yandex_email yandex_password reminder recipients)
  = if Str.truthy yandex_email && Str.truthy yandex_password
    then send_each smtp 0 (map (reminder yandex_email) recipients)
    else [].
Proof. unfold send_to_all. by case_match. Qed.

Lemma calls_of_send_reminders now smtp yandex_email yandex_password button
    data :
  NoDup (map id data) ->
  calls_of (send_reminders now smtp yandex_email yandex_password button data)
  = if Str.truthy yandex_email && Str.truthy yandex_password
    then
      match button with
      | AllUpdateReminders =>
          send_each smtp 0
            (map (update_reminder yandex_email) (outdated_instructions now data))
      | AllFileReminders =>
          send_each smtp 0
            (map (file_reminder yandex_email) (instructions_without_files data))
      end
    else [].
Proof.
  intros Hids. unfold send_reminders. cbv zeta.
  rewrite bool_decide_true; cycle 1.
  { split.
    - refine (sublist_NoDup _ _ Hids _).
      change (map id) with (fmap (M:=list) id).
      apply fmap_sublist, outdated_pass_sublist.
    - refine (sublist_NoDup _ _ Hids _).
      change (map id) with (fmap (M:=list) id).
      apply fmap_sublist, sublist_filter. }
  destruct button.
  - destruct (outdated_instructions now data) eqn:E.
    + simpl. by case_match.
    + apply calls_of_send_to_all.
  - destruct (instructions_without_files data) eqn:E.
    + simpl. by case_match.
    + apply calls_of_send_to_all.
Qed.

(** Who is written to when "send to all" is pressed, in a collection
    with distinct ids.  Without both the sender's address and the
    password no mail is handed over.  With them, the update reminders go,
    one call of [send_email] each and whatever the earlier calls
    returned, to every record that is outdated when the run starts, and
    only to records that are outdated when it ends, each at its stored
    address; the file reminders go to exactly the records without a
    file, in the order of the collection. *)
Theorem send_reminders_recipients t0 t1 now smtp yandex_email yandex_password
    data :
  within t0 t1 now -> NoDup (map id data) ->
  (Str.truthy yandex_email && Str.truthy yandex_password = false ->
     forall button,
       calls_of (send_reminders now smtp yandex_email yandex_password button
                   data) = [])
  /\ (Str.truthy yandex_email && Str.truthy yandex_password = true ->
      (forall item, item ∈ data ->
         is_outdated t0 (Some (last_update item)) DEFAULT_MONTHS_THRESHOLD
         = true ->
         exists k : nat,
           calls_of (send_reminders now smtp yandex_email yandex_password
                       AllUpdateReminders data) !! k
           = Some (update_reminder yandex_email item, smtp k))
      /\ (forall call,
            call ∈ calls_of (send_reminders now smtp yandex_email
                               yandex_password AllUpdateReminders data) ->
            exists item, item ∈ data
              /\ call.1 = update_reminder yandex_email item
              /\ mail_to call.1 = email item
              /\ is_outdated t1 (Some (last_update item))
                   DEFAULT_MONTHS_THRESHOLD = true)
      /\ (calls_of (send_reminders now smtp yandex_email yandex_password
                      AllFileReminders data)).*1
         = map (file_reminder yandex_email)
             (filter (fun item => has_file item = false) data)).
Proof.
  intros Hwin Hids. split.
  - intros Hcred button. rewrite calls_of_send_reminders by done.
    by rewrite Hcred.
  - intros Hcred. rewrite !calls_of_send_reminders by done.
    rewrite Hcred. split; [|split].
    + intros item Hitem H0.
      destruct (judged_from_covers now data 0 item Hitem) as [j Hj].
      rewrite (within_start t0 t1 now j _ Hwin H0) in Hj.
      assert (item ∈ outdated_instructions now data) as Hin.
      { apply outdated_pass_elem. exists j. split; [done|]. split; [done|].
        by apply (within_start t0 t1 now j). }
      apply list_elem_of_lookup_1 in Hin as [k Hk]. exists k.
      rewrite (send_each_lookup smtp _ 0 k (update_reminder yandex_email item)).
      * done.
      * change (map (update_reminder yandex_email))
          with (fmap (M:=list) (update_reminder yandex_email)).
        by rewrite list_lookup_fmap, Hk.
    + intros call Hcall.
      assert (call.1 ∈ map (update_reminder yandex_email)
                         (outdated_instructions now data)) as Hm.
      { rewrite <- (send_each_mails smtp _ 0).
        apply list_elem_of_fmap. by exists call. }
      change (map (update_reminder yandex_email))
        with (fmap (M:=list) (update_reminder yandex_email)) in Hm.
      apply list_elem_of_fmap in Hm as (item & Heq & Hin).
      apply outdated_pass_elem in Hin as (j & Hdata & _ & Hj).
      exists item. split; [done|]. split; [done|]. split; [by rewrite Heq|].
      by apply (within_end t0 t1 now j).
    + by rewrite send_each_mails.
Qed.

Lemma send_reminders_recipients_witness :
  exists k : nat,
    calls_of (send_reminders Demo.at_noon Demo.smtp_ok "hr@yandex.ru" "secret"
                AllUpdateReminders Demo.pair) !! k
    = Some (update_reminder "hr@yandex.ru" Sample.hr_record, Demo.smtp_ok k).
Proof.
  apply (send_reminders_recipients Sample.noon Sample.noon Demo.at_noon
           Demo.smtp_ok "hr@yandex.ru" "secret" Demo.pair).
  - apply within_at_noon.
  - simpl. apply NoDup_cons. split; [|apply NoDup_singleton].
    intros Hin%list_elem_of_singleton. discriminate Hin.
  - reflexivity.
  - apply list_elem_of_here.
  - reflexivity.
Defined.
